(** * MigratorXpress MCP: command construction, validation, masking,
      capability resolution and gated execution

    A shallow embedding of the Python sources [src/version.py],
    [src/validators.py], [src/migratorxpress.py] and [src/server.py].

    Conventions of the embedding:
    - a Python [str] is a [string] (a sequence of 8-bit characters); the
      character classes [\d] and [\s] of [re] and [str.strip] are taken over
      the ASCII range;
    - a Python [int] is a [Z]; [str(n)] is stdpp's [pretty];
    - a [frozenset] of strings is a [gset string]; a [dict] used as a map is a
      [gmap] or, where the insertion order matters, an association list;
    - a function that raises returns a sum or an option;
    - what the operating system decides (the outcome of [subprocess.run], of
      writing a log file) is an explicit argument of the function that asks;
      what the program does to the outside (processes asked for, log files
      written) is collected in a [World]; the lines sent to [logger] are not
      part of the model. *)

From Stdlib Require Import ZArith Ascii String List Floats.
From stdpp Require Import base tactics option list sorting gmap strings pretty.

Local Open Scope string_scope.
Local Open Scope list_scope.
Local Open Scope Z_scope.

(** ** Characters and small string helpers *)

Module Text.

(** [c.isdigit()] / [\d], over ASCII. *)
Definition is_digit (c : ascii) : bool :=
  let n := N_of_ascii c in ((48 <=? n) && (n <=? 57))%N.

(** [c.isspace()] / [\s], over ASCII: TAB, LF, VT, FF, CR, the four
    separators FS, GS, RS, US, and the space. *)
Definition is_space (c : ascii) : bool :=
  let n := N_of_ascii c in
  (((9 <=? n) && (n <=? 13)) || ((28 <=? n) && (n <=? 32)))%N.

(** [c.lower()], over ASCII. *)
Definition lower (c : ascii) : ascii :=
  let n := N_of_ascii c in
  if ((65 <=? n) && (n <=? 90))%N then ascii_of_N (n + 32) else c.

(** The longest prefix whose characters satisfy [p], and the rest. *)
Fixpoint span (p : ascii -> bool) (s : string) : string * string :=
  match s with
  | "" => ("", "")
  | String c s' =>
      if p c then let '(a, b) := span p s' in (String c a, b) else ("", s)
  end.

Fixpoint lstrip (s : string) : string :=
  match s with
  | String c s' => if is_space c then lstrip s' else s
  | "" => ""
  end.

Definition rstrip (s : string) : string :=
  String.rev (lstrip (String.rev s)).

(** [s.strip()] *)
Definition strip (s : string) : string := rstrip (lstrip s).

(** [int(s)] for a non-empty string of ASCII digits. *)
Definition int_of_digits (s : string) : Z :=
  fold_left (fun acc c => 10 * acc + (Z.of_N (N_of_ascii c) - 48))
            (list_ascii_of_string s) 0.

(** [sep.join(parts)] *)
Fixpoint join (sep : string) (parts : list string) : string :=
  match parts with
  | [] => ""
  | [x] => x
  | x :: rest => (x ++ sep ++ join sep rest)%string
  end.

End Text.

(** ** [src/version.py]: versions *)

Record MigratorXpressVersion : Type := mkVersion {
  major : Z;
  minor : Z;
  patch : Z
}.

Module Version.

Definition _tuple (v : MigratorXpressVersion) : Z * Z * Z :=
  (major v, minor v, patch v).

(** Python's [<] on tuples of three integers: the first position where the
    two differ decides. *)
Definition tuple_lt (a b : Z * Z * Z) : bool :=
  let '(a1, a2, a3) := a in
  let '(b1, b2, b3) := b in
  if negb (a1 =? b1) then a1 <? b1
  else if negb (a2 =? b2) then a2 <? b2
  else a3 <? b3.

Definition tuple_eq (a b : Z * Z * Z) : bool :=
  let '(a1, a2, a3) := a in
  let '(b1, b2, b3) := b in
  (a1 =? b1) && (a2 =? b2) && (a3 =? b3).

(** [__eq__] and [__lt__] *)
Definition eq (a b : MigratorXpressVersion) : bool :=
  tuple_eq (_tuple a) (_tuple b).
Definition lt (a b : MigratorXpressVersion) : bool :=
  tuple_lt (_tuple a) (_tuple b).

(** [__le__], as [functools.total_ordering] derives it from [__lt__] and
    [__eq__]. *)
Definition le (a b : MigratorXpressVersion) : bool := lt a b || eq a b.

(** [__str__] *)
Definition to_string (v : MigratorXpressVersion) : string :=
  (pretty (major v) ++ "." ++ pretty (minor v) ++ "." ++ pretty (patch v))%string.

(** One attempt of [(\d+)\.(\d+)\.(\d+)] at the head of [s].  A [\d+] can
    only stop at the end of its run of digits, since what follows it in the
    pattern is not a digit. *)
Definition match_triple_at (s : string) : option (Z * Z * Z) :=
  let '(d1, r1) := Text.span Text.is_digit s in
  match d1, r1 with
  | String _ _, String "." r1' =>
      let '(d2, r2) := Text.span Text.is_digit r1' in
      match d2, r2 with
      | String _ _, String "." r2' =>
          let '(d3, _) := Text.span Text.is_digit r2' in
          match d3 with
          | String _ _ =>
              Some (Text.int_of_digits d1, Text.int_of_digits d2,
                    Text.int_of_digits d3)
          | "" => None
          end
      | _, _ => None
      end
  | _, _ => None
  end.

(** [re.search(r"(\d+)\.(\d+)\.(\d+)", s)]: the leftmost match. *)
Fixpoint search_triple (s : string) : option (Z * Z * Z) :=
  match match_triple_at s with
  | Some t => Some t
  | None => match s with
            | "" => None
            | String _ s' => search_triple s'
            end
  end.

(** [MigratorXpressVersion.parse]; [None] stands for the [ValueError]. *)
Definition parse (version_string : string) : option MigratorXpressVersion :=
  match search_triple (Text.strip version_string) with
  | None => None
  | Some (a, b, c) => Some (mkVersion a b c)
  end.

End Version.

(** ** [src/version.py]: the capabilities registry *)

Record VersionCapabilities : Type := mkCapabilities {
  source_databases : gset string;
  target_databases : gset string;
  migration_db_types : gset string;
  tasks : gset string;
  fk_modes : gset string;
  migration_db_modes : gset string;
  load_modes : gset string;
  supports_no_banner : bool;
  supports_version_flag : bool;
  supports_fasttransfer : bool;
  supports_license : bool
}.

(** [frozenset([...])] *)
Definition frozenset (l : list string) : gset string := list_to_set l.

(** The registry is a [dict]; its items are kept in insertion order. *)
Definition VERSION_REGISTRY : list (string * VersionCapabilities) :=
  [ ("0.6.24",
     {| source_databases :=
          frozenset ["oracle"; "postgresql"; "sqlserver"; "netezza"];
        target_databases := frozenset ["postgresql"; "sqlserver"];
        migration_db_types := frozenset ["sqlserver"];
        tasks :=
          frozenset ["translate"; "create"; "transfer"; "diff"; "copy_pk";
                     "copy_ak"; "copy_fk"; "all"];
        fk_modes := frozenset ["trusted"; "untrusted"; "disabled"];
        migration_db_modes := frozenset ["preserve"; "truncate"; "drop"];
        load_modes := frozenset ["truncate"; "append"];
        supports_no_banner := true;
        supports_version_flag := true;
        supports_fasttransfer := true;
        supports_license := true |}) ].

Definition RegistryEntry : Type := MigratorXpressVersion * VersionCapabilities.

(** [[(MigratorXpressVersion.parse(k), v) for k, v in registry.items()]];
    [None] when some key does not parse. *)
Fixpoint parse_items (items : list (string * VersionCapabilities))
  : option (list RegistryEntry) :=
  match items with
  | [] => Some []
  | (k, v) :: rest =>
      match Version.parse k with
      | None => None
      | Some ver =>
          match parse_items rest with
          | None => None
          | Some es => Some ((ver, v) :: es)
          end
      end
  end.

(** [sorted(entries, key=lambda x: x[0])].  Python's sort is stable and
    compares keys with [<] only; a stable insertion sort returns the same
    list. *)
Fixpoint insert_sorted (x : RegistryEntry) (l : list RegistryEntry)
  : list RegistryEntry :=
  match l with
  | [] => [x]
  | y :: l' => if Version.lt x.1 y.1 then x :: y :: l' else y :: insert_sorted x l'
  end.

Definition sorted_by_version (entries : list RegistryEntry) : list RegistryEntry :=
  fold_left (fun acc x => insert_sorted x acc) entries [].

Definition SORTED_VERSIONS_of (registry : list (string * VersionCapabilities))
  : option (list RegistryEntry) :=
  sorted_by_version <$> parse_items registry.

(** The module-level table, computed once from [VERSION_REGISTRY]. *)
Definition _SORTED_VERSIONS : list RegistryEntry :=
  default [] (SORTED_VERSIONS_of VERSION_REGISTRY).

(** ** The operating system, as the program sees it *)

(** The exceptions the program tells apart, each with its [str(e)]. *)
Inductive PyException : Type :=
  | TimeoutExpired (msg : string)      (* [subprocess.TimeoutExpired] *)
  | FileNotFoundError (msg : string)
  | OtherException (msg : string).     (* any other [Exception] *)

(** [str(e)] *)
Definition exception_message (e : PyException) : string :=
  match e with
  | TimeoutExpired msg => msg
  | FileNotFoundError msg => msg
  | OtherException msg => msg
  end.

(** What [subprocess.run(command, capture_output=True, text=True,
    timeout=..., check=False)] does. *)
Inductive RunOutcome : Type :=
  | Completed (returncode : Z) (stdout stderr : string)
  | Raised (e : PyException).

(** The environment answers each spawn request. *)
Definition OS : Type := list string -> Z -> RunOutcome.

(** One record written by [_save_execution_log].  The timestamp and the
    duration it also writes are readings of the clock and are left out. *)
Record ExecutionLog : Type := mkLog {
  log_directory : string;
  logged_command : string;
  logged_return_code : Z;
  logged_stdout : string;
  logged_stderr : string
}.

(** What the program has done to the outside: the processes it asked to
    spawn and the log files it wrote, oldest first. *)
Record World : Type := mkWorld {
  spawned : list (list string);
  log_files : list ExecutionLog
}.

Definition spawn (command : list string) (w : World) : World :=
  mkWorld (spawned w ++ [command]) (log_files w).

Definition write_log (r : ExecutionLog) (w : World) : World :=
  mkWorld (spawned w) (log_files w ++ [r]).

(** ** [src/version.py]: [VersionDetector] *)

Record VersionDetector : Type := mkDetector {
  _binary_path : string;
  _detected_version : option MigratorXpressVersion;
  _detection_done : bool
}.

(** [VersionDetector.__init__] *)
Definition new_detector (binary_path : string) : VersionDetector :=
  mkDetector binary_path None false.

Module Probe.

(** [s] starts with [p], compared case-insensitively. *)
Fixpoint strip_prefix_ci (p s : string) : option string :=
  match p, s with
  | "", _ => Some s
  | String a p', String b s' =>
      if Ascii.eqb (Text.lower a) (Text.lower b) then strip_prefix_ci p' s'
      else None
  | String _ _, "" => None
  end.

(** One attempt of [migratorxpress\s+(\d+)\.(\d+)\.(\d+)] at the head
    of [s], ignoring case. *)
Definition match_at (s : string) : option (Z * Z * Z) :=
  match strip_prefix_ci "migratorxpress" s with
  | None => None
  | Some r =>
      match Text.span Text.is_space r with
      | (String _ _, r') => Version.match_triple_at r'
      | ("", _) => None
      end
  end.

(** [re.search(..., output, re.IGNORECASE)] *)
Fixpoint search (s : string) : option (Z * Z * Z) :=
  match match_at s with
  | Some t => Some t
  | None => match s with
            | "" => None
            | String _ s' => search s'
            end
  end.

End Probe.

Section Resolver.

Variable run : OS.

(** [VersionDetector.detect]: returns the result, the detector after the
    call and the world after the call. *)
Definition detect (timeout : Z) (self : VersionDetector) (w : World)
  : option MigratorXpressVersion * VersionDetector * World :=
  if _detection_done self then (_detected_version self, self, w)
  else
    let command := [_binary_path self; "--version"; "--no_banner"] in
    let w' := spawn command w in
    let unchanged :=
      mkDetector (_binary_path self) (_detected_version self) true in
    match run command timeout with
    | Completed _ stdout stderr =>
        let output := Text.strip (stdout ++ stderr)%string in
        match Probe.search output with
        | Some (a, b, c) =>
            let v := mkVersion a b c in
            (Some v, mkDetector (_binary_path self) (Some v) true, w')
        | None => (_detected_version self, unchanged, w')
        end
    | Raised _ => (_detected_version self, unchanged, w')
    end.

(** The table [capabilities] reads; the program's is [_SORTED_VERSIONS]. *)
Variable sorted_versions : list RegistryEntry.

Definition empty_capabilities : VersionCapabilities :=
  mkCapabilities ∅ ∅ ∅ ∅ ∅ ∅ ∅ false false false false.

(** The loop of [capabilities]: [best] is overwritten while the entries are
    at most the detected version, and the first larger entry breaks out. *)
Fixpoint best_match (detected : MigratorXpressVersion)
         (entries : list RegistryEntry) (best : option VersionCapabilities)
  : option VersionCapabilities :=
  match entries with
  | [] => best
  | (ver, caps) :: rest =>
      if Version.le ver detected then best_match detected rest (Some caps)
      else best
  end.

(** The [capabilities] property. *)
Definition capabilities (self : VersionDetector) (w : World)
  : VersionCapabilities * VersionDetector * World :=
  let '(self, w) :=
    if negb (_detection_done self)
    then let '(_, s, w') := detect 10 self w in (s, w')
    else (self, w) in
  match sorted_versions with
  | [] => (empty_capabilities, self, w)
  | first :: _ =>
      let latest := (List.last sorted_versions first).2 in
      match _detected_version self with
      | None => (latest, self, w)
      | Some detected =>
          match best_match detected sorted_versions None with
          | Some best => (best, self, w)
          | None => (latest, self, w)
          end
      end
  end.

End Resolver.

(** ** [src/validators.py]: enumerations *)

Module TaskType.
Inductive t : Type :=
  TRANSLATE | CREATE | TRANSFER | DIFF | COPY_PK | COPY_AK | COPY_FK | ALL.
Definition value (x : t) : string :=
  match x with
  | TRANSLATE => "translate" | CREATE => "create" | TRANSFER => "transfer"
  | DIFF => "diff" | COPY_PK => "copy_pk" | COPY_AK => "copy_ak"
  | COPY_FK => "copy_fk" | ALL => "all"
  end.
(** The members, in definition order. *)
Definition members : list t :=
  [TRANSLATE; CREATE; TRANSFER; DIFF; COPY_PK; COPY_AK; COPY_FK; ALL].
End TaskType.

Module MigrationDbMode.
Inductive t : Type := PRESERVE | TRUNCATE | DROP.
Definition value (x : t) : string :=
  match x with
  | PRESERVE => "preserve" | TRUNCATE => "truncate" | DROP => "drop"
  end.
End MigrationDbMode.

Module LoadMode.
Inductive t : Type := TRUNCATE | APPEND.
Definition value (x : t) : string :=
  match x with TRUNCATE => "truncate" | APPEND => "append" end.
End LoadMode.

Module FkMode.
Inductive t : Type := TRUSTED | UNTRUSTED | DISABLED.
Definition value (x : t) : string :=
  match x with
  | TRUSTED => "trusted" | UNTRUSTED => "untrusted" | DISABLED => "disabled"
  end.
End FkMode.

Module LogLevel.
Inductive t : Type := DEBUG | INFO | WARNING | ERROR | CRITICAL.
Definition value (x : t) : string :=
  match x with
  | DEBUG => "DEBUG" | INFO => "INFO" | WARNING => "WARNING"
  | ERROR => "ERROR" | CRITICAL => "CRITICAL"
  end.
End LogLevel.

(** ** [src/validators.py]: [MigrationParams] *)

(** The fields, with the types the model declares.  [Optional[T]] is
    [option T]; a field whose default is [False] is a [bool]. *)
Record MigrationParams : Type := mkParams {
  auth_file : string;
  source_db_auth_id : string;
  source_db_name : string;
  target_db_auth_id : string;
  target_db_name : string;
  migration_db_auth_id : string;
  source_schema_name : option string;
  target_schema_name : option string;
  task_list : option (list string);
  resume : option string;
  fasttransfer_dir_path : option string;
  fasttransfer_p : option Z;
  ft_large_table_th : option Z;
  n_jobs : option Z;
  cci_threshold : option Z;
  aci_threshold : option Z;
  migration_db_mode : option MigrationDbMode.t;
  compute_nbrows : option string;
  drop_tables_if_exists : option string;
  load_mode : option LoadMode.t;
  include_tables : option string;
  exclude_tables : option string;
  min_rows : option Z;
  max_rows : option Z;
  forced_int_id_prefixes : option (list string);
  forced_int_id_suffixes : option (list string);
  profiling_sample_pc : option float;
  p_query : option float;
  min_sample_pc_profile : option float;
  force : bool;
  basic_diff : bool;
  without_xid : bool;
  fk_mode : option FkMode.t;
  log_level : option LogLevel.t;
  log_dir : option string;
  no_banner : bool;
  no_progress : bool;
  quiet_ft : bool;
  license : option string;
  license_file : option string
}.

(** A validator returns the model, or raises [ValueError(msg)]. *)
Inductive Validated (A : Type) : Type :=
  | Valid (a : A)
  | ValueError (msg : string).
Arguments Valid {A} a.
Arguments ValueError {A} msg.

Definition passes {A : Type} (r : Validated A) : bool :=
  match r with Valid _ => true | ValueError _ => false end.

Module Validators.

(** [{t.value for t in TaskType}] *)
Definition valid_tasks : gset string :=
  list_to_set (TaskType.value <$> TaskType.members).

(** [repr(sorted(valid_tasks))] *)
Definition sorted_valid_tasks_repr : string :=
  "['all', 'copy_ak', 'copy_fk', 'copy_pk', 'create', 'diff', 'transfer', 'translate']".

(** [x in xs] for a list of strings. *)
Definition contains (x : string) (xs : list string) : bool :=
  existsb (String.eqb x) xs.

(** The [for task in self.task_list] loop: the first task that is not a
    valid one raises. *)
Fixpoint first_invalid_task (ts : list string) : option string :=
  match ts with
  | [] => None
  | task :: rest =>
      if bool_decide (task ∈ valid_tasks) then first_invalid_task rest
      else Some task
  end.

Definition validate_task_list_values (self : MigrationParams)
  : Validated MigrationParams :=
  match task_list self with
  | None => Valid self
  | Some ts =>
      match first_invalid_task ts with
      | Some task =>
          ValueError ("Invalid task '" ++ task ++ "'. Valid tasks: "
                      ++ sorted_valid_tasks_repr)%string
      | None =>
          if contains "all" ts && (1 <? Z.of_nat (length ts))
          then ValueError "Task 'all' cannot be combined with other tasks."
          else Valid self
      end
  end.

(** One round of the loop over the two string-boolean field names. *)
Definition check_string_boolean (field_name : string) (value : option string)
  : option string :=
  match value with
  | None => None
  | Some v =>
      if negb (contains v ["true"; "false"])
      then Some ("'" ++ field_name ++ "' must be 'true' or 'false', got '"
                 ++ v ++ "'")%string
      else None
  end.

Definition validate_string_booleans (self : MigrationParams)
  : Validated MigrationParams :=
  match check_string_boolean "compute_nbrows" (compute_nbrows self) with
  | Some msg => ValueError msg
  | None =>
      match check_string_boolean "drop_tables_if_exists"
              (drop_tables_if_exists self) with
      | Some msg => ValueError msg
      | None => Valid self
      end
  end.

Definition validate_license_mutual_exclusivity (self : MigrationParams)
  : Validated MigrationParams :=
  match license self, license_file self with
  | Some _, Some _ =>
      ValueError ("license and license_file are mutually exclusive. "
                  ++ "Provide one or the other, not both.")%string
  | _, _ => Valid self
  end.

(** The three [model_validator(mode="after")] functions run in the order
    of their definition; the first error ends the validation. *)
Definition validate (fields : MigrationParams) : Validated MigrationParams :=
  match validate_task_list_values fields with
  | ValueError msg => ValueError msg
  | Valid p1 =>
      match validate_string_booleans p1 with
      | ValueError msg => ValueError msg
      | Valid p2 => validate_license_mutual_exclusivity p2
      end
  end.

End Validators.

(** The six required fields, every optional field at its default. *)
Definition minimal_params (auth src_id src_name tgt_id tgt_name mig_id : string)
  : MigrationParams :=
  {| auth_file := auth; source_db_auth_id := src_id; source_db_name := src_name;
     target_db_auth_id := tgt_id; target_db_name := tgt_name;
     migration_db_auth_id := mig_id;
     source_schema_name := None; target_schema_name := None;
     task_list := None; resume := None; fasttransfer_dir_path := None;
     fasttransfer_p := None; ft_large_table_th := None; n_jobs := None;
     cci_threshold := None; aci_threshold := None; migration_db_mode := None;
     compute_nbrows := None; drop_tables_if_exists := None; load_mode := None;
     include_tables := None; exclude_tables := None; min_rows := None;
     max_rows := None; forced_int_id_prefixes := None;
     forced_int_id_suffixes := None; profiling_sample_pc := None;
     p_query := None; min_sample_pc_profile := None; force := false;
     basic_diff := false; without_xid := false; fk_mode := None;
     log_level := None; log_dir := None; no_banner := false;
     no_progress := false; quiet_ft := false; license := None;
     license_file := None |}.

(** ** Python numbers as text *)

(** [str(x)] for a [float] (CPython's [float_repr]): the shortest decimal
    digit string that reads back as [x], the nearest one when several have
    that length, laid out in positional notation when the decimal point falls
    within [-4 < decpt <= 16] and in exponent notation otherwise. *)
Module PyFloat.

Definition zeros (n : Z) : string :=
  string_of_list_ascii (repeat "0"%char (Z.to_nat n)).

Fixpoint drop_zeros (s : string) : string :=
  match s with
  | String "0" s' => drop_zeros s'
  | _ => s
  end.

(** Removes the trailing zeros of a digit string. *)
Definition strip_trailing_zeros (s : string) : string :=
  String.rev (drop_zeros (String.rev s)).

Section Shortest.

(** The value is [m * 2^e]. *)
Variables (m : positive) (e : Z).

(** Everything is counted in quarters of the unit in the last place. *)
Definition P : Z := 4 * Z.pos m.
Definition E : Z := e - 2.
(** Half the gap to the float above, and to the float below. *)
Definition mhi : Z := 2.
Definition mlo : Z :=
  if (Z.pos m =? 2 ^ 52) && (-1074 <? e) then 1 else 2.
Definition mantissa_even : bool := Z.even (Z.pos m).

(** [c * 10^k] compares with [x * 2^E] as [c * A k] with [x * B k]. *)
Definition A (k : Z) : Z := 10 ^ Z.max k 0 * 2 ^ Z.max (- E) 0.
Definition B (k : Z) : Z := 2 ^ Z.max E 0 * 10 ^ Z.max (- k) 0.

(** The digit loop of [dtoa] in its shortest-string mode, on integers:
    at the decimal position [k] the digits produced so far are those of
    [c = floor (value / 10^k)]; the loop stops as soon as [c * 10^k] or
    [(c + 1) * 10^k] reads back as the value, and picks the nearer of
    the two when both do. *)
Fixpoint digits_from (fuel : nat) (k : Z) : Z * Z :=
  match fuel with
  | O => (0, 0)
  | S fuel' =>
      let c := (P * B k) / A k in
      if c =? 0 then digits_from fuel' (k - 1)
      else
        let b := P * B k - c * A k in
        let j := b ?= mlo * B k in
        let j1 := b + mhi * B k ?= A k in
        let low_reads_back :=
          match j with
          | Lt => true | Eq => mantissa_even | Gt => false
          end in
        match j1, mantissa_even with
        | Eq, true =>
            if (c mod 10 =? 9) || match j with Gt => true | _ => false end
            then (c + 1, k) else (c, k)
        | _, _ =>
            if low_reads_back then
              if b =? 0 then (c, k)
              else
                match j1 with
                | Gt =>
                    match 2 * b ?= A k with
                    | Gt => (c + 1, k)
                    | Eq => if Z.odd c then (c + 1, k) else (c, k)
                    | Lt => (c, k)
                    end
                | _ => (c, k)
                end
            else
              match j1 with
              | Gt => (c + 1, k)
              | _ => digits_from fuel' (k - 1)
              end
        end
  end.

(** The digit string and the position of the decimal point:
    the value reads [0.d1d2...dn * 10^decpt].  The loop starts above the
    largest double and stops at the latest at [k = -1074], where every
    double is a whole number of units, so 1400 rounds are enough. *)
Definition shortest : string * Z :=
  let '(c, k) := digits_from 1400 309 in
  let all := pretty c in
  (strip_trailing_zeros all, Z.of_nat (String.length all) + k).

End Shortest.

Definition exponent_text (x : Z) : string :=
  let a := pretty (Z.abs x) in
  let sign := if x <? 0 then "-" else "+" in
  let pad := if Z.abs x <? 10 then "0" else "" in
  (sign ++ pad ++ a)%string.

Definition layout (digits : string) (decpt : Z) : string :=
  let n := Z.of_nat (String.length digits) in
  if (decpt <=? -4) || (16 <? decpt) then
    match digits with
    | String d "" => (String d "" ++ "e" ++ exponent_text (decpt - 1))%string
    | String d rest =>
        (String d "" ++ "." ++ rest ++ "e" ++ exponent_text (decpt - 1))%string
    | "" => ""
    end
  else if decpt <=? 0 then ("0." ++ zeros (- decpt) ++ digits)%string
  else if decpt <? n then
    (String.substring 0 (Z.to_nat decpt) digits ++ "."
       ++ String.substring (Z.to_nat decpt) (Z.to_nat (n - decpt)) digits)%string
  else (digits ++ zeros (decpt - n) ++ ".0")%string.

Definition str (x : float) : string :=
  match Prim2SF x with
  | S754_nan => "nan"
  | S754_infinity false => "inf"
  | S754_infinity true => "-inf"
  | S754_zero false => "0.0"
  | S754_zero true => "-0.0"
  | S754_finite neg m e =>
      let '(digits, decpt) := shortest m e in
      let sign := if neg then "-" else "" in
      (sign ++ layout digits decpt)%string
  end.

End PyFloat.

(** ** [src/migratorxpress.py]: [CommandBuilder] *)

Record MigratorXpressError : Type := mkError {
  message : string;
  cause : option PyException
}.

Record CommandBuilder : Type := mkBuilder {
  binary_path : string;          (* [str(self.binary_path)] *)
  _version_detector : VersionDetector
}.

(** Python's truth value of a string and of a list. *)
Definition str_truthy (s : string) : bool := negb (String.eqb s "").
Definition list_truthy {A : Type} (l : list A) : bool :=
  match l with [] => false | _ :: _ => true end.

Module Cmd.

(** [if value: cmd.extend([flag, value])], for an optional string. *)
Definition extend_if_str (cmd : list string) (flag : string)
           (value : option string) : list string :=
  match value with
  | Some v => if str_truthy v then cmd ++ [flag; v] else cmd
  | None => cmd
  end.

(** [if value is not None: cmd.extend([flag, value])] *)
Definition extend_if_set (cmd : list string) (flag : string)
           (value : option string) : list string :=
  match value with
  | Some v => cmd ++ [flag; v]
  | None => cmd
  end.

(** [if value is not None: cmd.extend([flag, str(value)])], for an [int]. *)
Definition extend_if_int (cmd : list string) (flag : string)
           (value : option Z) : list string :=
  extend_if_set cmd flag (pretty <$> value).

(** The same for a [float]. *)
Definition extend_if_float (cmd : list string) (flag : string)
           (value : option float) : list string :=
  extend_if_set cmd flag (PyFloat.str <$> value).

(** [if value: cmd.extend([flag, value.value])], for a member of an
    enumeration that is also a [str]: its truth value is that of its
    string. *)
Definition extend_if_enum {E : Type} (value_of : E -> string)
           (cmd : list string) (flag : string) (value : option E)
  : list string :=
  extend_if_str cmd flag (value_of <$> value).

(** [if values: cmd.append(flag); cmd.extend(values)] *)
Definition extend_if_list (cmd : list string) (flag : string)
           (values : option (list string)) : list string :=
  match values with
  | Some vs => if list_truthy vs then (cmd ++ [flag]) ++ vs else cmd
  | None => cmd
  end.

(** [if value: cmd.append(flag)] *)
Definition append_if (cmd : list string) (flag : string) (value : bool)
  : list string :=
  if value then cmd ++ [flag] else cmd.

End Cmd.

(** [CommandBuilder.build_command] *)
Definition build_command (self : CommandBuilder) (params : MigrationParams)
  : list string :=
  let cmd := [binary_path self] in
  (* Auth file (required) *)
  let cmd := cmd ++ ["-a"; auth_file params] in
  (* Required database identifiers *)
  let cmd := cmd ++ ["--source_db_auth_id"; source_db_auth_id params] in
  let cmd := cmd ++ ["--source_db_name"; source_db_name params] in
  let cmd := cmd ++ ["--target_db_auth_id"; target_db_auth_id params] in
  let cmd := cmd ++ ["--target_db_name"; target_db_name params] in
  let cmd := cmd ++ ["--migration_db_auth_id"; migration_db_auth_id params] in
  (* Schema names *)
  let cmd := Cmd.extend_if_str cmd "--source_schema_name" (source_schema_name params) in
  let cmd := Cmd.extend_if_str cmd "--target_schema_name" (target_schema_name params) in
  (* Task list (nargs='+') *)
  let cmd := Cmd.extend_if_list cmd "--task_list" (task_list params) in
  (* Resume *)
  let cmd := Cmd.extend_if_str cmd "-r" (resume params) in
  (* FastTransfer *)
  let cmd := Cmd.extend_if_str cmd "--fasttransfer_dir_path" (fasttransfer_dir_path params) in
  let cmd := Cmd.extend_if_int cmd "-p" (fasttransfer_p params) in
  let cmd := Cmd.extend_if_int cmd "--ft_large_table_th" (ft_large_table_th params) in
  (* Parallelism *)
  let cmd := Cmd.extend_if_int cmd "--n_jobs" (n_jobs params) in
  (* Index thresholds *)
  let cmd := Cmd.extend_if_int cmd "--cci_threshold" (cci_threshold params) in
  let cmd := Cmd.extend_if_int cmd "--aci_threshold" (aci_threshold params) in
  (* Migration DB mode *)
  let cmd := Cmd.extend_if_enum MigrationDbMode.value cmd "--migration_db_mode" (migration_db_mode params) in
  (* String-boolean parameters *)
  let cmd := Cmd.extend_if_set cmd "--compute_nbrows" (compute_nbrows params) in
  let cmd := Cmd.extend_if_set cmd "--drop_tables_if_exists" (drop_tables_if_exists params) in
  (* Load mode *)
  let cmd := Cmd.extend_if_enum LoadMode.value cmd "--load_mode" (load_mode params) in
  (* Filtering *)
  let cmd := Cmd.extend_if_str cmd "-i" (include_tables params) in
  let cmd := Cmd.extend_if_str cmd "-e" (exclude_tables params) in
  let cmd := Cmd.extend_if_int cmd "-min" (min_rows params) in
  let cmd := Cmd.extend_if_int cmd "-max" (max_rows params) in
  (* Oracle-specific lists (nargs='+') *)
  let cmd := Cmd.extend_if_list cmd "--forced_int_id_prefixes" (forced_int_id_prefixes params) in
  let cmd := Cmd.extend_if_list cmd "--forced_int_id_suffixes" (forced_int_id_suffixes params) in
  (* Profiling *)
  let cmd := Cmd.extend_if_float cmd "--profiling_sample_pc" (profiling_sample_pc params) in
  let cmd := Cmd.extend_if_float cmd "--p_query" (p_query params) in
  let cmd := Cmd.extend_if_float cmd "--min_sample_pc_profile" (min_sample_pc_profile params) in
  (* Boolean flags *)
  let cmd := Cmd.append_if cmd "-f" (force params) in
  let cmd := Cmd.append_if cmd "--basic_diff" (basic_diff params) in
  let cmd := Cmd.append_if cmd "--without_xid" (without_xid params) in
  (* FK mode *)
  let cmd := Cmd.extend_if_enum FkMode.value cmd "--fk_mode" (fk_mode params) in
  (* Logging *)
  let cmd := Cmd.extend_if_enum LogLevel.value cmd "--log_level" (log_level params) in
  let cmd := Cmd.extend_if_str cmd "--log_dir" (log_dir params) in
  (* Display flags *)
  let cmd := Cmd.append_if cmd "--no_banner" (no_banner params) in
  let cmd := Cmd.append_if cmd "--no_progress" (no_progress params) in
  let cmd := Cmd.append_if cmd "--quiet_ft" (quiet_ft params) in
  (* License *)
  let cmd := Cmd.extend_if_str cmd "--license" (license params) in
  let cmd := Cmd.extend_if_str cmd "--license_file" (license_file params) in
  cmd.

(** *** [mask_sensitive], on a store of list objects

    A Python list is an object: [mask_sensitive] receives a reference,
    copies the list it refers to into a new object and overwrites elements
    of the copy while it iterates over that same copy. *)

Definition loc : Type := positive.

Definition MASK : string := "******".

(** [list(command)]: a new list object holding the same tokens. *)
Definition copy_list (h : gmap loc (list string)) (tokens : list string)
  : loc * gmap loc (list string) :=
  let l := fresh (dom h) in (l, <[l := tokens]> h).

(** The loop [for i, token in enumerate(masked)].  The list iterator reads
    element [i] of the object at each round, so it sees the writes of the
    earlier rounds.  [None]: out of fuel, or [masked] is not a list. *)
Fixpoint mask_loop (fuel : nat) (i : nat) (masked : loc)
         (h : gmap loc (list string)) : option (gmap loc (list string)) :=
  match fuel with
  | O => None
  | S fuel' =>
      match h !! masked with
      | None => None
      | Some tokens =>
          match tokens !! i with
          | None => Some h                       (* the iterator is exhausted *)
          | Some token =>
              let h' :=
                if String.eqb token "--license"
                   && (i + 1 <? length tokens)%nat
                then <[masked := <[(i + 1)%nat := MASK]> tokens]> h
                else h in
              mask_loop fuel' (S i) masked h'
          end
      end
  end.

(** [CommandBuilder.mask_sensitive]: the reference returned and the store
    after the call; [None] when [command] does not refer to a list. *)
Definition mask_sensitive (command : loc) (h : gmap loc (list string))
  : option (loc * gmap loc (list string)) :=
  match h !! command with
  | None => None
  | Some tokens =>
      let '(masked, h1) := copy_list h tokens in
      match mask_loop (S (length tokens)) 0 masked h1 with
      | None => None
      | Some h2 => Some (masked, h2)
      end
  end.

(** The tokens of the list [mask_sensitive] returns, as a function of the
    tokens of its argument. *)
Fixpoint mask_tokens (tokens : list string) : list string :=
  match tokens with
  | [] => []
  | token :: rest =>
      if String.eqb token "--license" then
        match rest with
        | [] => [token]
        | _ :: rest' => token :: MASK :: mask_tokens rest'
        end
      else token :: mask_tokens rest
  end.

(** A line feed, a double quote and a backslash. *)
Definition nl : string := String (ascii_of_nat 10) "".
Definition dq : string := String (ascii_of_nat 34) "".
Definition backslash : string := String (ascii_of_nat 92) "".

(** [s.startswith(p)] and [c in s] *)
Definition startswith (p s : string) : bool := String.prefix p s.
Fixpoint has_char (c : ascii) (s : string) : bool :=
  match s with
  | "" => false
  | String c' s' => Ascii.eqb c c' || has_char c s'
  end.

(** The [while] loop of [format_command_display], from index [i] on:
    [tokens] is [display_cmd[i:]]. *)
Fixpoint format_parts (tokens : list string) : list string :=
  match tokens with
  | [] => []
  | [last] => [last]
  | param :: ((next_item :: after) as rest) =>
      if startswith "-" param then
        if negb (startswith "-" next_item) then
          (if has_char " " next_item
           then (param ++ " " ++ dq ++ next_item ++ dq)%string
           else (param ++ " " ++ next_item)%string) :: format_parts after
        else param :: format_parts rest
      else param :: format_parts rest
  end.

(** [CommandBuilder.format_command_display]; [None] is the [IndexError] of
    [display_cmd[0]] on an empty command. *)
Definition format_command_display (command : list string) (mask : bool)
  : option string :=
  let display_cmd := if mask then mask_tokens command else command in
  match display_cmd with
  | [] => None
  | first :: rest =>
      Some (Text.join (" " ++ backslash ++ nl ++ "  ")%string
                      (first :: format_parts rest))
  end.

(** What the file system says about a path. *)
Record FileStatus : Type := mkStatus {
  path_exists : bool;
  path_is_file : bool;
  path_is_executable : bool
}.

Section Builder.

Variable run : OS.
(** [str(Path(p))] *)
Variable Path_str : string -> string.
Variable stat : string -> FileStatus.
(** Whether creating the directory and writing a file in it succeed. *)
Variable log_writable : string -> bool.

(** [CommandBuilder._validate_binary]; [Some] is the error raised. *)
Definition _validate_binary (path : string) : option MigratorXpressError :=
  if negb (path_exists (stat path)) then
    Some (mkError ("MigratorXpress binary not found at: " ++ path)%string None)
  else if negb (path_is_file (stat path)) then
    Some (mkError ("MigratorXpress path is not a file: " ++ path)%string None)
  else if negb (path_is_executable (stat path)) then
    Some (mkError ("MigratorXpress binary is not executable: " ++ path)%string None)
  else None.

(** [CommandBuilder.__init__] *)
Definition CommandBuilder_init (binary_path : string) (w : World)
  : (MigratorXpressError + CommandBuilder) * World :=
  let path := Path_str binary_path in
  match _validate_binary path with
  | Some err => (inl err, w)
  | None =>
      let '(_, detector, w') := detect run 10 (new_detector path) w in
      (inr (mkBuilder path detector), w')
  end.

(** [CommandBuilder._save_execution_log]: every exception is caught inside,
    so the call returns in all cases. *)
Definition _save_execution_log (log_dir : string) (command : list string)
           (return_code : Z) (stdout stderr : string) (w : World) : World :=
  if log_writable log_dir then
    write_log (mkLog log_dir (Text.join " " (mask_tokens command))
                     return_code stdout stderr) w
  else w.

(** [CommandBuilder.execute_command]: the error raised or the triple
    returned, and the world after the call. *)
Definition execute_command (command : list string) (timeout : Z)
           (log_dir : option string) (w : World)
  : (MigratorXpressError + (Z * string * string)) * World :=
  let w := spawn command w in
  match run command timeout with
  | Completed returncode stdout stderr =>
      let w :=
        match log_dir with
        | Some d => _save_execution_log d command returncode stdout stderr w
        | None => w
        end in
      (inr (returncode, stdout, stderr), w)
  | Raised (TimeoutExpired msg) =>
      (inl (mkError ("Execution timed out after " ++ pretty timeout
                     ++ " seconds")%string
                    (Some (TimeoutExpired msg))), w)
  | Raised e =>
      (inl (mkError ("Execution failed: " ++ exception_message e)%string
                    (Some e)), w)
  end.

End Builder.

(** ** [src/server.py] *)

(** The values a tool call can carry: what [json] decodes. *)
#[local] Unset Elimination Schemes.
Inductive JValue : Type :=
  | JNull
  | JBool (b : bool)
  | JInt (n : Z)
  | JFloat (x : float)
  | JStr (s : string)
  | JList (items : list JValue)
  | JDict (items : list (string * JValue)).
#[local] Set Elimination Schemes.

(** Python's truth value. *)
Definition truthy (v : JValue) : bool :=
  match v with
  | JNull => false
  | JBool b => b
  | JInt n => negb (n =? 0)
  | JFloat x => negb (PrimFloat.eqb x 0%float)
  | JStr s => str_truthy s
  | JList items => list_truthy items
  | JDict items => list_truthy items
  end.

(** [type(v).__name__] *)
Definition type_name (v : JValue) : string :=
  match v with
  | JNull => "NoneType" | JBool _ => "bool" | JInt _ => "int"
  | JFloat _ => "float" | JStr _ => "str" | JList _ => "list"
  | JDict _ => "dict"
  end.

(** What a handler does: it returns its text, or an exception leaves it
    (and is turned into an error text by [call_tool]). *)
Inductive Outcome : Type :=
  | Returns (text : string)
  | Raises (e : PyException).

(** The errors of a [pydantic.ValidationError]: a location and a message
    each. *)
Definition ValidationErrors : Type := list (list string * string).

(** [_build_command_explanation] *)
Module Explain.

Definition add_if_str (parts : list string) (label : string)
           (value : option string) : list string :=
  match value with
  | Some v => if str_truthy v then parts ++ [(label ++ v)%string] else parts
  | None => parts
  end.

Definition add_if_int (parts : list string) (label : string)
           (value : option Z) : list string :=
  match value with
  | Some n => parts ++ [(label ++ pretty n)%string]
  | None => parts
  end.

(** [f"{i+1}. {part}" for i, part in enumerate(parts)], from index [i]. *)
Fixpoint numbered (i : Z) (parts : list string) : list string :=
  match parts with
  | [] => []
  | part :: rest =>
      (pretty (i + 1) ++ ". " ++ part)%string :: numbered (i + 1) rest
  end.

End Explain.

Definition _build_command_explanation (params : MigrationParams) : string :=
  let parts := [] in
  let parts :=
    parts ++ [("Migrate from source database '" ++ source_db_name params
               ++ "' to target database '" ++ target_db_name params
               ++ "'")%string] in
  (* Source/target schemas *)
  let parts := Explain.add_if_str parts "Source schema: " (source_schema_name params) in
  let parts := Explain.add_if_str parts "Target schema: " (target_schema_name params) in
  (* Tasks *)
  let parts :=
    match task_list params with
    | Some (t :: ts) => parts ++ [("Tasks: " ++ Text.join ", " (t :: ts))%string]
    | _ => parts ++ ["No specific tasks selected (defaults will apply)"]
    end in
  (* FastTransfer *)
  let parts :=
    match fasttransfer_dir_path params with
    | Some d =>
        if str_truthy d then
          let ft_info := ("FastTransfer enabled (path: " ++ d ++ ")")%string in
          let ft_info :=
            match fasttransfer_p params with
            | Some n => (ft_info ++ ", parallelism: " ++ pretty n)%string
            | None => ft_info
            end in
          parts ++ [ft_info]
        else parts
    | None => parts
    end in
  (* Table filters *)
  let filters := [] in
  let filters := Explain.add_if_str filters "include: " (include_tables params) in
  let filters := Explain.add_if_str filters "exclude: " (exclude_tables params) in
  let filters := Explain.add_if_int filters "min rows: " (min_rows params) in
  let filters := Explain.add_if_int filters "max rows: " (max_rows params) in
  let parts :=
    if list_truthy filters
    then parts ++ [("Table filters: " ++ Text.join ", " filters)%string]
    else parts in
  (* Resume *)
  let parts := Explain.add_if_str parts "Resuming previous run: " (resume params) in
  (* Force *)
  let parts :=
    if force params
    then parts ++ ["WARNING: Force flag is set — existing data may be overwritten"]
    else parts in
  (* License *)
  let parts :=
    match license params with
    | Some k => if str_truthy k
                then parts ++ ["License key provided (masked in display)"]
                else parts
    | None => parts
    end in
  Text.join nl (Explain.numbered 0 parts).

Section Server.

Variable run : OS.
Variable log_writable : string -> bool.

(** The configuration read from the environment at start-up. *)
Variable MIGRATORXPRESS_PATH : string.
Variable MIGRATORXPRESS_TIMEOUT : Z.
Variable MIGRATORXPRESS_LOG_DIR : string.

(** [shlex.split]; [inl msg] is its [ValueError]. *)
Variable shlex_split : string -> string + list string.

(** The field validation [pydantic] performs on the raw arguments before
    the model validators run: the errors, or the typed fields. *)
Variable parse_fields : gmap string JValue -> ValidationErrors + MigrationParams.

(** [check_version_compatibility(arguments, capabilities, detected)],
    imported from [src.version]; see [check_version_compatibility] below
    for a rendering of its contract. *)
Variable check : gmap string JValue -> VersionCapabilities ->
                 option MigratorXpressVersion -> list string.

(** The construction of a [MigrationParams] from the raw arguments. *)
Definition MigrationParams_new (arguments : gmap string JValue)
  : ValidationErrors + MigrationParams :=
  match parse_fields arguments with
  | inl errors => inl errors
  | inr fields =>
      match Validators.validate fields with
      | ValueError msg => inl [([], ("Value error, " ++ msg)%string)]
      | Valid params => inr params
      end
  end.

Definition binary_missing_text : string :=
  ("Error: MigratorXpress binary not found or not accessible." ++ nl
   ++ "Expected location: " ++ MIGRATORXPRESS_PATH ++ nl
   ++ "Please set MIGRATORXPRESS_PATH environment variable correctly.")%string.

(** The lines of the validation report. *)
Definition validation_report (errors : ValidationErrors) : list string :=
  ["# Validation Error"; ""; "The provided parameters are invalid:"; ""]
    ++ map (fun error : list string * string =>
              ("- **" ++ Text.join " -> " error.1 ++ "**: " ++ error.2)%string)
           errors.

(** The lines of the preview. *)
Definition preview_response (explanation : string)
           (version_warnings : list string) (display_command : string)
           (command : list string) : list string :=
  let response :=
    ["# MigratorXpress Command Preview"; "";
     "## What this command will do:"; explanation] in
  let response :=
    if list_truthy version_warnings then
      (response ++ [""] ++ ["## ⚠ Version Compatibility Warnings"])
        ++ map (fun warning => ("- " ++ warning)%string) version_warnings
    else response in
  response ++
    [""; "## Command:"; "```bash"; display_command; "```"; "";
     "## To execute this command:";
     "1. Review the command carefully";
     "2. Use the `execute_command` tool with the FULL command";
     "3. Set `confirmation: true` to proceed"; "";
     "## Full command for execution:"; "```";
     Text.join " " command; "```"].

(** [handle_preview_command]: the outcome, the builder and the world after
    the call. *)
Definition handle_preview_command (command_builder : option CommandBuilder)
           (arguments : gmap string JValue) (w : World)
  : Outcome * option CommandBuilder * World :=
  match command_builder with
  | None => (Returns binary_missing_text, command_builder, w)
  | Some builder =>
      (* Validate and parse parameters *)
      match MigrationParams_new arguments with
      | inl errors =>
          (Returns (Text.join nl (validation_report errors)),
           command_builder, w)
      | inr params =>
          (* Check version compatibility *)
          let '(caps, detector, w) :=
            capabilities run _SORTED_VERSIONS (_version_detector builder) w in
          let builder := mkBuilder (binary_path builder) detector in
          let version_warnings :=
            check arguments caps (_detected_version detector) in
          (* Build command *)
          let command := build_command builder params in
          (* Format for display (with license masking) *)
          match format_command_display command true with
          | None =>
              (Raises (OtherException "list index out of range"),
               Some builder, w)
          | Some display_command =>
              (* Create explanation *)
              let explanation := _build_command_explanation params in
              (Returns (Text.join nl
                          (preview_response explanation version_warnings
                                            display_command command)),
               Some builder, w)
          end
      end
  end.

Definition execution_blocked_text : string :=
  ("# Execution Blocked" ++ nl ++ nl
   ++ "You must set `confirmation: true` to execute a command." ++ nl
   ++ "This safety mechanism ensures commands are only executed with explicit approval."
   ++ nl ++ nl
   ++ "Please review the command carefully and confirm by setting:" ++ nl
   ++ "```json" ++ nl
   ++ "{" ++ dq ++ "confirmation" ++ dq ++ ": true}" ++ nl
   ++ "```")%string.

(** The lines of the execution report. *)
Definition execution_response (return_code : Z) (stdout stderr : string)
  : list string :=
  let success := return_code =? 0 in
  let response :=
    [("# MigratorXpress " ++ (if success then "Completed" else "Failed"))%string;
     "";
     ("**Status**: " ++ (if success then "Success" else "Failed"))%string;
     ("**Return Code**: " ++ pretty return_code)%string;
     ("**Log Location**: " ++ MIGRATORXPRESS_LOG_DIR)%string;
     "";
     "## Output:";
     "```";
     (if str_truthy stdout then stdout else "(no output)");
     "```"] in
  let response :=
    if str_truthy stderr
    then response ++ [""; "## Error Output:"; "```"; stderr; "```"]
    else response in
  let response :=
    if negb success then
      response ++
        [""; "## Troubleshooting:";
         "- Check the auth file path and credential IDs";
         "- Verify source and target database connectivity";
         "- Check migration database connectivity";
         "- Verify database names and schema names are correct";
         "- Review the full log file for more information"]
    else response in
  response.

(** [arguments.get(key, default)] *)
Definition get (arguments : gmap string JValue) (key : string)
           (default : JValue) : JValue :=
  match arguments !! key with
  | Some v => v
  | None => default
  end.

(** [handle_execute_command]: the outcome and the world after the call. *)
Definition handle_execute_command (command_builder : option CommandBuilder)
           (arguments : gmap string JValue) (w : World) : Outcome * World :=
  match command_builder with
  | None =>
      (Returns "Error: MigratorXpress binary not found. Please check MIGRATORXPRESS_PATH.", w)
  | Some builder =>
      (* Check confirmation *)
      if negb (truthy (get arguments "confirmation" (JBool false))) then
        (Returns execution_blocked_text, w)
      else
        (* Get command *)
        let command_str := get arguments "command" (JStr "") in
        if negb (truthy command_str) then
          (Returns "Error: No command provided. Please provide the command from preview_command.", w)
        else
          (* Parse command string into list *)
          match command_str with
          | JStr text =>
              match shlex_split text with
              | inl msg => (Returns ("Error parsing command: " ++ msg)%string, w)
              | inr command =>
                  (* Execute *)
                  match execute_command run log_writable command
                          MIGRATORXPRESS_TIMEOUT
                          (Some MIGRATORXPRESS_LOG_DIR) w with
                  | (inr (return_code, stdout, stderr), w') =>
                      (Returns (Text.join nl
                                  (execution_response return_code stdout stderr)),
                       w')
                  | (inl err, w') =>
                      (Returns ("# Execution Failed" ++ nl ++ nl ++ "Error: "
                                ++ message err)%string, w')
                  end
              end
          | other =>
              (* [shlex.split] reads from its argument as from a stream *)
              (Raises (OtherException
                         ("'" ++ type_name other
                          ++ "' object has no attribute 'read'")%string), w)
          end
  end.

End Server.

(** Helpers of the compatibility check below. *)
Module Compat.

(** The strings of a raw list value. *)
Definition strings_of (v : JValue) : list string :=
  match v with
  | JList items =>
      omap (fun item => match item with JStr s => Some s | _ => None end) items
  | _ => []
  end.

Definition version_text (detected : option MigratorXpressVersion) : string :=
  match detected with
  | Some v => Version.to_string v
  | None => "unknown"
  end.

(** One warning when the requested string value is outside the set. *)
Definition outside (what : string) (known : gset string)
           (detected : option MigratorXpressVersion) (value : option JValue)
  : list string :=
  match value with
  | Some (JStr s) =>
      if bool_decide (s ∈ known) then []
      else [(what ++ " '" ++ s ++ "' is not supported by MigratorXpress "
             ++ version_text detected)%string]
  | _ => []
  end.

(** One warning when the feature is requested and not supported. *)
Definition unsupported (what : string) (supported : bool)
           (detected : option MigratorXpressVersion) (value : option JValue)
  : list string :=
  match value with
  | Some v =>
      if truthy v && negb supported
      then [(what ++ " is not supported by MigratorXpress "
             ++ version_text detected)%string]
      else []
  | None => []
  end.

End Compat.

(** Modelled from the spec: [check_version_compatibility], which
    [server.py] imports from [src.version] and calls in
    [handle_preview_command], but whose body is not among the sources.  The
    specification (4.3) gives its contract: [check(rawRequest, capabilities,
    detectedVersion)] returns a list of warnings, is pure and advisory, and
    emits one human-readable warning "for each requested feature/value not
    present in the resolved capability set (e.g., a task, a database type, an
    FK mode outside the known set, or a fast-transfer request when
    supports_fasttransfer is false)".  The wording of the warnings is not
    specified; the one used here only names the value and the version. *)
Definition check_version_compatibility (arguments : gmap string JValue)
           (capabilities : VersionCapabilities)
           (detected_version : option MigratorXpressVersion) : list string :=
  flat_map (fun task =>
              Compat.outside "Task" (tasks capabilities) detected_version
                             (Some (JStr task)))
           (Compat.strings_of (default JNull (arguments !! "task_list")))
  ++ Compat.outside "FK mode" (fk_modes capabilities) detected_version
                    (arguments !! "fk_mode")
  ++ Compat.outside "Migration DB mode" (migration_db_modes capabilities)
                    detected_version (arguments !! "migration_db_mode")
  ++ Compat.outside "Load mode" (load_modes capabilities) detected_version
                    (arguments !! "load_mode")
  ++ Compat.unsupported "FastTransfer" (supports_fasttransfer capabilities)
                        detected_version (arguments !! "fasttransfer_dir_path")
  ++ Compat.unsupported "License" (supports_license capabilities)
                        detected_version (arguments !! "license")
  ++ Compat.unsupported "No-banner flag" (supports_no_banner capabilities)
                        detected_version (arguments !! "no_banner").

(** ** [src/migratorxpress.py]: [get_version] *)

(** [sorted(s)] for a set of strings.  Python orders strings by code
    point, the first difference deciding; the order of the result does not
    depend on the order in which the set is walked. *)
Definition py_sorted (s : gset string) : list string :=
  merge_sort (λ a b, Is_true (String.leb a b)) (elements s).

(** The dictionary [get_version] returns, and the one under its key
    ["capabilities"]. *)
Module VersionInfo.

Record Capabilities : Type := mkCapabilities {
  source_databases : list string;
  target_databases : list string;
  migration_db_types : list string;
  tasks : list string;
  fk_modes : list string;
  migration_db_modes : list string;
  load_modes : list string;
  supports_no_banner : bool;
  supports_version_flag : bool;
  supports_fasttransfer : bool;
  supports_license : bool
}.

Record t : Type := mk {
  version : option string;
  detected : bool;
  binary_path : string;
  capabilities : Capabilities
}.

End VersionInfo.

(** [CommandBuilder.get_version]: the dictionary, the builder and the world
    after the call. *)
Definition get_version (run : OS) (self : CommandBuilder) (w : World)
  : VersionInfo.t * CommandBuilder * World :=
  let '(detected, detector, w) := detect run 10 (_version_detector self) w in
  let '(caps, detector, w) := capabilities run _SORTED_VERSIONS detector w in
  (VersionInfo.mk
     (match detected with
      | Some v => Some (Version.to_string v)
      | None => None
      end)
     (match detected with Some _ => true | None => false end)
     (binary_path self)
     (VersionInfo.mkCapabilities
        (py_sorted (source_databases caps))
        (py_sorted (target_databases caps))
        (py_sorted (migration_db_types caps))
        (py_sorted (tasks caps))
        (py_sorted (fk_modes caps))
        (py_sorted (migration_db_modes caps))
        (py_sorted (load_modes caps))
        (supports_no_banner caps)
        (supports_version_flag caps)
        (supports_fasttransfer caps)
        (supports_license caps)),
   mkBuilder (binary_path self) detector, w).

(** ** [src/migratorxpress.py]: [get_supported_capabilities] *)

(** The dictionary it returns: three lists, and four dictionaries whose
    items are kept in the order written. *)
Module Supported.

Record t : Type := mk {
  source_databases : list string;
  target_databases : list string;
  migration_database : list string;
  tasks : list (string * string);
  migration_db_modes : list (string * string);
  load_modes : list (string * string);
  fk_modes : list (string * string)
}.

End Supported.

Definition get_supported_capabilities : Supported.t :=
  {| Supported.source_databases :=
       ["Oracle (oracle)"; "PostgreSQL (postgresql)";
        "SQL Server (sqlserver)"; "Netezza (netezza)"];
     Supported.target_databases :=
       ["PostgreSQL (postgresql)"; "SQL Server (sqlserver)"];
     Supported.migration_database := ["SQL Server (sqlserver)"];
     Supported.tasks :=
       [("translate", "Translate source schema to target schema DDL");
        ("create", "Create target tables from translated DDL");
        ("transfer", "Transfer data from source to target");
        ("diff", "Compare source and target row counts");
        ("copy_pk", "Copy primary key constraints to target");
        ("copy_ak", "Copy alternate key (unique) constraints to target");
        ("copy_fk", "Copy foreign key constraints to target");
        ("all", "Run all tasks in sequence (translate, create, transfer, diff, copy_pk, copy_ak, copy_fk)")];
     Supported.migration_db_modes :=
       [("preserve", "Keep existing migration database data");
        ("truncate", "Clear migration database before run");
        ("drop", "Drop and recreate migration database")];
     Supported.load_modes :=
       [("truncate", "Truncate target tables before loading");
        ("append", "Append data to existing target tables")];
     Supported.fk_modes :=
       [("trusted", "Create foreign keys as trusted constraints");
        ("untrusted", "Create foreign keys as untrusted constraints");
        ("disabled", "Create foreign keys in disabled state")] |}.

(** ** [src/migratorxpress.py]: [suggest_workflow] *)

Module Workflow.

(** One step: its number or the word [alt], the task, the description and
    the example command. *)
Record Step : Type := mkStep {
  step : Z + string;
  task : string;
  description : string;
  example : string
}.

Record t : Type := mk {
  source_type : JValue;
  target_type : JValue;
  include_constraints : JValue;
  steps : list Step
}.

End Workflow.

Definition suggest_workflow (source_type target_type : JValue)
           (include_constraints : JValue) : Workflow.t :=
  let steps := [] in
  (* Step 1: Translate *)
  let steps :=
    steps ++
      [Workflow.mkStep (inl 1) "translate"
         "Translate source schema DDL to target-compatible DDL"
         ("MigratorXpress -a auth.json "
          ++ "--source_db_auth_id source_db --source_db_name mydb "
          ++ "--target_db_auth_id target_db --target_db_name targetdb "
          ++ "--migration_db_auth_id migration_db "
          ++ "--task_list translate")%string] in
  (* Step 2: Create *)
  let steps :=
    steps ++
      [Workflow.mkStep (inl 2) "create"
         "Create target tables from translated DDL"
         ("MigratorXpress -a auth.json "
          ++ "--source_db_auth_id source_db --source_db_name mydb "
          ++ "--target_db_auth_id target_db --target_db_name targetdb "
          ++ "--migration_db_auth_id migration_db "
          ++ "--task_list create")%string] in
  (* Step 3: Transfer *)
  let steps :=
    steps ++
      [Workflow.mkStep (inl 3) "transfer"
         "Transfer data from source to target tables"
         ("MigratorXpress -a auth.json "
          ++ "--source_db_auth_id source_db --source_db_name mydb "
          ++ "--target_db_auth_id target_db --target_db_name targetdb "
          ++ "--migration_db_auth_id migration_db "
          ++ "--task_list transfer")%string] in
  (* Step 4: Diff *)
  let steps :=
    steps ++
      [Workflow.mkStep (inl 4) "diff"
         "Compare source and target row counts to verify transfer"
         ("MigratorXpress -a auth.json "
          ++ "--source_db_auth_id source_db --source_db_name mydb "
          ++ "--target_db_auth_id target_db --target_db_name targetdb "
          ++ "--migration_db_auth_id migration_db "
          ++ "--task_list diff")%string] in
  (* Step 5: Constraints (optional) *)
  let steps :=
    if truthy include_constraints then
      steps ++
        [Workflow.mkStep (inl 5) "copy_pk + copy_ak + copy_fk"
           "Copy primary keys, alternate keys, and foreign keys to target"
           ("MigratorXpress -a auth.json "
            ++ "--source_db_auth_id source_db --source_db_name mydb "
            ++ "--target_db_auth_id target_db --target_db_name targetdb "
            ++ "--migration_db_auth_id migration_db "
            ++ "--task_list copy_pk copy_ak copy_fk")%string]
    else steps in
  (* Alternative: all *)
  let steps :=
    steps ++
      [Workflow.mkStep (inr "alt") "all"
         "Alternative: run all tasks in a single invocation"
         ("MigratorXpress -a auth.json "
          ++ "--source_db_auth_id source_db --source_db_name mydb "
          ++ "--target_db_auth_id target_db --target_db_name targetdb "
          ++ "--migration_db_auth_id migration_db "
          ++ "--task_list all")%string] in
  Workflow.mk source_type target_type include_constraints steps.

(** ** [src/server.py]: the other tools and the dispatch *)

(** What [open] and [json.load] do with a file: the decoded value, one of
    the two exceptions [handle_validate_auth_file] catches, or another
    exception. *)
Inductive ReadOutcome : Type :=
  | Parsed (v : JValue)
  | JSONDecodeError (msg : string)
  | PermissionError
  | ReadRaised (e : PyException).

(** A decoded JSON object as the [dict] it is: of two items with the same
    key the later one stays. *)
Definition dict_of (items : list (string * JValue)) : gmap string JValue :=
  fold_left (λ m kv, <[kv.1 := kv.2]> m) items ∅.

(** Whether a value can be a member of a [set]. *)
Definition hashable (v : JValue) : bool :=
  match v with
  | JList _ | JDict _ => false
  | _ => true
  end.

(** The loop that fills [found_ids]; adding a list or a dictionary to the
    set raises [TypeError], worded as CPython up to 3.13 words it. *)
Fixpoint collect_ids (entries : list JValue) (found_ids : list JValue)
  : PyException + list JValue :=
  match entries with
  | [] => inr found_ids
  | entry :: rest =>
      match entry with
      | JDict items =>
          match dict_of items !! "id" with
          | Some id =>
              if hashable id then collect_ids rest (found_ids ++ [id])
              else inl (OtherException
                          ("unhashable type: '" ++ type_name id ++ "'")%string)
          | None => collect_ids rest found_ids
          end
      | _ => collect_ids rest found_ids
      end
  end.

(** [auth_id in found_ids] for a string [auth_id]: a string is equal to
    strings only. *)
Definition id_found (auth_id : string) (found_ids : list JValue) : bool :=
  existsb (λ v, match v with
                | JStr s => String.eqb s auth_id
                | _ => false
                end) found_ids.

(** One [Missing auth_id] line for each required identifier for which
    [present] is false, in the order of the request. *)
Definition missing_ids (present : string → bool)
           (required_auth_ids : list string) : list string :=
  map (λ auth_id, ("- Missing auth_id: '" ++ auth_id ++ "'")%string)
      (filter (λ auth_id, present auth_id = false) required_auth_ids).

(** The block under [# Check required auth IDs]: the issues it adds. *)
Definition check_required_ids (auth_data : JValue)
           (required_auth_ids : list string) : PyException + list string :=
  match auth_data with
  | JNull => inr []
  | _ =>
      if list_truthy required_auth_ids then
        match auth_data with
        | JDict items =>
            inr (missing_ids
                   (λ auth_id, bool_decide (is_Some (dict_of items !! auth_id)))
                   required_auth_ids)
        | JList entries =>
            match collect_ids entries [] with
            | inl e => inl e
            | inr found_ids =>
                inr (missing_ids (λ auth_id, id_found auth_id found_ids)
                                 required_auth_ids)
            end
        | _ => inr []
        end
      else inr []
  end.

(** [f"{x}"] for a value of a request.  The text of a list or of a
    dictionary is its [repr], which is left to [container_repr]. *)
Definition py_format (container_repr : JValue → string) (v : JValue)
  : string :=
  match v with
  | JNull => "None"
  | JBool true => "True"
  | JBool false => "False"
  | JInt n => pretty n
  | JFloat x => PyFloat.str x
  | JStr s => s
  | JList _ | JDict _ => container_repr v
  end.

Section Tools.

Variable run : OS.
Variable log_writable : string → bool.
Variable Path_str : string → string.
Variable stat : string → FileStatus.
(** [open(path)] followed by [json.load]. *)
Variable read_json : string → ReadOutcome.

Variable MIGRATORXPRESS_PATH : string.
Variable MIGRATORXPRESS_TIMEOUT : Z.
Variable MIGRATORXPRESS_LOG_DIR : string.

Variable shlex_split : string → string + list string.
Variable parse_fields : gmap string JValue → ValidationErrors + MigrationParams.
Variable check : gmap string JValue → VersionCapabilities →
                 option MigratorXpressVersion → list string.
Variable container_repr : JValue → string.

(** [handle_validate_auth_file], for a [file_path] that is a string and
    [required_auth_ids] that is a list of strings, as the schema of the
    tool asks. *)
Definition handle_validate_auth_file (file_path : string)
           (required_auth_ids : list string) : Outcome :=
  (* Check file exists *)
  let path := Path_str file_path in
  let read : PyException + (list string * JValue) :=
    if negb (path_exists (stat path)) then
      inr ([("- File not found: " ++ file_path)%string], JNull)
    else if negb (path_is_file (stat path)) then
      inr ([("- Path is not a file: " ++ file_path)%string], JNull)
    else
      (* Try to parse as JSON *)
      match read_json path with
      | Parsed v => inr ([], v)
      | JSONDecodeError msg => inr ([("- Invalid JSON: " ++ msg)%string], JNull)
      | PermissionError =>
          inr ([("- Permission denied reading: " ++ file_path)%string], JNull)
      | ReadRaised e => inl e
      end in
  match read with
  | inl e => Raises e
  | inr (issues, auth_data) =>
      (* Check required auth IDs *)
      match check_required_ids auth_data required_auth_ids with
      | inl e => Raises e
      | inr missing =>
          let issues := issues ++ missing in
          let response :=
            if list_truthy issues then
              ["# Auth File Validation - Issues Found"; "";
               ("**File**: " ++ file_path)%string; ""] ++ issues
            else
              let entry_count :=
                match auth_data with
                | JDict items => Z.of_nat (size (dict_of items))
                | JList entries => Z.of_nat (length entries)
                | _ => 0
                end in
              let response :=
                ["# Auth File Validation - OK"; "";
                 ("**File**: " ++ file_path)%string;
                 "**Valid JSON**: Yes";
                 ("**Entries**: " ++ pretty entry_count)%string] in
              if list_truthy required_auth_ids then
                response ++
                  [("**Required auth_ids present**: "
                    ++ Text.join ", " required_auth_ids)%string]
              else response in
          Returns (Text.join nl response)
      end
  end.

(** The arguments of [validate_auth_file] that follow the schema, with the
    defaults of [arguments.get]. *)
Definition strings_of_values (items : list JValue) : option (list string) :=
  mapM (λ v, match v with JStr s => Some s | _ => None end) items.

Definition auth_request (arguments : gmap string JValue)
  : option (string * list string) :=
  match get arguments "file_path" (JStr ""),
        get arguments "required_auth_ids" (JList []) with
  | JStr file_path, JList items =>
      match strings_of_values items with
      | Some required_auth_ids => Some (file_path, required_auth_ids)
      | None => None
      end
  | _, _ => None
  end.

(** What [handle_validate_auth_file] answers to arguments of other types.
    It reads the file system at most. *)
Variable validate_auth_file_untyped : gmap string JValue → Outcome.

(** The loops of [handle_list_capabilities]. *)
Definition bullet_list (items : list string) : list string :=
  map (λ db, ("- " ++ db)%string) items.

Definition bullet_items (items : list (string * string)) : list string :=
  map (λ item : string * string,
         ("- **" ++ item.1 ++ "**: " ++ item.2)%string) items.

Definition handle_list_capabilities : Outcome :=
  let caps := get_supported_capabilities in
  let response := ["# MigratorXpress Capabilities"; ""] in
  (* Source databases *)
  let response :=
    response ++ ["## Source Databases"; ""]
      ++ bullet_list (Supported.source_databases caps) ++ [""] in
  (* Target databases *)
  let response :=
    response ++ ["## Target Databases"; ""]
      ++ bullet_list (Supported.target_databases caps) ++ [""] in
  (* Migration database *)
  let response :=
    response ++ ["## Migration Database"; ""]
      ++ bullet_list (Supported.migration_database caps) ++ [""] in
  (* Tasks *)
  let response :=
    response ++ ["## Available Tasks"; ""]
      ++ bullet_items (Supported.tasks caps) ++ [""] in
  (* Migration DB modes *)
  let response :=
    response ++ ["## Migration DB Modes"; ""]
      ++ bullet_items (Supported.migration_db_modes caps) ++ [""] in
  (* Load modes *)
  let response :=
    response ++ ["## Load Modes"; ""]
      ++ bullet_items (Supported.load_modes caps) ++ [""] in
  (* FK modes *)
  let response :=
    response ++ ["## FK Modes"; ""]
      ++ bullet_items (Supported.fk_modes caps) ++ [""] in
  Returns (Text.join nl response).

Definition yes_no (b : bool) : string := if b then "Yes" else "No".

(** The lines [handle_suggest_workflow] writes for one step. *)
Definition step_lines (s : Workflow.Step) : list string :=
  [("### Step "
    ++ match Workflow.step s with inl n => pretty n | inr word => word end
    ++ ": " ++ Workflow.task s)%string;
   Workflow.description s;
   "";
   "```bash";
   Workflow.example s;
   "```";
   ""].

Definition handle_suggest_workflow (arguments : gmap string JValue)
  : Outcome :=
  let source_type := get arguments "source_type" (JStr "") in
  let target_type := get arguments "target_type" (JStr "") in
  let include_constraints :=
    get arguments "include_constraints" (JBool true) in
  let workflow := suggest_workflow source_type target_type include_constraints in
  let response :=
    ["# MigratorXpress Workflow Suggestion"; "";
     ("**Source**: "
      ++ py_format container_repr (Workflow.source_type workflow))%string;
     ("**Target**: "
      ++ py_format container_repr (Workflow.target_type workflow))%string;
     ("**Include Constraints**: "
      ++ yes_no (truthy (Workflow.include_constraints workflow)))%string;
     "";
     "## Steps:";
     ""] in
  let response := response ++ flat_map step_lines (Workflow.steps workflow) in
  Returns (Text.join nl response).

(** [", ".join(f"`{d}`" for d in items)] *)
Definition code_list (items : list string) : string :=
  Text.join ", " (map (λ d, ("`" ++ d ++ "`")%string) items).

(** [handle_get_version]: the outcome, the builder and the world after the
    call. *)
Definition handle_get_version (command_builder : option CommandBuilder)
           (w : World) : Outcome * option CommandBuilder * World :=
  match command_builder with
  | None =>
      (Returns ("Error: MigratorXpress binary not found or not accessible."
                ++ nl ++ "Expected location: " ++ MIGRATORXPRESS_PATH ++ nl
                ++ "Please set MIGRATORXPRESS_PATH environment variable correctly.")%string,
       command_builder, w)
  | Some builder =>
      let '(version_info, builder, w) := get_version run builder w in
      let caps := VersionInfo.capabilities version_info in
      let response :=
        ["# MigratorXpress Version Information";
         "";
         ("**Version**: "
          ++ match VersionInfo.version version_info with
             | Some text => if str_truthy text then text else "Unknown"
             | None => "Unknown"
             end)%string;
         ("**Detected**: " ++ yes_no (VersionInfo.detected version_info))%string;
         ("**Binary Path**: " ++ VersionInfo.binary_path version_info)%string;
         "";
         "## Supported Source Databases:";
         code_list (VersionInfo.source_databases caps);
         "";
         "## Supported Target Databases:";
         code_list (VersionInfo.target_databases caps);
         "";
         "## Migration Database Types:";
         code_list (VersionInfo.migration_db_types caps);
         "";
         "## Available Tasks:";
         code_list (VersionInfo.tasks caps);
         "";
         "## FK Modes:";
         code_list (VersionInfo.fk_modes caps);
         "";
         "## Migration DB Modes:";
         code_list (VersionInfo.migration_db_modes caps);
         "";
         "## Load Modes:";
         code_list (VersionInfo.load_modes caps);
         "";
         "## Feature Flags:";
         ("- No Banner: " ++ yes_no (VersionInfo.supports_no_banner caps))%string;
         ("- Version Flag: "
          ++ yes_no (VersionInfo.supports_version_flag caps))%string;
         ("- FastTransfer: "
          ++ yes_no (VersionInfo.supports_fasttransfer caps))%string;
         ("- License: " ++ yes_no (VersionInfo.supports_license caps))%string] in
      (Returns (Text.join nl response), Some builder, w)
  end.

(** The module-level [try] block that makes the global [command_builder]:
    the builder, or [None] after a [MigratorXpressError], and the world
    after it. *)
Definition startup (w : World) : option CommandBuilder * World :=
  match CommandBuilder_init run Path_str stat MIGRATORXPRESS_PATH w with
  | (inl _, w) => (None, w)
  | (inr command_builder, w) =>
      let '(_, command_builder, w) := get_version run command_builder w in
      (Some command_builder, w)
  end.

(** [call_tool]: the text of the answer, the global builder and the world
    after the call.  An exception that leaves a handler is answered with
    its text. *)
Definition call_tool (name : string) (arguments : gmap string JValue)
           (command_builder : option CommandBuilder) (w : World)
  : string * option CommandBuilder * World :=
  let '(outcome, command_builder, w) :=
    if String.eqb name "preview_command" then
      handle_preview_command run MIGRATORXPRESS_PATH parse_fields check
                             command_builder arguments w
    else if String.eqb name "execute_command" then
      let '(outcome, w) :=
        handle_execute_command run log_writable MIGRATORXPRESS_TIMEOUT
                               MIGRATORXPRESS_LOG_DIR shlex_split
                               command_builder arguments w in
      (outcome, command_builder, w)
    else if String.eqb name "validate_auth_file" then
      (match auth_request arguments with
       | Some (file_path, required_auth_ids) =>
           handle_validate_auth_file file_path required_auth_ids
       | None => validate_auth_file_untyped arguments
       end, command_builder, w)
    else if String.eqb name "list_capabilities" then
      (handle_list_capabilities, command_builder, w)
    else if String.eqb name "suggest_workflow" then
      (handle_suggest_workflow arguments, command_builder, w)
    else if String.eqb name "get_version" then
      handle_get_version command_builder w
    else
      (Returns ("Error: Unknown tool '" ++ name ++ "'")%string,
       command_builder, w) in
  match outcome with
  | Returns text => (text, command_builder, w)
  | Raises e => (("Error: " ++ exception_message e)%string, command_builder, w)
  end.

End Tools.

(** ** Vocabulary of the statements *)

(** The parameter set [p] with one optional string field replaced. *)
Definition with_str_field (name : string) (v : option string)
           (p : MigrationParams) : MigrationParams :=
  let pick field old := if String.eqb name field then v else old in
  {| auth_file := auth_file p;
     source_db_auth_id := source_db_auth_id p;
     source_db_name := source_db_name p;
     target_db_auth_id := target_db_auth_id p;
     target_db_name := target_db_name p;
     migration_db_auth_id := migration_db_auth_id p;
     source_schema_name := pick "source_schema_name" (source_schema_name p);
     target_schema_name := pick "target_schema_name" (target_schema_name p);
     task_list := task_list p;
     resume := pick "resume" (resume p);
     fasttransfer_dir_path := pick "fasttransfer_dir_path" (fasttransfer_dir_path p);
     fasttransfer_p := fasttransfer_p p;
     ft_large_table_th := ft_large_table_th p;
     n_jobs := n_jobs p;
     cci_threshold := cci_threshold p;
     aci_threshold := aci_threshold p;
     migration_db_mode := migration_db_mode p;
     compute_nbrows := pick "compute_nbrows" (compute_nbrows p);
     drop_tables_if_exists := pick "drop_tables_if_exists" (drop_tables_if_exists p);
     load_mode := load_mode p;
     include_tables := pick "include_tables" (include_tables p);
     exclude_tables := pick "exclude_tables" (exclude_tables p);
     min_rows := min_rows p;
     max_rows := max_rows p;
     forced_int_id_prefixes := forced_int_id_prefixes p;
     forced_int_id_suffixes := forced_int_id_suffixes p;
     profiling_sample_pc := profiling_sample_pc p;
     p_query := p_query p;
     min_sample_pc_profile := min_sample_pc_profile p;
     force := force p;
     basic_diff := basic_diff p;
     without_xid := without_xid p;
     fk_mode := fk_mode p;
     log_level := log_level p;
     log_dir := pick "log_dir" (log_dir p);
     no_banner := no_banner p;
     no_progress := no_progress p;
     quiet_ft := quiet_ft p;
     license := pick "license" (license p);
     license_file := pick "license_file" (license_file p) |}.

(** The parameter set [p] with one multi-value field replaced. *)
Definition with_list_field (name : string) (v : option (list string))
           (p : MigrationParams) : MigrationParams :=
  let pick field old := if String.eqb name field then v else old in
  {| auth_file := auth_file p;
     source_db_auth_id := source_db_auth_id p;
     source_db_name := source_db_name p;
     target_db_auth_id := target_db_auth_id p;
     target_db_name := target_db_name p;
     migration_db_auth_id := migration_db_auth_id p;
     source_schema_name := source_schema_name p;
     target_schema_name := target_schema_name p;
     task_list := pick "task_list" (task_list p);
     resume := resume p;
     fasttransfer_dir_path := fasttransfer_dir_path p;
     fasttransfer_p := fasttransfer_p p;
     ft_large_table_th := ft_large_table_th p;
     n_jobs := n_jobs p;
     cci_threshold := cci_threshold p;
     aci_threshold := aci_threshold p;
     migration_db_mode := migration_db_mode p;
     compute_nbrows := compute_nbrows p;
     drop_tables_if_exists := drop_tables_if_exists p;
     load_mode := load_mode p;
     include_tables := include_tables p;
     exclude_tables := exclude_tables p;
     min_rows := min_rows p;
     max_rows := max_rows p;
     forced_int_id_prefixes := pick "forced_int_id_prefixes" (forced_int_id_prefixes p);
     forced_int_id_suffixes := pick "forced_int_id_suffixes" (forced_int_id_suffixes p);
     profiling_sample_pc := profiling_sample_pc p;
     p_query := p_query p;
     min_sample_pc_profile := min_sample_pc_profile p;
     force := force p;
     basic_diff := basic_diff p;
     without_xid := without_xid p;
     fk_mode := fk_mode p;
     log_level := log_level p;
     log_dir := log_dir p;
     no_banner := no_banner p;
     no_progress := no_progress p;
     quiet_ft := quiet_ft p;
     license := license p;
     license_file := license_file p |}.

(** The optional string fields whose presence [build_command] decides by
    truth value: the field, its name and its flag. *)
Definition truthy_string_fields
  : list ((MigrationParams → option string) * string * string) :=
  [ (source_schema_name, "source_schema_name", "--source_schema_name");
    (target_schema_name, "target_schema_name", "--target_schema_name");
    (resume, "resume", "-r");
    (fasttransfer_dir_path, "fasttransfer_dir_path", "--fasttransfer_dir_path");
    (include_tables, "include_tables", "-i");
    (exclude_tables, "exclude_tables", "-e");
    (log_dir, "log_dir", "--log_dir");
    (license, "license", "--license");
    (license_file, "license_file", "--license_file") ].

(** The multi-value fields: the field, its name and its flag. *)
Definition multi_value_fields
  : list ((MigrationParams → option (list string)) * string * string) :=
  [ (task_list, "task_list", "--task_list");
    (forced_int_id_prefixes, "forced_int_id_prefixes", "--forced_int_id_prefixes");
    (forced_int_id_suffixes, "forced_int_id_suffixes", "--forced_int_id_suffixes") ].

(** The optional [int] fields, with their flags. *)
Definition int_fields : list ((MigrationParams -> option Z) * string) :=
  [ (fasttransfer_p, "-p");
    (ft_large_table_th, "--ft_large_table_th");
    (n_jobs, "--n_jobs");
    (cci_threshold, "--cci_threshold");
    (aci_threshold, "--aci_threshold");
    (min_rows, "-min");
    (max_rows, "-max") ].

(** The optional [float] fields, with their flags. *)
Definition float_fields : list ((MigrationParams -> option float) * string) :=
  [ (profiling_sample_pc, "--profiling_sample_pc");
    (p_query, "--p_query");
    (min_sample_pc_profile, "--min_sample_pc_profile") ].

(** The tokens [build_command] emits, one group per statement of its body. *)
Definition segments (self : CommandBuilder) (p : MigrationParams)
  : list (list string) :=
  [ [binary_path self];
    ["-a"; auth_file p];
    ["--source_db_auth_id"; source_db_auth_id p];
    ["--source_db_name"; source_db_name p];
    ["--target_db_auth_id"; target_db_auth_id p];
    ["--target_db_name"; target_db_name p];
    ["--migration_db_auth_id"; migration_db_auth_id p];
    Cmd.extend_if_str [] "--source_schema_name" (source_schema_name p);
    Cmd.extend_if_str [] "--target_schema_name" (target_schema_name p);
    Cmd.extend_if_list [] "--task_list" (task_list p);
    Cmd.extend_if_str [] "-r" (resume p);
    Cmd.extend_if_str [] "--fasttransfer_dir_path" (fasttransfer_dir_path p);
    Cmd.extend_if_int [] "-p" (fasttransfer_p p);
    Cmd.extend_if_int [] "--ft_large_table_th" (ft_large_table_th p);
    Cmd.extend_if_int [] "--n_jobs" (n_jobs p);
    Cmd.extend_if_int [] "--cci_threshold" (cci_threshold p);
    Cmd.extend_if_int [] "--aci_threshold" (aci_threshold p);
    Cmd.extend_if_enum MigrationDbMode.value [] "--migration_db_mode" (migration_db_mode p);
    Cmd.extend_if_set [] "--compute_nbrows" (compute_nbrows p);
    Cmd.extend_if_set [] "--drop_tables_if_exists" (drop_tables_if_exists p);
    Cmd.extend_if_enum LoadMode.value [] "--load_mode" (load_mode p);
    Cmd.extend_if_str [] "-i" (include_tables p);
    Cmd.extend_if_str [] "-e" (exclude_tables p);
    Cmd.extend_if_int [] "-min" (min_rows p);
    Cmd.extend_if_int [] "-max" (max_rows p);
    Cmd.extend_if_list [] "--forced_int_id_prefixes" (forced_int_id_prefixes p);
    Cmd.extend_if_list [] "--forced_int_id_suffixes" (forced_int_id_suffixes p);
    Cmd.extend_if_float [] "--profiling_sample_pc" (profiling_sample_pc p);
    Cmd.extend_if_float [] "--p_query" (p_query p);
    Cmd.extend_if_float [] "--min_sample_pc_profile" (min_sample_pc_profile p);
    Cmd.append_if [] "-f" (force p);
    Cmd.append_if [] "--basic_diff" (basic_diff p);
    Cmd.append_if [] "--without_xid" (without_xid p);
    Cmd.extend_if_enum FkMode.value [] "--fk_mode" (fk_mode p);
    Cmd.extend_if_enum LogLevel.value [] "--log_level" (log_level p);
    Cmd.extend_if_str [] "--log_dir" (log_dir p);
    Cmd.append_if [] "--no_banner" (no_banner p);
    Cmd.append_if [] "--no_progress" (no_progress p);
    Cmd.append_if [] "--quiet_ft" (quiet_ft p);
    Cmd.extend_if_str [] "--license" (license p);
    Cmd.extend_if_str [] "--license_file" (license_file p) ].

(** [flag] immediately followed by [values] somewhere in [cmd]. *)
Definition has_run (flag : string) (values : list string) (cmd : list string)
  : Prop :=
  ∃ before after, cmd = before ++ flag :: values ++ after.

(** How many times a token occurs. *)
Definition occurrences (token : string) (cmd : list string) : nat :=
  length (filter (λ t, t = token) cmd).

(** The lexicographic order of the version triples. *)
Definition lex_lt (a b : MigratorXpressVersion) : Prop :=
  major a < major b
  ∨ (major a = major b ∧ (minor a < minor b
                           ∨ (minor a = minor b ∧ patch a < patch b))).

(** A table is in ascending order of version. *)
Definition ascending (entries : list RegistryEntry) : Prop :=
  StronglySorted (λ x y : RegistryEntry, Version.le x.1 y.1 = true) entries.

(** [caps] is the capability entry of a greatest version of the table. *)
Definition latest_entry (entries : list RegistryEntry)
           (caps : VersionCapabilities) : Prop :=
  ∃ v, (v, caps) ∈ entries ∧ ∀ e, e ∈ entries → Version.le e.1 v = true.

(** [caps] is the capability entry of a greatest version among those that
    are at most [detected]. *)
Definition best_entry_upto (entries : list RegistryEntry)
           (detected : MigratorXpressVersion) (caps : VersionCapabilities)
  : Prop :=
  ∃ v, (v, caps) ∈ entries ∧ Version.le v detected = true
       ∧ ∀ e, e ∈ entries → Version.le e.1 detected = true →
              Version.le e.1 v = true.

(** The entries of the program's registry, parsed. *)
Definition known_entries : list RegistryEntry :=
  default [] (parse_items VERSION_REGISTRY).

(** A world in which nothing has happened yet. *)
Definition initial_world : World := mkWorld [] [].

(** Position [j] of [tokens] comes immediately after a [--license] token. *)
Definition follows_license (tokens : list string) (j : nat) : bool :=
  match j with
  | O => false
  | S i => bool_decide (tokens !! i = Some "--license")
  end.

(** No [--license] token immediately follows another one. *)
Definition no_adjacent_license (tokens : list string) : Prop :=
  ∀ i, tokens !! i = Some "--license" → tokens !! S i ≠ Some "--license".

(** The three blocks of lines of a preview. *)
Definition preview_head (explanation : string) : list string :=
  ["# MigratorXpress Command Preview"; "";
   "## What this command will do:"; explanation].

Definition warnings_block (version_warnings : list string) : list string :=
  match version_warnings with
  | [] => []
  | _ :: _ =>
      [""; "## ⚠ Version Compatibility Warnings"]
        ++ map (λ warning, ("- " ++ warning)%string) version_warnings
  end.

Definition command_block (display_command : string) (command : list string)
  : list string :=
  [""; "## Command:"; "```bash"; display_command; "```"; "";
   "## To execute this command:";
   "1. Review the command carefully";
   "2. Use the `execute_command` tool with the FULL command";
   "3. Set `confirmation: true` to proceed"; "";
   "## Full command for execution:"; "```";
   Text.join " " command; "```"].

(** [pattern] is a prefix of [l], and [pattern] occurs somewhere in [l]. *)
Fixpoint starts_with (pattern l : list string) : bool :=
  match pattern, l with
  | [], _ => true
  | a :: pattern', b :: l' => String.eqb a b && starts_with pattern' l'
  | _ :: _, [] => false
  end.

Fixpoint occurs_in (pattern l : list string) : bool :=
  starts_with pattern l
  || match l with
     | [] => false
     | _ :: l' => occurs_in pattern l'
     end.

(** The minimal parameter set of the end-to-end scenario. *)
Definition scenario_params : MigrationParams :=
  minimal_params "auth.json" "s" "d1" "t" "d2" "m".

(** The same with the first profiling parameter set to zero. *)
Definition zero_sample_params : MigrationParams :=
  {| auth_file := "auth.json"; source_db_auth_id := "s"; source_db_name := "d1";
     target_db_auth_id := "t"; target_db_name := "d2";
     migration_db_auth_id := "m";
     source_schema_name := None; target_schema_name := None;
     task_list := None; resume := None; fasttransfer_dir_path := None;
     fasttransfer_p := None; ft_large_table_th := None; n_jobs := None;
     cci_threshold := None; aci_threshold := None; migration_db_mode := None;
     compute_nbrows := None; drop_tables_if_exists := None; load_mode := None;
     include_tables := None; exclude_tables := None; min_rows := None;
     max_rows := None; forced_int_id_prefixes := None;
     forced_int_id_suffixes := None; profiling_sample_pc := Some 0%float;
     p_query := None; min_sample_pc_profile := None; force := false;
     basic_diff := false; without_xid := false; fk_mode := None;
     log_level := None; log_dir := None; no_banner := false;
     no_progress := false; quiet_ft := false; license := None;
     license_file := None |}.

(** A builder for the examples. *)
Definition example_builder : CommandBuilder :=
  mkBuilder "/opt/MigratorXpress"
            (mkDetector "/opt/MigratorXpress" (Some (mkVersion 0 6 24)) true).

(** Every character of [s] satisfies [p]. *)
Definition all_chars (p : ascii → bool) (s : string) : Prop :=
  Forall (λ c, p c = true) (list_ascii_of_string s).

(** The versions of three non-negative numbers. *)
Definition non_negative (v : MigratorXpressVersion) : Prop :=
  0 ≤ major v ∧ 0 ≤ minor v ∧ 0 ≤ patch v.

(** [s] does not start with a character satisfying [p]. *)
Definition head_not (p : ascii → bool) (s : string) : Prop :=
  match s with
  | "" => True
  | String c _ => p c = false
  end.

(** The capabilities a report of [get_version] stands for: its lists read
    as sets, and its flags. *)
Definition capabilities_of_report (c : VersionInfo.Capabilities)
  : VersionCapabilities :=
  mkCapabilities
    (list_to_set (VersionInfo.source_databases c))
    (list_to_set (VersionInfo.target_databases c))
    (list_to_set (VersionInfo.migration_db_types c))
    (list_to_set (VersionInfo.tasks c))
    (list_to_set (VersionInfo.fk_modes c))
    (list_to_set (VersionInfo.migration_db_modes c))
    (list_to_set (VersionInfo.load_modes c))
    (VersionInfo.supports_no_banner c)
    (VersionInfo.supports_version_flag c)
    (VersionInfo.supports_fasttransfer c)
    (VersionInfo.supports_license c).

(** The seven lists of a report. *)
Definition report_lists (c : VersionInfo.Capabilities) : list (list string) :=
  [ VersionInfo.source_databases c; VersionInfo.target_databases c;
    VersionInfo.migration_db_types c; VersionInfo.tasks c;
    VersionInfo.fk_modes c; VersionInfo.migration_db_modes c;
    VersionInfo.load_modes c ].

(** The parameters the examples of [suggest_workflow] stand for: the six
    required fields and a task list. *)
Definition example_params (tasks : list string) : MigrationParams :=
  with_list_field "task_list" (Some tasks)
    (minimal_params "auth.json" "source_db" "mydb" "target_db" "targetdb"
                    "migration_db").

(** The answer is the report that finds no issue. *)
Definition auth_ok (o : Outcome) : Prop :=
  match o with
  | Returns text => String.prefix "# Auth File Validation - OK" text = true
  | Raises _ => False
  end.

(** Some entry of the list is an object whose ["id"] is [v]. *)
Definition entry_id (entries : list JValue) (v : JValue) : Prop :=
  ∃ items, JDict items ∈ entries ∧ dict_of items !! "id" = Some v.

(** The place of a multi-value field in [build_command]: the number of the
    statement that handles it, counted from 0 as in [segments]. *)
Definition multi_value_place (name : string) : nat :=
  if String.eqb name "task_list" then 9
  else if String.eqb name "forced_int_id_prefixes" then 25
  else 26.

(** * Properties *)

(** ** The command, field by field *)

Lemma extend_if_str_app cmd flag v :
  Cmd.extend_if_str cmd flag v = cmd ++ Cmd.extend_if_str [] flag v.
Proof.
  unfold Cmd.extend_if_str. destruct v as [s|]; [destruct (str_truthy s)|];
    by rewrite ?app_nil_r.
Qed.

Lemma extend_if_set_app cmd flag v :
  Cmd.extend_if_set cmd flag v = cmd ++ Cmd.extend_if_set [] flag v.
Proof. unfold Cmd.extend_if_set. destruct v; by rewrite ?app_nil_r. Qed.

Lemma extend_if_int_app cmd flag v :
  Cmd.extend_if_int cmd flag v = cmd ++ Cmd.extend_if_int [] flag v.
Proof. apply extend_if_set_app. Qed.

Lemma extend_if_float_app cmd flag v :
  Cmd.extend_if_float cmd flag v = cmd ++ Cmd.extend_if_float [] flag v.
Proof. apply extend_if_set_app. Qed.

Lemma extend_if_enum_app {E} (value_of : E → string) cmd flag v :
  Cmd.extend_if_enum value_of cmd flag v
  = cmd ++ Cmd.extend_if_enum value_of [] flag v.
Proof. apply extend_if_str_app. Qed.

Lemma extend_if_list_app cmd flag v :
  Cmd.extend_if_list cmd flag v = cmd ++ Cmd.extend_if_list [] flag v.
Proof.
  unfold Cmd.extend_if_list. destruct v as [vs|]; [destruct (list_truthy vs)|];
    by rewrite ?app_nil_r, <-?app_assoc.
Qed.

Lemma append_if_app cmd flag b :
  Cmd.append_if cmd flag b = cmd ++ Cmd.append_if [] flag b.
Proof. unfold Cmd.append_if. destruct b; by rewrite ?app_nil_r. Qed.

(** [build_command] is the concatenation of its groups, in order. *)
Lemma build_command_concat self p :
  build_command self p = concat (segments self p).
Proof.
  unfold build_command, segments.
  repeat first
    [ rewrite (extend_if_str_app (_ ++ _))
    | rewrite (extend_if_enum_app _ (_ ++ _))
    | rewrite (extend_if_int_app (_ ++ _))
    | rewrite (extend_if_float_app (_ ++ _))
    | rewrite (extend_if_set_app (_ ++ _))
    | rewrite (extend_if_list_app (_ ++ _))
    | rewrite (append_if_app (_ ++ _)) ].
  cbn [concat]. rewrite app_nil_r. rewrite <- !app_assoc. reflexivity.
Qed.

(** ** C1: the minimal parameter set *)

(** C1.  For the parameter set with [auth_file = "auth.json"],
    [source_db_auth_id = "s"], [source_db_name = "d1"],
    [target_db_auth_id = "t"], [target_db_name = "d2"],
    [migration_db_auth_id = "m"] and every optional field absent,
    [build_command] returns exactly the binary path followed by the six
    flag/value pairs, in that order; the binary path is at position 0 and
    position 1 holds the flag [-a], not a subcommand.  The parameter set is
    a valid one. *)
Theorem build_command_minimal (self : CommandBuilder) :
  let params := minimal_params "auth.json" "s" "d1" "t" "d2" "m" in
  let cmd := build_command self params in
  Validators.validate params = Valid params
  ∧ cmd = [ binary_path self; "-a"; "auth.json"; "--source_db_auth_id"; "s";
            "--source_db_name"; "d1"; "--target_db_auth_id"; "t";
            "--target_db_name"; "d2"; "--migration_db_auth_id"; "m" ]
  ∧ cmd !! 0%nat = Some (binary_path self)
  ∧ cmd !! 1%nat = Some "-a".
Proof. repeat split. Qed.

(** ** C2: capability resolution *)

Section VersionOrder.

Implicit Types a b c : MigratorXpressVersion.

(** The comparisons of versions are the lexicographic order of the
    triples. *)
Lemma lt_spec a b : Version.lt a b = true ↔ lex_lt a b.
Proof.
  unfold Version.lt, Version.tuple_lt, Version._tuple, lex_lt.
  destruct a as [a1 a2 a3], b as [b1 b2 b3]; simpl.
  destruct (Z.eqb_spec a1 b1), (Z.eqb_spec a2 b2); simpl;
    rewrite Z.ltb_lt; lia.
Qed.

Lemma eq_spec a b : Version.eq a b = true ↔ a = b.
Proof.
  unfold Version.eq, Version.tuple_eq, Version._tuple.
  destruct a as [a1 a2 a3], b as [b1 b2 b3]; simpl.
  rewrite !andb_true_iff, !Z.eqb_eq. split; [intros [[-> ->] ->]|intros [= -> -> ->]]; done.
Qed.

Lemma le_spec a b : Version.le a b = true ↔ lex_lt a b ∨ a = b.
Proof. unfold Version.le. by rewrite orb_true_iff, lt_spec, eq_spec. Qed.

Lemma le_refl a : Version.le a a = true.
Proof. apply le_spec. by right. Qed.

Lemma le_trans a b c :
  Version.le a b = true → Version.le b c = true → Version.le a c = true.
Proof.
  rewrite !le_spec. unfold lex_lt.
  intros [H1| ->] [H2| ->]; auto. left. lia.
Qed.

(** The order is total: what is not below is above. *)
Lemma lt_false_le a b : Version.lt a b = false → Version.le b a = true.
Proof.
  intros H. apply le_spec.
  destruct (Version.lt a b) eqn:Hlt; [done|].
  assert (¬ lex_lt a b) as Hn by (rewrite <- lt_spec; congruence).
  unfold lex_lt in *. destruct a as [a1 a2 a3], b as [b1 b2 b3]; simpl in *.
  destruct (decide (a1 = b1 ∧ a2 = b2 ∧ a3 = b3)) as [(-> & -> & ->)|Hne];
    [by right|left; lia].
Qed.

Lemma lt_le a b : Version.lt a b = true → Version.le a b = true.
Proof. unfold Version.le. by intros ->. Qed.

Lemma le_false_lt a b : Version.le a b = false → Version.le b a = true.
Proof.
  unfold Version.le. intros [H _]%orb_false_iff. by apply lt_false_le.
Qed.

End VersionOrder.

Lemma insert_sorted_perm x l : insert_sorted x l ≡ₚ x :: l.
Proof.
  induction l as [|y l IH]; simpl; [done|].
  destruct (Version.lt x.1 y.1); [done|].
  rewrite IH. apply Permutation_swap.
Qed.

Lemma insert_sorted_ascending x l :
  ascending l → ascending (insert_sorted x l).
Proof.
  unfold ascending. induction 1 as [|y l Hl IH Hy]; simpl.
  - repeat constructor.
  - destruct (Version.lt x.1 y.1) eqn:Hlt.
    + constructor; [by constructor|].
      constructor; [by apply lt_le|].
      eapply Forall_impl; [exact Hy|].
      intros z Hz. eapply le_trans; [by apply lt_le|done].
    + constructor; [done|].
      rewrite insert_sorted_perm. constructor; [by apply lt_false_le|done].
Qed.

Lemma fold_insert_perm entries acc :
  fold_left (λ acc x, insert_sorted x acc) entries acc ≡ₚ entries ++ acc.
Proof.
  revert acc. induction entries as [|x entries IH]; intros acc; simpl; [done|].
  rewrite IH, insert_sorted_perm. by rewrite Permutation_middle.
Qed.

Lemma fold_insert_ascending entries acc :
  ascending acc →
  ascending (fold_left (λ acc x, insert_sorted x acc) entries acc).
Proof.
  revert acc. induction entries as [|x entries IH]; intros acc Hacc; simpl;
    [done|]. by apply IH, insert_sorted_ascending.
Qed.

(** [sorted] returns its argument, reordered, in ascending order. *)
Lemma sorted_by_version_perm entries : sorted_by_version entries ≡ₚ entries.
Proof.
  unfold sorted_by_version. rewrite fold_insert_perm. by rewrite app_nil_r.
Qed.

Lemma sorted_by_version_ascending entries :
  ascending (sorted_by_version entries).
Proof. apply fold_insert_ascending. constructor. Qed.

(** The last element of a non-empty list does not depend on the default. *)
Lemma last_cons_default {A} (x d d' : A) l :
  List.last (x :: l) d = List.last (x :: l) d'.
Proof.
  revert x. induction l as [|y l IH]; intros x; [done|].
  change (List.last (x :: y :: l) d) with (List.last (y :: l) d).
  change (List.last (x :: y :: l) d') with (List.last (y :: l) d').
  apply IH.
Qed.

(** In an ascending table the last entry has the greatest version. *)
Lemma ascending_last first entries e :
  ascending (first :: entries) → e ∈ first :: entries →
  Version.le e.1 (List.last (first :: entries) first).1 = true.
Proof.
  revert first e. induction entries as [|x entries IH]; intros first e Hs He.
  - apply list_elem_of_singleton in He as ->. apply le_refl.
  - inversion Hs as [|? ? Hs' Hfirst]; subst.
    change (List.last (first :: x :: entries) first)
      with (List.last (x :: entries) first).
    rewrite (last_cons_default x first x).
    apply elem_of_cons in He as [->|He].
    + eapply le_trans; [|apply (IH x x Hs'); by left].
      by inversion Hfirst.
    + by apply IH.
Qed.

Lemma last_elem_of (first : RegistryEntry) entries :
  List.last (first :: entries) first ∈ first :: entries.
Proof.
  revert first. induction entries as [|x entries IH]; intros first; [by left|].
  change (List.last (first :: x :: entries) first)
    with (List.last (x :: entries) first).
  right.
  rewrite (last_cons_default x first x).
  apply IH.
Qed.

(** What the loop of [capabilities] computes on an ascending table. *)
Lemma best_match_ascending detected entries best :
  ascending entries →
  match best_match detected entries best with
  | None =>
      best = None ∧ ∀ e, e ∈ entries → Version.le e.1 detected = false
  | Some caps =>
      (best = Some caps ∧ ∀ e, e ∈ entries → Version.le e.1 detected = false)
      ∨ ∃ v, (v, caps) ∈ entries ∧ Version.le v detected = true
             ∧ ∀ e, e ∈ entries → Version.le e.1 detected = true →
                    Version.le e.1 v = true
  end.
Proof.
  intros Hs. revert best.
  induction Hs as [|[ver caps] rest Hs IH Hver]; intros best; simpl.
  - destruct best; [left|]; split; try done; by intros e ?%elem_of_nil.
  - destruct (Version.le ver detected) eqn:Hle.
    + specialize (IH (Some caps)).
      destruct (best_match detected rest (Some caps)) as [c|]; [|by destruct IH].
      right. destruct IH as [[[= <-] Hnone]|(v & Hin & Hv & Hmax)].
      * exists ver. split; [by left|]. split; [done|].
        intros e [->|He]%elem_of_cons Hed; [apply le_refl|].
        rewrite (Hnone e He) in Hed. done.
      * exists v. split; [by right|]. split; [done|].
        intros e [->|He]%elem_of_cons Hed; [|by apply Hmax].
        rewrite Forall_forall in Hver. by apply (Hver (v, c)).
    + assert (∀ e, e ∈ (ver, caps) :: rest → Version.le e.1 detected = false)
        as Hnone.
      { intros e [->|He]%elem_of_cons; [done|].
        destruct (Version.le e.1 detected) eqn:Hed; [|done].
        rewrite Forall_forall in Hver.
        assert (Version.le ver e.1 = true) as Hve by (by apply (Hver e)).
        rewrite (le_trans _ _ _ Hve Hed) in Hle. done. }
      destruct best; [left|]; by split.
Qed.

(** The detector [capabilities] works with: the one it is given when
    detection has run, the one [detect] leaves otherwise. *)
Lemma capabilities_unfold run table self w :
  capabilities run table self w =
  let '(self', w') :=
    if _detection_done self then (self, w)
    else let '(_, s, w') := detect run 10 self w in (s, w') in
  match table with
  | [] => (empty_capabilities, self', w')
  | first :: _ =>
      match _detected_version self' with
      | None => ((List.last table first).2, self', w')
      | Some detected =>
          match best_match detected table None with
          | Some best => (best, self', w')
          | None => ((List.last table first).2, self', w')
          end
      end
  end.
Proof.
  unfold capabilities. destruct (_detection_done self); simpl.
  - destruct table; [done|]. destruct (_detected_version self); [|done].
    by destruct (best_match _ _ _).
  - destruct (detect run 10 self w) as [[r s] w'].
    destruct table; [done|]. destruct (_detected_version s); [|done].
    by destruct (best_match _ _ _).
Qed.

Lemma latest_of_ascending entries first rest :
  first :: rest ≡ₚ entries → ascending (first :: rest) →
  latest_entry entries (List.last (first :: rest) first).2.
Proof.
  intros Hperm Hasc.
  exists (List.last (first :: rest) first).1. split.
  - rewrite <- Hperm, <- surjective_pairing. apply last_elem_of.
  - intros e He. rewrite <- Hperm in He. by apply ascending_last.
Qed.

(** C2.  Let the registry parse to [entries] and let [capabilities] read the
    table sorted from them.  Whatever the detector (detection done or not, a
    version detected or [None]), with [detected] the version the detector
    holds once [capabilities] has made sure detection ran:
    - if the registry is empty the result is the capability set whose seven
      identifier sets are empty;
    - if [detected] is [None], or is a version below every registry version,
      the result is the entry of a greatest registry version;
    - otherwise it is the entry of a greatest registry version that is at
      most [detected].
    When detection had already run, [detected] is the value the detector was
    given. *)
Theorem capabilities_resolution (run : OS)
        (registry : list (string * VersionCapabilities))
        (entries : list RegistryEntry) (self : VersionDetector) (w : World) :
  parse_items registry = Some entries →
  SORTED_VERSIONS_of registry = Some (sorted_by_version entries)
  ∧ let '(caps, self', _) :=
      capabilities run (sorted_by_version entries) self w in
    (_detection_done self = true → self' = self)
    ∧ (entries = [] →
       caps = mkCapabilities ∅ ∅ ∅ ∅ ∅ ∅ ∅ false false false false)
    ∧ (entries ≠ [] →
       match _detected_version self' with
       | None => latest_entry entries caps
       | Some detected =>
           if existsb (λ e : RegistryEntry, Version.le e.1 detected) entries
           then best_entry_upto entries detected caps
           else latest_entry entries caps
       end).
Proof.
  intros Hparse. split.
  { unfold SORTED_VERSIONS_of. by rewrite Hparse. }
  pose proof (sorted_by_version_perm entries) as Hperm.
  pose proof (sorted_by_version_ascending entries) as Hasc.
  rewrite capabilities_unfold.
  set (table := sorted_by_version entries) in *.
  set (st := if _detection_done self then (self, w)
             else let '(_, s, w') := detect run 10 self w in (s, w')).
  assert (_detection_done self = true → st.1 = self) as Hdone.
  { intros Hd. unfold st. by rewrite Hd. }
  destruct st as [self' w']. simpl in Hdone.
  destruct table as [|first rest] eqn:Htable.
  - cbv beta iota zeta. split; [exact Hdone|]. split; [reflexivity|].
    intros Hne. by apply Permutation_nil_l in Hperm.
  - assert (entries ≠ []) as Hne.
    { intros ->. by apply Permutation_nil_r in Hperm. }
    pose proof (latest_of_ascending _ _ _ Hperm Hasc) as Hlatest.
    destruct (_detected_version self') as [detected|] eqn:Hdet.
    + pose proof (best_match_ascending detected _ None Hasc) as Hbest.
      destruct (best_match detected (first :: rest) None) as [best|];
        cbv beta iota zeta; (split; [exact Hdone|]); (split; [done|]);
        intros _; rewrite Hdet.
      * destruct Hbest as [[? _]|(v & Hin & Hv & Hmax)]; [done|].
        assert (existsb (λ e : RegistryEntry, Version.le e.1 detected) entries
                = true) as ->.
        { apply existsb_exists. exists (v, best).
          split; [|done]. apply list_elem_of_In. by rewrite <- Hperm. }
        exists v. split; [by rewrite <- Hperm|]. split; [done|].
        intros e He. apply Hmax. by rewrite Hperm.
      * destruct Hbest as [_ Hnone].
        assert (existsb (λ e : RegistryEntry, Version.le e.1 detected) entries
                = false) as ->; [|done].
        apply not_true_is_false. intros (e & He & Hle)%existsb_exists.
        apply list_elem_of_In in He. rewrite <- Hperm in He.
        by rewrite (Hnone e He) in Hle.
    + cbv beta iota zeta. split; [exact Hdone|]. split; [done|].
      intros _. by rewrite Hdet.
Qed.

Lemma capabilities_resolution_witness :
  let self := mkDetector "/opt/MigratorXpress" (Some (mkVersion 1 0 0)) true in
  parse_items VERSION_REGISTRY = Some known_entries
  ∧ (SORTED_VERSIONS_of VERSION_REGISTRY = Some (sorted_by_version known_entries)
     ∧ let '(caps, self', _) :=
         capabilities (λ _ _, Raised (OtherException "no process"))
                      (sorted_by_version known_entries) self initial_world in
       (_detection_done self = true → self' = self)
       ∧ (known_entries = [] →
          caps = mkCapabilities ∅ ∅ ∅ ∅ ∅ ∅ ∅ false false false false)
       ∧ (known_entries ≠ [] →
          match _detected_version self' with
          | None => latest_entry known_entries caps
          | Some detected =>
              if existsb (λ e : RegistryEntry, Version.le e.1 detected)
                         known_entries
              then best_entry_upto known_entries detected caps
              else latest_entry known_entries caps
          end)).
Proof.
  split; [reflexivity|].
  apply (capabilities_resolution _ VERSION_REGISTRY). reflexivity.
Defined.

(** The program's table holds the single entry of version 0.6.24, and every
    detector resolves to it. *)
Lemma sorted_versions_value :
  SORTED_VERSIONS_of VERSION_REGISTRY = Some _SORTED_VERSIONS
  ∧ (λ e : RegistryEntry, e.1) <$> _SORTED_VERSIONS = [mkVersion 0 6 24].
Proof. split; reflexivity. Qed.

Lemma capabilities_fixed_registry run self w caps :
  VERSION_REGISTRY !! 0%nat = Some ("0.6.24", caps) →
  (capabilities run _SORTED_VERSIONS self w).1.1 = caps.
Proof.
  intros [= <-]. rewrite capabilities_unfold.
  destruct (if _detection_done self then (self, w)
            else let '(_, s, w') := detect run 10 self w in (s, w'))
    as [self' w'].
  change _SORTED_VERSIONS
    with [(mkVersion 0 6 24, (default ("", empty_capabilities)
                                       (VERSION_REGISTRY !! 0%nat)).2)].
  cbv beta iota.
  destruct (_detected_version self') as [d|]; [|done].
  simpl. by destruct (Version.le _ d).
Qed.

(** ** C3: the compatibility check is advisory *)

Lemma mask_tokens_cons token rest :
  ∃ rest', mask_tokens (token :: rest) = token :: rest'.
Proof.
  simpl. destruct (String.eqb token "--license"); [destruct rest|]; eauto.
Qed.

(** A built command starts with the binary path, so it can be displayed. *)
Lemma build_command_cons self p :
  ∃ rest, build_command self p = binary_path self :: rest.
Proof. rewrite build_command_concat. unfold segments. simpl. eauto. Qed.

Lemma format_command_display_built self p mask :
  is_Some (format_command_display (build_command self p) mask).
Proof.
  destruct (build_command_cons self p) as [rest ->].
  unfold format_command_display. destruct mask; [|by eexists].
  destruct (mask_tokens_cons (binary_path self) rest) as [rest' ->].
  by eexists.
Qed.

Lemma preview_response_blocks explanation version_warnings display command :
  preview_response explanation version_warnings display command
  = preview_head explanation ++ warnings_block version_warnings
      ++ command_block display command.
Proof.
  unfold preview_response, preview_head, warnings_block, command_block.
  destruct version_warnings; simpl; [done|].
  rewrite <- ?app_assoc. reflexivity.
Qed.

(** C3.  Whatever function of the raw request, the capabilities and the
    detected version stands for the compatibility check, and whatever list
    of warnings it returns:
    - the builder and the world after [handle_preview_command] are those of
      the same handler run with a check that never warns (the check has no
      effect of its own);
    - when the builder is there and the parameters validate, the handler
      returns a preview whose command is [build_command] of the validated
      parameters and whose display is that command formatted: neither
      depends on the warnings, which only add their own block of lines
      between the head of the preview and the command;
    - in every other case the handler answers as it does with a check that
      never warns. *)
Theorem preview_not_blocked_by_warnings (run : OS) (path : string)
        (parse_fields : gmap string JValue → ValidationErrors + MigrationParams)
        (check : gmap string JValue → VersionCapabilities →
                 option MigratorXpressVersion → list string)
        (command_builder : option CommandBuilder)
        (arguments : gmap string JValue) (w : World) :
  let r := handle_preview_command run path parse_fields check
                                  command_builder arguments w in
  let r0 := handle_preview_command run path parse_fields (λ _ _ _, [])
                                   command_builder arguments w in
  r.1.2 = r0.1.2 ∧ r.2 = r0.2
  ∧ match command_builder, MigrationParams_new parse_fields arguments with
    | Some builder, inr params =>
        let '(caps, detector, _) :=
          capabilities run _SORTED_VERSIONS (_version_detector builder) w in
        let command :=
          build_command (mkBuilder (binary_path builder) detector) params in
        let warnings := check arguments caps (_detected_version detector) in
        ∃ display,
          format_command_display command true = Some display
          ∧ r.1.1 = Returns (Text.join nl
                (preview_head (_build_command_explanation params)
                   ++ warnings_block warnings
                   ++ command_block display command))
          ∧ r0.1.1 = Returns (Text.join nl
                (preview_head (_build_command_explanation params)
                   ++ command_block display command))
    | _, _ => r.1.1 = r0.1.1
    end.
Proof.
  unfold handle_preview_command.
  destruct command_builder as [builder|]; [|done].
  destruct (MigrationParams_new parse_fields arguments) as [errors|params];
    [done|].
  destruct (capabilities run _SORTED_VERSIONS (_version_detector builder) w)
    as [[caps detector] w'].
  destruct (format_command_display_built
              (mkBuilder (binary_path builder) detector) params true)
    as [display Hdisplay].
  rewrite Hdisplay. cbv zeta. simpl.
  repeat split. exists display. by rewrite !preview_response_blocks.
Qed.

(** ** C4: masking the licence key *)

(** The loop, started at the end of [done] with [todo] still to visit,
    leaves the visited part as it is and masks the rest. *)
Lemma mask_loop_spec fuel done todo masked (h : gmap loc (list string)) :
  h !! masked = Some (done ++ todo) →
  (length todo < fuel)%nat →
  mask_loop fuel (length done) masked h
  = Some (<[masked := done ++ mask_tokens todo]> h).
Proof.
  revert done todo h.
  induction fuel as [|fuel IH]; intros done todo h Hm Hfuel; [lia|].
  simpl. rewrite Hm.
  destruct todo as [|token rest].
  - rewrite lookup_app_r, Nat.sub_diag by done. simpl.
    by rewrite insert_id.
  - rewrite lookup_app_r, Nat.sub_diag by done. cbn [lookup list_lookup].
    assert (S (length done) = length (done ++ [token])) as Hlen
      by (rewrite length_app; simpl; lia).
    assert (done ++ token :: rest = (done ++ [token]) ++ rest) as Hsplit
      by (by rewrite <- app_assoc).
    simpl in Hfuel. cbn [mask_tokens].
    destruct (String.eqb token "--license") eqn:Htok; simpl.
    + destruct rest as [|next rest'].
      * assert ((length done + 1 <? length (done ++ [token]))%nat = false)
          as -> by (apply Nat.ltb_ge; rewrite length_app; simpl; lia).
        rewrite Hlen. rewrite (IH (done ++ [token]) [] h).
        -- simpl. by rewrite <- app_assoc.
        -- by rewrite <- app_assoc.
        -- simpl. lia.
      * assert ((length done + 1 <? length (done ++ token :: next :: rest'))%nat
                = true)
          as -> by (apply Nat.ltb_lt; rewrite length_app; simpl; lia).
        assert (<[(length done + 1)%nat := MASK]> (done ++ token :: next :: rest')
                = (done ++ [token]) ++ MASK :: rest') as ->.
        { rewrite insert_app_r_alt by lia.
          replace (length done + 1 - length done)%nat with 1%nat by lia.
          simpl. by rewrite <- app_assoc. }
        rewrite Hlen.
        rewrite (IH (done ++ [token]) (MASK :: rest')).
        -- rewrite insert_insert_eq. simpl. by rewrite <- app_assoc.
        -- by rewrite lookup_insert_eq.
        -- simpl in *. lia.
    + rewrite Hlen. rewrite (IH (done ++ [token]) rest h).
      * by rewrite <- !app_assoc.
      * by rewrite <- Hsplit.
      * lia.
Qed.

(** [mask_sensitive] allocates one new list, leaves every existing list as
    it is and returns the new one, which holds [mask_tokens] of the
    argument. *)
Lemma mask_sensitive_eq command tokens (h : gmap loc (list string)) :
  h !! command = Some tokens →
  mask_sensitive command h
  = Some (fresh (dom h), <[fresh (dom h) := mask_tokens tokens]> h).
Proof.
  intros Hc. unfold mask_sensitive, copy_list. rewrite Hc.
  rewrite (mask_loop_spec _ [] tokens); simpl; [|by rewrite lookup_insert_eq|lia].
  by rewrite insert_insert_eq.
Qed.

Lemma mask_tokens_length tokens :
  length (mask_tokens tokens) = length tokens.
Proof.
  induction tokens as [tokens IH] using (induction_ltof1 _ (@length string)).
  unfold ltof in IH.
  destruct tokens as [|token rest]; [done|]. simpl.
  destruct (String.eqb token "--license").
  - destruct rest as [|next rest']; [done|]. simpl. rewrite IH; simpl; lia.
  - simpl. rewrite IH; simpl; lia.
Qed.

(** In the result, a position holds the mask exactly when it comes after a
    [--license] of the result, and the token of the argument otherwise. *)
Lemma mask_tokens_lookup tokens j t :
  tokens !! j = Some t →
  mask_tokens tokens !! j
  = Some (if follows_license (mask_tokens tokens) j then MASK else t).
Proof.
  revert j t.
  induction tokens as [tokens IH] using (induction_ltof1 _ (@length string)).
  unfold ltof in IH. intros j t Hj.
  destruct tokens as [|token rest]; [done|]. simpl.
  destruct (String.eqb token "--license") eqn:Htok.
  - apply String.eqb_eq in Htok as ->.
    destruct rest as [|next rest'].
    + destruct j; [by injection Hj as <-|done].
    + destruct j as [|[|j]]; simpl in *.
      * by injection Hj as <-.
      * done.
      * rewrite (IH rest' ltac:(simpl; lia) _ _ Hj).
        by destruct j.
  - apply String.eqb_neq in Htok.
    destruct j as [|j]; simpl in *; [by injection Hj as <-|].
    rewrite (IH rest ltac:(simpl; lia) _ _ Hj).
    destruct j; [simpl|done].
    rewrite bool_decide_eq_false_2; [done|congruence].
Qed.

(** A result token is [--license] only where the argument has it. *)
Lemma mask_tokens_license_inv tokens i :
  mask_tokens tokens !! i = Some "--license" → tokens !! i = Some "--license".
Proof.
  intros Hi.
  destruct (tokens !! i) as [t|] eqn:Ht.
  - rewrite (mask_tokens_lookup _ _ _ Ht) in Hi.
    destruct (follows_license _ _); [done|congruence].
  - apply lookup_ge_None in Ht. rewrite <- mask_tokens_length in Ht.
    apply lookup_ge_None in Ht. congruence.
Qed.

Lemma mask_tokens_no_adjacent tokens j t :
  no_adjacent_license tokens → tokens !! j = Some t →
  mask_tokens tokens !! j
  = Some (if follows_license tokens j then MASK else t).
Proof.
  intros Hadj Hj. rewrite (mask_tokens_lookup _ _ _ Hj). f_equal.
  destruct j as [|i]; [done|]. simpl.
  destruct (decide (tokens !! i = Some "--license")) as [Hi|Hi].
  - rewrite (bool_decide_eq_true_2 _ Hi).
    rewrite bool_decide_eq_true_2; [done|].
    rewrite (mask_tokens_lookup _ _ _ Hi).
    destruct i as [|i']; [done|]. simpl.
    rewrite bool_decide_eq_false_2; [done|].
    intros Hprev%mask_tokens_license_inv. by apply (Hadj i').
  - rewrite (bool_decide_eq_false_2 _ Hi).
    rewrite bool_decide_eq_false_2; [done|].
    intros ?%mask_tokens_license_inv. done.
Qed.

Lemma mask_tokens_no_license tokens :
  "--license" ∉ tokens → mask_tokens tokens = tokens.
Proof.
  induction tokens as [|token rest IH]; [done|].
  intros [Hne Hrest]%not_elem_of_cons. simpl.
  apply not_eq_sym, String.eqb_neq in Hne. rewrite Hne.
  by rewrite IH.
Qed.

(** X24.  Called on a reference to a list of tokens,
    [mask_sensitive] returns a reference to a new list object, distinct from
    every object that existed before (the argument among them), and leaves
    every existing object as it was: re-reading the argument after the call
    yields the original tokens.  The new list has the length of the
    argument; each of its tokens that comes immediately after a [--license]
    token of the new list is the mask ["******"], and every other token is
    the token of the argument at that position.  When no two [--license]
    tokens are adjacent in the argument this is: the token after every
    [--license] token of the argument is masked, everything else is kept.
    A command without any [--license] token is returned token for token, in
    a new object. *)
Theorem mask_sensitive_spec (h : gmap loc (list string)) (command : loc)
        (tokens : list string) :
  h !! command = Some tokens →
  ∃ masked out,
    mask_sensitive command h = Some (masked, <[masked := out]> h)
    ∧ h !! masked = None
    ∧ masked ≠ command
    ∧ (<[masked := out]> h) !! command = Some tokens
    ∧ length out = length tokens
    ∧ (∀ j t, tokens !! j = Some t →
              out !! j = Some (if follows_license out j then MASK else t))
    ∧ (no_adjacent_license tokens →
       ∀ j t, tokens !! j = Some t →
              out !! j = Some (if follows_license tokens j then MASK else t))
    ∧ ("--license" ∉ tokens → out = tokens).
Proof.
  intros Hc. exists (fresh (dom h)), (mask_tokens tokens).
  assert (h !! fresh (dom h) = None) as Hfresh
    by (apply not_elem_of_dom, is_fresh).
  assert (fresh (dom h) ≠ command) as Hne by congruence.
  split; [by apply mask_sensitive_eq|].
  split; [done|]. split; [done|].
  split; [by rewrite lookup_insert_ne|].
  split; [apply mask_tokens_length|].
  split; [apply mask_tokens_lookup|].
  split; [intros; by apply mask_tokens_no_adjacent|].
  apply mask_tokens_no_license.
Qed.

Lemma mask_sensitive_spec_witness :
  let h : gmap loc (list string) :=
    {[ 1%positive := ["MigratorXpress"; "--license"; "SECRET-KEY-123"] ]} in
  h !! 1%positive = Some ["MigratorXpress"; "--license"; "SECRET-KEY-123"]
  ∧ ∃ masked out,
      mask_sensitive 1%positive h = Some (masked, <[masked := out]> h)
      ∧ h !! masked = None
      ∧ masked ≠ 1%positive
      ∧ (<[masked := out]> h) !! 1%positive
        = Some ["MigratorXpress"; "--license"; "SECRET-KEY-123"]
      ∧ length out = 3%nat
      ∧ out = ["MigratorXpress"; "--license"; "******"].
Proof.
  intros h. split; [reflexivity|].
  destruct (mask_sensitive_spec h 1%positive
              ["MigratorXpress"; "--license"; "SECRET-KEY-123"] eq_refl)
    as (masked & out & Hrun & Hnew & Hne & Hkept & Hlen & _ & Hmask & _).
  exists masked, out. repeat (split; [done|]).
  assert (no_adjacent_license ["MigratorXpress"; "--license"; "SECRET-KEY-123"])
    as Hadj by (intros [|[|[|i]]]; done).
  pose proof (Hmask Hadj 0%nat _ eq_refl) as H0.
  pose proof (Hmask Hadj 1%nat _ eq_refl) as H1.
  pose proof (Hmask Hadj 2%nat _ eq_refl) as H2.
  destruct out as [|a [|b [|c [|]]]]; try done.
  vm_compute in H0, H1, H2. congruence.
Defined.

(** The claim fails when two [--license] tokens are adjacent: the second
    one is overwritten before the loop reaches it, and the token after it is
    kept. *)
Lemma mask_sensitive_adjacent_license :
  ¬ (∀ (h : gmap loc (list string)) command tokens masked h',
       h !! command = Some tokens →
       mask_sensitive command h = Some (masked, h') →
       ∃ out, h' !! masked = Some out
              ∧ ∀ j t, tokens !! j = Some t →
                       out !! j
                       = Some (if follows_license tokens j then MASK else t)).
Proof.
  intros Hclaim.
  set (tokens := ["--license"; "--license"; "x"]).
  set (h := {[ 1%positive := tokens ]} : gmap loc (list string)).
  assert (h !! 1%positive = Some tokens) as Hc by reflexivity.
  pose proof (mask_sensitive_eq _ _ _ Hc) as Hrun.
  destruct (Hclaim _ _ _ _ _ Hc Hrun) as (out & Hout & Hmask).
  rewrite lookup_insert_eq in Hout. injection Hout as <-.
  specialize (Hmask 2%nat "x" eq_refl). vm_compute in Hmask. done.
Qed.

Lemma mask_sensitive_result command tokens (h : gmap loc (list string)) :
  h !! command = Some tokens →
  ∃ masked h',
    mask_sensitive command h = Some (masked, h')
    ∧ h' !! masked = Some (mask_tokens tokens)
    ∧ h' !! command = Some tokens.
Proof.
  intros Hc.
  assert (h !! fresh (dom h) = None) as Hfresh
    by (apply not_elem_of_dom, is_fresh).
  assert (fresh (dom h) ≠ command) as Hne by congruence.
  eexists _, _. split; [by apply mask_sensitive_eq|].
  split; [by rewrite lookup_insert_eq|by rewrite lookup_insert_ne].
Qed.

(** C4.  The claim fails on a command the program builds from a valid
    parameter set.  With [log_dir = "--license"] and a licence key, the
    command ends with [--log_dir --license --license KEY]: the token after
    the second [--license], the key, immediately follows a [--license] token
    and is returned as it is, not as the mask.  The loop of [mask_sensitive]
    enumerates the copy it is writing to, so the second [--license] has
    been overwritten by the mask when the loop reaches it.  The argument is
    not altered. *)
Theorem mask_sensitive_leaves_key :
  let p := with_str_field "license" (Some "SECRET-KEY-123")
             (with_str_field "log_dir" (Some "--license") scenario_params) in
  let command := build_command example_builder p in
  let h : gmap loc (list string) := {[ 1%positive := command ]} in
  passes (Validators.validate p) = true
  ∧ command
    = build_command example_builder scenario_params
        ++ ["--log_dir"; "--license"; "--license"; "SECRET-KEY-123"]
  ∧ ∃ masked h',
      mask_sensitive 1%positive h = Some (masked, h')
      ∧ h' !! masked
        = Some (build_command example_builder scenario_params
                  ++ ["--log_dir"; "--license"; "******"; "SECRET-KEY-123"])
      ∧ h' !! 1%positive = Some command.
Proof.
  intros p command h. split; [reflexivity|]. split; [reflexivity|].
  destruct (mask_sensitive_result 1%positive command h eq_refl)
    as (masked & h' & Hrun & Hmasked & Hkept).
  exists masked, h'. split; [exact Hrun|]. split; [|exact Hkept].
  rewrite Hmasked. reflexivity.
Qed.

(** ** C5: the outcomes of [execute_command] *)

Lemma string_length_app (s t : string) :
  String.length (s ++ t)%string = (String.length s + String.length t)%nat.
Proof.
  induction s as [|c s IH]; [done|].
  change (S (String.length (s ++ t)%string)
          = S (String.length s + String.length t)).
  by rewrite IH.
Qed.

Lemma string_app_inv_tail (s1 s2 t : string) :
  (s1 ++ t = s2 ++ t)%string → s1 = s2.
Proof.
  revert s2. induction s1 as [|c s1 IH]; intros [|c2 s2] H.
  - done.
  - apply (f_equal String.length) in H.
    rewrite !string_length_app in H. simpl in H. lia.
  - apply (f_equal String.length) in H.
    rewrite !string_length_app in H. simpl in H. lia.
  - change (String c (s1 ++ t) = String c2 (s2 ++ t))%string in H.
    injection H as -> H. by rewrite (IH _ H).
Qed.

(** The message of a timeout determines the timeout it was raised for. *)
Lemma timeout_message_inj (t1 t2 : Z) :
  ("Execution timed out after " ++ pretty t1 ++ " seconds")%string
  = ("Execution timed out after " ++ pretty t2 ++ " seconds")%string →
  t1 = t2.
Proof.
  intros H. apply (inj (String.app _)) in H.
  apply string_app_inv_tail in H. by apply (inj pretty) in H.
Qed.

(** C5.  [execute_command] asks for exactly one process.  Its result is
    decided by what [subprocess.run] does, and by nothing else (not by
    whether the log could be written):
    - the process completes, with any return code: the triple
      [(returncode, stdout, stderr)] is returned, nothing is raised;
    - the timeout expires: a [MigratorXpressError] is raised whose message
      carries the timeout the call was given and whose cause is the
      [TimeoutExpired]; no triple is returned;
    - any other exception: a [MigratorXpressError] is raised whose message
      carries the text of the exception and whose cause is the exception.
    So an error is raised exactly when [subprocess.run] raises. *)
Theorem execute_command_outcomes (run : OS) (log_writable : string → bool)
        (command : list string) (timeout : Z) (log_dir : option string)
        (w : World) :
  let '(result, w') :=
    execute_command run log_writable command timeout log_dir w in
  spawned w' = spawned w ++ [command]
  ∧ match run command timeout with
    | Completed returncode stdout stderr =>
        result = inr (returncode, stdout, stderr)
    | Raised (TimeoutExpired msg) =>
        result = inl (mkError ("Execution timed out after " ++ pretty timeout
                               ++ " seconds")%string
                              (Some (TimeoutExpired msg)))
    | Raised e =>
        result = inl (mkError ("Execution failed: " ++ exception_message e)%string
                              (Some e))
    end
  ∧ ((∃ err, result = inl err) ↔ ∃ e, run command timeout = Raised e)
  ∧ (∀ other_timeout err,
       result = inl err →
       message err = ("Execution timed out after " ++ pretty other_timeout
                      ++ " seconds")%string →
       (∃ msg, run command timeout = Raised (TimeoutExpired msg)) →
       other_timeout = timeout)
  ∧ (∀ log_writable',
       (execute_command run log_writable' command timeout log_dir w).1
       = result).
Proof.
  unfold execute_command.
  destruct (run command timeout) as [returncode stdout stderr|e] eqn:Hrun.
  - cbv zeta. repeat split.
    + destruct log_dir as [d|]; [|done]. unfold _save_execution_log.
      by destruct (log_writable d).
    + intros [err [=]].
    + intros [e [=]].
    + intros ? ? [=].
  - destruct e as [msg|msg|msg]; cbv zeta; (repeat split; eauto).
    + intros other_timeout err [= <-] Hmsg _. simpl in Hmsg.
      symmetry. by apply timeout_message_inj.
    + intros ? ? _ _ [? [=]].
    + intros ? ? _ _ [? [=]].
Qed.

(** ** C6: execution is gated by the confirmation *)

(** C6, as amended.  For every [execute_command] request and every state of
    the server:
    - an absent confirmation counts as a false one;
    - when the confirmation is absent or false in Python's sense, the
      handler asks for no process and writes no log (the world is left as it
      was); it returns the safety message when the command builder was
      initialised, and the binary-not-found error, which it checks first,
      when it was not;
    - whenever the world changes (a process is asked for), the builder is
      there and the confirmation is true in Python's sense, which for a
      boolean means that it is [true]. *)
Theorem execution_is_gated (run : OS) (log_writable : string → bool)
        (timeout : Z) (log_dir : string)
        (shlex_split : string → string + list string)
        (command_builder : option CommandBuilder)
        (arguments : gmap string JValue) (w : World) :
  let confirmation := get arguments "confirmation" (JBool false) in
  let '(outcome, w') :=
    handle_execute_command run log_writable timeout log_dir shlex_split
                           command_builder arguments w in
  (arguments !! "confirmation" = None → truthy confirmation = false)
  ∧ (truthy confirmation = false →
     w' = w
     ∧ match command_builder with
       | Some _ => outcome = Returns execution_blocked_text
       | None =>
           outcome = Returns "Error: MigratorXpress binary not found. Please check MIGRATORXPRESS_PATH."
       end)
  ∧ (w' ≠ w →
     is_Some command_builder ∧ truthy confirmation = true
     ∧ ∀ b, confirmation = JBool b → b = true).
Proof.
  intros confirmation. unfold handle_execute_command.
  fold confirmation.
  assert (arguments !! "confirmation" = None → truthy confirmation = false)
    as Habsent.
  { intros H. unfold confirmation, get. by rewrite H. }
  destruct command_builder as [builder|]; [|by repeat split].
  destruct (truthy confirmation) eqn:Hconf; simpl.
  - destruct (truthy (get arguments "command" (JStr ""))); simpl;
      [|by repeat split].
    destruct (get arguments "command" (JStr "")) as [| | | |text| |];
      try by repeat split.
    destruct (shlex_split text) as [msg|command]; [by repeat split|].
    destruct (execute_command _ _ _ _ _ _) as [[err|[[rc out] err]] w'];
      (split; [done|]); (split; [done|]); intros _;
      (split; [by eexists|]); (split; [done|]);
      intros b Hb; by rewrite Hb in Hconf.
  - by repeat split.
Qed.

(** The claim as first stated fails when the builder was not initialised:
    the handler then returns its binary-not-found error, not the safety
    message, before it looks at the confirmation. *)
Lemma execution_blocked_needs_builder :
  ¬ (∀ (run : OS) (log_writable : string → bool) (timeout : Z)
       (log_dir : string) (shlex_split : string → string + list string)
       (command_builder : option CommandBuilder)
       (arguments : gmap string JValue) (w : World),
       truthy (get arguments "confirmation" (JBool false)) = false →
       (handle_execute_command run log_writable timeout log_dir shlex_split
                               command_builder arguments w).1
       = Returns execution_blocked_text).
Proof.
  intros Hclaim.
  specialize (Hclaim (λ _ _, Completed 0 "" "") (λ _, true) 3600 "./logs"
                     (λ s, inr [s]) None
                     {[ "confirmation" := JBool false ]} initial_world
                     eq_refl).
  discriminate Hclaim.
Qed.

(** ** C7: multi-value fields *)

Lemma occurrences_app token (l1 l2 : list string) :
  occurrences token (l1 ++ l2)
  = (occurrences token l1 + occurrences token l2)%nat.
Proof. unfold occurrences. by rewrite filter_app, length_app. Qed.

Lemma occurrences_cons_eq token (l : list string) :
  occurrences token (token :: l) = S (occurrences token l).
Proof. unfold occurrences. rewrite filter_cons. by rewrite decide_True. Qed.

(** Replacing an empty group by [segment] inserts [segment] in the
    concatenation, at the place where the groups before it end. *)
Lemma concat_insert_segment (groups : list (list string)) k segment :
  groups !! k = Some [] →
  let n := length (concat (take k groups)) in
  concat (<[k := segment]> groups)
  = take n (concat groups) ++ segment ++ drop n (concat groups).
Proof.
  intros Hk n.
  assert (k < length groups)%nat as Hlt by (by eapply lookup_lt_Some).
  rewrite <- (take_drop_middle groups k [] Hk) at 1 2 3.
  rewrite insert_app_r_alt by (rewrite length_take; lia).
  rewrite length_take, Nat.min_l, Nat.sub_diag by lia. simpl.
  rewrite !concat_app. simpl.
  rewrite take_app_length', drop_app_length' by done.
  done.
Qed.

Lemma with_list_field_same field name flag p :
  (field, name, flag) ∈ multi_value_fields →
  with_list_field name (field p) p = p.
Proof.
  unfold multi_value_fields. rewrite !elem_of_cons, elem_of_nil.
  intros [[= -> -> ->]|[[= -> -> ->]|[[= -> -> ->]|[]]]]; by destruct p.
Qed.

(** The groups of a command whose multi-value field is set to a non-empty
    list are those of the command without the field, with the flag and the
    values in the place of the field's empty group. *)
Lemma segments_with_list_field self field name flag value values p :
  (field, name, flag) ∈ multi_value_fields →
  ∃ k, segments self (with_list_field name None p) !! k = Some []
       ∧ segments self (with_list_field name (Some (value :: values)) p)
         = <[k := flag :: value :: values]>
             (segments self (with_list_field name None p)).
Proof.
  unfold multi_value_fields. rewrite !elem_of_cons, elem_of_nil.
  intros [[= -> -> ->]|[[= -> -> ->]|[[= -> -> ->]|[]]]].
  - by exists 9%nat.
  - by exists 25%nat.
  - by exists 26%nat.
Qed.

(** The tasks of a valid parameter set are task names, so none of them is
    the flag. *)
Lemma first_invalid_task_none ts :
  Validators.first_invalid_task ts = None →
  Forall (λ t, t ∈ Validators.valid_tasks) ts.
Proof.
  induction ts as [|t ts IH]; simpl; [by constructor|].
  destruct (bool_decide (t ∈ Validators.valid_tasks)) eqn:Ht; [|done].
  apply bool_decide_eq_true in Ht.
  intros H. constructor; [done|by apply IH].
Qed.

Lemma valid_task_list_no_flag p ts :
  passes (Validators.validate p) = true → task_list p = Some ts →
  occurrences "--task_list" ts = 0%nat.
Proof.
  unfold Validators.validate, Validators.validate_task_list_values.
  intros Hv Hts. rewrite Hts in Hv.
  destruct (Validators.first_invalid_task ts) eqn:Hfirst; [done|].
  apply first_invalid_task_none in Hfirst. clear Hv Hts.
  unfold occurrences. induction Hfirst as [|t ts Ht _ IH]; [done|].
  rewrite filter_cons. rewrite decide_False; [done|].
  intros ->. revert Ht. by vm_compute.
Qed.

(** The group of a multi-value field set to a non-empty list is the flag and
    the values; the groups before and after it are those of the command
    without the field, whose own group at that place is empty. *)
Lemma segments_at_place self field name flag value values p :
  (field, name, flag) ∈ multi_value_fields →
  field p = Some (value :: values) →
  let k := multi_value_place name in
  let p0 := with_list_field name None p in
  segments self p !! k = Some (flag :: value :: values)
  ∧ segments self p0 !! k = Some []
  ∧ take k (segments self p0) = take k (segments self p)
  ∧ drop (S k) (segments self p0) = drop (S k) (segments self p).
Proof.
  unfold multi_value_fields. rewrite !elem_of_cons, elem_of_nil.
  intros [[= -> -> ->]|[[= -> -> ->]|[[= -> -> ->]|[]]]] Hvalues;
    cbv zeta; (split; [|by repeat split]);
    cbn [multi_value_place String.eqb Ascii.eqb Bool.eqb];
    unfold segments; cbn [lookup list_lookup]; by rewrite Hvalues.
Qed.

Lemma concat_take_drop_middle (groups : list (list string)) k segment :
  groups !! k = Some segment →
  concat groups
  = concat (take k groups) ++ segment ++ concat (drop (S k) groups).
Proof.
  intros Hk. rewrite <- (take_drop_middle groups k segment Hk) at 1.
  by rewrite concat_app.
Qed.

(** C7, as amended.  For every parameter set in which a multi-value field
    (task list, forced-int-id prefixes, forced-int-id suffixes) is set to a
    non-empty list, the group of tokens [build_command] emits at the place
    of the field is the field's flag and then each of its values, one token
    each and in the given order.  The built command is the tokens of the
    statements before the field's, then this run, then the tokens of the
    statements after it; the command of the same parameter set without the
    field is the same tokens before followed by the same tokens after.  The
    builder thus emits the flag once: the flag token occurs in the command
    once more than it occurs among the values and the tokens of the other
    fields together, hence exactly once when none of those equals it.  None
    of the tasks of a valid parameter set equals the task-list flag. *)
Theorem multi_value_flag_once (self : CommandBuilder) (p : MigrationParams)
        (field : MigrationParams → option (list string)) (name flag : string)
        (values : list string) :
  (field, name, flag) ∈ multi_value_fields →
  field p = Some values → values ≠ [] →
  let cmd := build_command self p in
  let cmd0 := build_command self (with_list_field name None p) in
  let k := multi_value_place name in
  let before := concat (take k (segments self p)) in
  let after := concat (drop (S k) (segments self p)) in
  segments self p !! k = Some (flag :: values)
  ∧ cmd = before ++ flag :: values ++ after
  ∧ cmd0 = before ++ after
  ∧ (∃ n, cmd = take n cmd0 ++ flag :: values ++ drop n cmd0)
  ∧ occurrences flag cmd
    = (1 + occurrences flag values + occurrences flag cmd0)%nat
  ∧ (occurrences flag values = 0%nat → occurrences flag cmd0 = 0%nat →
     occurrences flag cmd = 1%nat)
  ∧ (passes (Validators.validate p) = true → name = "task_list" →
     occurrences flag values = 0%nat).
Proof.
  intros Hfield Hvalues Hne cmd cmd0 k before after.
  destruct values as [|value values]; [done|].
  destruct (segments_at_place self _ _ _ value values p Hfield Hvalues)
    as (Hgroup & Hempty & Htake & Hdrop).
  fold k in Hgroup, Hempty, Htake, Hdrop.
  assert (cmd = before ++ flag :: (value :: values) ++ after) as Hcmd.
  { unfold cmd. rewrite build_command_concat.
    by rewrite (concat_take_drop_middle _ k _ Hgroup). }
  assert (cmd0 = before ++ after) as Hcmd0.
  { unfold cmd0. rewrite build_command_concat.
    rewrite (concat_take_drop_middle _ k _ Hempty).
    by rewrite Htake, Hdrop. }
  assert (occurrences flag cmd
          = (1 + occurrences flag (value :: values) + occurrences flag cmd0)%nat)
    as Hocc.
  { rewrite Hcmd, Hcmd0.
    rewrite !occurrences_app, occurrences_cons_eq, occurrences_app. lia. }
  split; [done|]. split; [done|]. split; [done|].
  split.
  { exists (length before). rewrite Hcmd, Hcmd0.
    by rewrite take_app_length, drop_app_length. }
  split; [done|]. split; [lia|].
  intros Hvalid ->.
  unfold multi_value_fields in Hfield.
  rewrite !elem_of_cons, elem_of_nil in Hfield.
  destruct Hfield as [[= -> ->]|[[=]|[[=]|[]]]].
  by eapply valid_task_list_no_flag.
Qed.

Lemma multi_value_flag_once_witness :
  let p0 := with_str_field "resume" (Some "RUN1")
              (with_str_field "source_schema_name" (Some "dbo")
                              scenario_params) in
  let p := with_list_field "task_list"
                           (Some ["translate"; "create"; "transfer"]) p0 in
  let cmd := build_command example_builder p in
  let required :=
    ["/opt/MigratorXpress"; "-a"; "auth.json"; "--source_db_auth_id"; "s";
     "--source_db_name"; "d1"; "--target_db_auth_id"; "t";
     "--target_db_name"; "d2"; "--migration_db_auth_id"; "m"] in
  ((task_list, "task_list", "--task_list") ∈ multi_value_fields
   ∧ task_list p = Some ["translate"; "create"; "transfer"]
   ∧ ["translate"; "create"; "transfer"] ≠ [])
  ∧ cmd = (required ++ ["--source_schema_name"; "dbo"])
            ++ "--task_list" :: ["translate"; "create"; "transfer"]
            ++ ["-r"; "RUN1"]
  ∧ build_command example_builder p0
    = (required ++ ["--source_schema_name"; "dbo"]) ++ ["-r"; "RUN1"]
  ∧ occurrences "--task_list" cmd = 1%nat.
Proof.
  intros p0 p cmd required.
  assert ((task_list, "task_list", "--task_list") ∈ multi_value_fields)
    as Hfield by (by left).
  assert (["translate"; "create"; "transfer"] ≠ []) as Hne by done.
  split; [done|].
  destruct (multi_value_flag_once example_builder p _ _ _ _ Hfield eq_refl Hne)
    as (_ & Hcmd & Hcmd0 & _ & _ & Honce & _).
  split; [exact Hcmd|]. split; [exact Hcmd0|]. by apply Honce.
Defined.

(** The claim as first stated fails, also when it is read for non-empty
    lists only: with [forced_int_id_prefixes = ["--forced_int_id_prefixes"]]
    the parameter set is valid and the flag token occurs twice in the
    command, once as the flag and once as its value. *)
Lemma multi_value_flag_not_always_once :
  ¬ (∀ (self : CommandBuilder) (p : MigrationParams)
       (field : MigrationParams → option (list string)) (name flag : string)
       (values : list string),
       (field, name, flag) ∈ multi_value_fields →
       passes (Validators.validate p) = true →
       field p = Some values → values ≠ [] →
       occurrences flag (build_command self p) = 1%nat
       ∧ has_run flag values (build_command self p)).
Proof.
  intros Hclaim.
  destruct (Hclaim example_builder
                   (with_list_field "forced_int_id_prefixes"
                                    (Some ["--forced_int_id_prefixes"])
                                    scenario_params)
                   forced_int_id_prefixes "forced_int_id_prefixes"
                   "--forced_int_id_prefixes" ["--forced_int_id_prefixes"])
    as [Honce _]; [right; by left|done|done|done|].
  vm_compute in Honce. done.
Qed.

(** A multi-value field set to the empty list is valid and leaves no token
    in the command. *)
Example empty_task_list_emits_nothing :
  let p := with_list_field "task_list" (Some []) scenario_params in
  passes (Validators.validate p) = true
  ∧ occurrences "--task_list" (build_command example_builder p) = 0%nat
  ∧ build_command example_builder p
    = build_command example_builder scenario_params.
Proof. repeat split. Qed.

(** ** C8 and C9: the cross-field validators *)

(** A validator that passes returns the model it was given. *)
Lemma validate_task_list_values_valid p p' :
  Validators.validate_task_list_values p = Valid p' → p' = p.
Proof.
  unfold Validators.validate_task_list_values.
  destruct (task_list p) as [ts|]; [|congruence].
  destruct (Validators.first_invalid_task ts); [done|].
  destruct (_ && _); congruence.
Qed.

Lemma validate_string_booleans_valid p p' :
  Validators.validate_string_booleans p = Valid p' → p' = p.
Proof.
  unfold Validators.validate_string_booleans.
  destruct (Validators.check_string_boolean _ (compute_nbrows p)); [done|].
  destruct (Validators.check_string_boolean _ (drop_tables_if_exists p));
    congruence.
Qed.

Lemma validate_license_valid p p' :
  Validators.validate_license_mutual_exclusivity p = Valid p' → p' = p.
Proof.
  unfold Validators.validate_license_mutual_exclusivity.
  destruct (license p), (license_file p); congruence.
Qed.

(** The whole validation passes exactly when the three validators do. *)
Lemma validate_passes p :
  passes (Validators.validate p)
  = passes (Validators.validate_task_list_values p)
    && passes (Validators.validate_string_booleans p)
    && passes (Validators.validate_license_mutual_exclusivity p).
Proof.
  unfold Validators.validate.
  destruct (Validators.validate_task_list_values p) as [p1|] eqn:H1; [|done].
  apply validate_task_list_values_valid in H1 as ->.
  destruct (Validators.validate_string_booleans p) as [p2|] eqn:H2; [|done].
  by apply validate_string_booleans_valid in H2 as ->.
Qed.

Lemma validate_valid p p' : Validators.validate p = Valid p' → p' = p.
Proof.
  unfold Validators.validate.
  destruct (Validators.validate_task_list_values p) as [p1|] eqn:H1; [|done].
  apply validate_task_list_values_valid in H1 as ->.
  destruct (Validators.validate_string_booleans p) as [p2|] eqn:H2; [|done].
  apply validate_string_booleans_valid in H2 as ->.
  apply validate_license_valid.
Qed.

Lemma contains_elem_of x xs : Validators.contains x xs = true ↔ x ∈ xs.
Proof.
  unfold Validators.contains. rewrite existsb_exists. split.
  - intros (y & Hy & ->%String.eqb_eq). by apply list_elem_of_In.
  - intros Hx. exists x. split; [by apply list_elem_of_In|apply String.eqb_refl].
Qed.

(** C8.  If the task list of a parameter set contains ["all"] and some other
    task, the task-list validator raises, and so the validation of the
    parameter set fails.  If the task list is exactly [["all"]], the
    task-list validator passes, and the validation of the parameter set
    passes whenever the two other validators do; it passes for the minimal
    parameter set with that task list. *)
Theorem all_task_exclusive (p : MigrationParams) :
  (∀ ts other,
     task_list p = Some ts → "all" ∈ ts → other ∈ ts → other ≠ "all" →
     passes (Validators.validate_task_list_values p) = false
     ∧ passes (Validators.validate p) = false)
  ∧ (task_list p = Some ["all"] →
     Validators.validate_task_list_values p = Valid p
     ∧ passes (Validators.validate p)
       = passes (Validators.validate_string_booleans p)
         && passes (Validators.validate_license_mutual_exclusivity p))
  ∧ (let alone := with_list_field "task_list" (Some ["all"]) scenario_params in
     Validators.validate alone = Valid alone).
Proof.
  split; [|split].
  - intros ts other Hts Hall Hother Hne.
    assert (passes (Validators.validate_task_list_values p) = false) as Hfail.
    { unfold Validators.validate_task_list_values. rewrite Hts.
      destruct (Validators.first_invalid_task ts); [done|].
      apply contains_elem_of in Hall. rewrite Hall.
      assert ((1 <? Z.of_nat (length ts)) = true) as ->; [|done].
      apply Z.ltb_lt.
      destruct ts as [|a [|b ts]]; simpl; [| |lia].
      - by apply elem_of_nil in Hother.
      - apply contains_elem_of in Hall.
        apply list_elem_of_singleton in Hall, Hother. congruence. }
    split; [done|]. by rewrite validate_passes, Hfail.
  - intros Hts. split.
    + unfold Validators.validate_task_list_values. by rewrite Hts.
    + rewrite validate_passes.
      unfold Validators.validate_task_list_values. by rewrite Hts.
  - reflexivity.
Qed.

Lemma all_task_exclusive_witness :
  let mixed := with_list_field "task_list" (Some ["all"; "translate"])
                               scenario_params in
  let alone := with_list_field "task_list" (Some ["all"]) scenario_params in
  (task_list mixed = Some ["all"; "translate"]
   ∧ "all" ∈ ["all"; "translate"] ∧ "translate" ∈ ["all"; "translate"]
   ∧ "translate" ≠ "all"
   ∧ passes (Validators.validate mixed) = false)
  ∧ (task_list alone = Some ["all"]
     ∧ Validators.validate_task_list_values alone = Valid alone).
Proof.
  intros mixed alone. split.
  - assert ("all" ∈ ["all"; "translate"]) as Hall by (by left).
    assert ("translate" ∈ ["all"; "translate"]) as Hother by (right; by left).
    assert ("translate" ≠ "all") as Hne by done.
    repeat (split; [done|]).
    by destruct (proj1 (all_task_exclusive mixed) _ _ eq_refl Hall Hother Hne).
  - split; [done|].
    by destruct (proj1 (proj2 (all_task_exclusive alone)) eq_refl).
Defined.

(** C9.  If both [license] and [license_file] are set, the exclusivity
    validator raises, and so the validation of the parameter set fails.  If
    at most one of the two is set, the exclusivity validator passes; the
    minimal parameter set validates with either one set, and with
    neither. *)
Theorem license_mutually_exclusive (p : MigrationParams) :
  (∀ key file,
     license p = Some key → license_file p = Some file →
     passes (Validators.validate_license_mutual_exclusivity p) = false
     ∧ passes (Validators.validate p) = false)
  ∧ (license p = None ∨ license_file p = None →
     Validators.validate_license_mutual_exclusivity p = Valid p)
  ∧ (let with_key := with_str_field "license" (Some "ABC-123") scenario_params in
     let with_file :=
       with_str_field "license_file" (Some "/path/to/license") scenario_params in
     Validators.validate with_key = Valid with_key
     ∧ Validators.validate with_file = Valid with_file
     ∧ Validators.validate scenario_params = Valid scenario_params).
Proof.
  split; [|split].
  - intros key file Hkey Hfile.
    assert (passes (Validators.validate_license_mutual_exclusivity p) = false)
      as Hfail.
    { unfold Validators.validate_license_mutual_exclusivity.
      by rewrite Hkey, Hfile. }
    split; [done|]. rewrite validate_passes, Hfail. by rewrite andb_false_r.
  - unfold Validators.validate_license_mutual_exclusivity.
    intros [->| ->]; [done|]. by destruct (license p).
  - repeat split.
Qed.

Lemma license_mutually_exclusive_witness :
  let both :=
    with_str_field "license" (Some "ABC-123")
      (with_str_field "license_file" (Some "/path/to/license") scenario_params) in
  (license both = Some "ABC-123" ∧ license_file both = Some "/path/to/license"
   ∧ passes (Validators.validate both) = false)
  ∧ ((license scenario_params = None ∨ license_file scenario_params = None)
     ∧ Validators.validate_license_mutual_exclusivity scenario_params
       = Valid scenario_params).
Proof.
  intros both. split.
  - repeat (split; [done|]).
    by destruct (proj1 (license_mutually_exclusive both) _ _ eq_refl eq_refl).
  - assert (license scenario_params = None ∨ license_file scenario_params = None)
      as Hone by (by left).
    split; [done|].
    exact (proj1 (proj2 (license_mutually_exclusive scenario_params)) Hone).
Defined.

(** ** C10: which fields count as present *)

Lemma starts_with_app pattern after : starts_with pattern (pattern ++ after) = true.
Proof.
  induction pattern as [|a pattern IH]; [done|]. simpl.
  by rewrite String.eqb_refl.
Qed.

(** A run that is in the command is found by the search. *)
Lemma has_run_occurs flag values cmd :
  has_run flag values cmd → occurs_in (flag :: values) cmd = true.
Proof.
  intros (before & after & ->).
  induction before as [|b before IH].
  - change ([] ++ flag :: values ++ after)
      with ((flag :: values) ++ after).
    destruct values; simpl; by rewrite ?String.eqb_refl, ?starts_with_app.
  - change ((b :: before) ++ flag :: values ++ after)
      with (b :: (before ++ flag :: values ++ after)).
    cbn [occurs_in]. rewrite IH. apply orb_true_r.
Qed.

(** A group of the command is a run of the command. *)
Lemma has_run_segment flag values (groups : list (list string)) :
  (flag :: values) ∈ groups → has_run flag values (concat groups).
Proof.
  intros (before & after & ->)%list_elem_of_split.
  exists (concat before), (concat after).
  rewrite concat_app. reflexivity.
Qed.

Lemma with_str_field_same field name flag p :
  (field, name, flag) ∈ truthy_string_fields →
  with_str_field name (field p) p = p.
Proof.
  unfold truthy_string_fields. rewrite !elem_of_cons, elem_of_nil.
  intros H. repeat (destruct H as [[= -> -> ->]|H]; [by destruct p|]).
  done.
Qed.

(** The group of an optional string field is empty for the empty string as
    it is for an absent value; the same for a multi-value field and the
    empty list. *)
Lemma segments_empty_string self name field flag p :
  (field, name, flag) ∈ truthy_string_fields →
  segments self (with_str_field name (Some "") p)
  = segments self (with_str_field name None p).
Proof.
  unfold truthy_string_fields. rewrite !elem_of_cons, elem_of_nil.
  intros H. repeat (destruct H as [[= -> -> ->]|H]; [reflexivity|]).
  done.
Qed.

Lemma segments_empty_list self name field flag p :
  (field, name, flag) ∈ multi_value_fields →
  segments self (with_list_field name (Some []) p)
  = segments self (with_list_field name None p).
Proof.
  unfold multi_value_fields. rewrite !elem_of_cons, elem_of_nil.
  intros H. repeat (destruct H as [[= -> -> ->]|H]; [reflexivity|]).
  done.
Qed.

(** A field tested with [is not None] contributes its flag and its value.
    *)
Lemma int_field_run self p field flag n :
  (field, flag) ∈ int_fields → field p = Some n →
  has_run flag [pretty n] (build_command self p).
Proof.
  unfold int_fields. rewrite !elem_of_cons, elem_of_nil.
  intros H Hn. rewrite build_command_concat. apply has_run_segment.
  unfold segments.
  repeat (destruct H as [[= -> ->]|H];
          [rewrite Hn;
           repeat first [apply list_elem_of_here | apply list_elem_of_further]|]).
  done.
Qed.

Lemma float_field_run self p field flag x :
  (field, flag) ∈ float_fields → field p = Some x →
  has_run flag [PyFloat.str x] (build_command self p).
Proof.
  unfold float_fields. rewrite !elem_of_cons, elem_of_nil.
  intros H Hx. rewrite build_command_concat. apply has_run_segment.
  unfold segments.
  repeat (destruct H as [[= -> ->]|H];
          [rewrite Hx;
           repeat first [apply list_elem_of_here | apply list_elem_of_further]|]).
  done.
Qed.

Lemma string_boolean_run self p v :
  (compute_nbrows p = Some v →
   has_run "--compute_nbrows" [v] (build_command self p))
  ∧ (drop_tables_if_exists p = Some v →
     has_run "--drop_tables_if_exists" [v] (build_command self p)).
Proof.
  split; intros Hv; rewrite build_command_concat; apply has_run_segment;
    unfold segments; rewrite Hv;
    repeat first [apply list_elem_of_here | apply list_elem_of_further].
Qed.

(** A valid parameter set has no empty string-boolean. *)
Lemma valid_string_booleans p :
  passes (Validators.validate p) = true →
  compute_nbrows p ≠ Some "" ∧ drop_tables_if_exists p ≠ Some "".
Proof.
  rewrite validate_passes, !andb_true_iff. intros [[_ Hsb] _].
  unfold Validators.validate_string_booleans in Hsb.
  split; intros Hempty; rewrite Hempty in Hsb; simpl in Hsb; [done|].
  by destruct (Validators.check_string_boolean _ (compute_nbrows p)).
Qed.

(** C10, as amended.  For every parameter set and every builder:
    - an optional string field whose presence is decided by truth value and
      that is set to the empty string gives the command of the same
      parameter set with the field absent;
    - a multi-value field set to the empty list gives the command of the
      same parameter set with the field absent;
    - an optional integer field set to [0] puts its flag in the command,
      immediately followed by ["0"];
    - an optional floating-point field (the three profiling parameters) set
      to [0] puts its flag in the command, immediately followed by
      ["0.0"], the text of the float;
    - a string-boolean field that is set puts its flag in the command,
      immediately followed by its value, and in a valid parameter set that
      value is never the empty string. *)
Theorem presence_rules (self : CommandBuilder) (p : MigrationParams) :
  (∀ field name flag,
     (field, name, flag) ∈ truthy_string_fields → field p = Some "" →
     build_command self p = build_command self (with_str_field name None p))
  ∧ (∀ field name flag,
       (field, name, flag) ∈ multi_value_fields → field p = Some [] →
       build_command self p = build_command self (with_list_field name None p))
  ∧ (∀ field flag,
       (field, flag) ∈ int_fields → field p = Some 0 →
       has_run flag ["0"] (build_command self p))
  ∧ (∀ field flag,
       (field, flag) ∈ float_fields → field p = Some 0%float →
       has_run flag ["0.0"] (build_command self p))
  ∧ (∀ v, compute_nbrows p = Some v →
          has_run "--compute_nbrows" [v] (build_command self p))
  ∧ (∀ v, drop_tables_if_exists p = Some v →
          has_run "--drop_tables_if_exists" [v] (build_command self p))
  ∧ (passes (Validators.validate p) = true →
     compute_nbrows p ≠ Some "" ∧ drop_tables_if_exists p ≠ Some "").
Proof.
  repeat split.
  - intros field name flag Hfield Hempty.
    rewrite <- (with_str_field_same _ _ _ p Hfield) at 1. rewrite Hempty.
    rewrite !build_command_concat. f_equal.
    by eapply segments_empty_string.
  - intros field name flag Hfield Hempty.
    rewrite <- (with_list_field_same _ _ _ p Hfield) at 1. rewrite Hempty.
    rewrite !build_command_concat. f_equal.
    by eapply segments_empty_list.
  - intros field flag Hfield Hzero.
    by apply (int_field_run self p field flag 0).
  - intros field flag Hfield Hzero.
    by apply (float_field_run self p field flag 0%float).
  - intros v. apply string_boolean_run.
  - intros v. apply string_boolean_run.
  - by apply valid_string_booleans.
  - by apply valid_string_booleans.
Qed.

Lemma presence_rules_witness :
  let empty_resume := with_str_field "resume" (Some "") scenario_params in
  ((resume, "resume", "-r") ∈ truthy_string_fields
   ∧ resume empty_resume = Some ""
   ∧ build_command example_builder empty_resume
     = build_command example_builder scenario_params)
  ∧ ((profiling_sample_pc, "--profiling_sample_pc") ∈ float_fields
     ∧ profiling_sample_pc zero_sample_params = Some 0%float
     ∧ has_run "--profiling_sample_pc" ["0.0"]
               (build_command example_builder zero_sample_params)).
Proof.
  intros empty_resume. split.
  - assert ((resume, "resume", "-r") ∈ truthy_string_fields) as Hfield
      by (do 2 right; by left).
    repeat (split; [done|]).
    exact (proj1 (presence_rules example_builder empty_resume)
                 _ _ _ Hfield eq_refl).
  - assert ((profiling_sample_pc, "--profiling_sample_pc") ∈ float_fields)
      as Hfield by (by left).
    repeat (split; [done|]).
    exact (proj1 (proj2 (proj2 (proj2
             (presence_rules example_builder zero_sample_params))))
                 _ _ Hfield eq_refl).
Defined.

(** The claim as first stated fails for the floating-point fields: set to
    zero, a profiling parameter is followed by ["0.0"], not by ["0"]. *)
Lemma float_zero_is_not_0 :
  ¬ (∀ (self : CommandBuilder) (p : MigrationParams)
       (field : MigrationParams → option float) (flag : string),
       (field, flag) ∈ float_fields →
       passes (Validators.validate p) = true →
       field p = Some 0%float →
       has_run flag ["0"] (build_command self p)).
Proof.
  intros Hclaim.
  assert (has_run "--profiling_sample_pc" ["0"]
                  (build_command example_builder zero_sample_params)) as Hrun.
  { apply (Hclaim _ _ profiling_sample_pc); [by left|done|done]. }
  apply has_run_occurs in Hrun. vm_compute in Hrun. done.
Qed.

(** ** The outcomes and the gate on concrete requests *)

Lemma execute_command_outcomes_witness :
  let run : OS := λ _ _, Raised (TimeoutExpired "timed out") in
  (execute_command run (λ _, true) ["/opt/MigratorXpress"; "--help"] 1 None
                   initial_world).1
  = inl (mkError "Execution timed out after 1 seconds"
                 (Some (TimeoutExpired "timed out"))).
Proof.
  intros run.
  generalize (execute_command_outcomes run (λ _, true)
                ["/opt/MigratorXpress"; "--help"] 1 None initial_world).
  destruct (execute_command run (λ _, true) ["/opt/MigratorXpress"; "--help"]
                            1 None initial_world) as [result w'].
  intros (_ & H & _). exact H.
Defined.

Lemma execution_is_gated_witness :
  let run : OS := λ _ _, Completed 0 "done" "" in
  let request : gmap string JValue :=
    {[ "command" := JStr "/opt/MigratorXpress -a auth.json" ]} in
  request !! "confirmation" = None
  ∧ handle_execute_command run (λ _, true) 3600 "./logs" (λ s, inr [s])
                           (Some example_builder) request initial_world
    = (Returns execution_blocked_text, initial_world).
Proof.
  intros run request.
  assert (request !! "confirmation" = None) as Habsent by reflexivity.
  split; [exact Habsent|].
  generalize (execution_is_gated run (λ _, true) 3600 "./logs" (λ s, inr [s])
                (Some example_builder) request initial_world).
  destruct (handle_execute_command run (λ _, true) 3600 "./logs"
              (λ s, inr [s]) (Some example_builder) request initial_world)
    as [outcome w'].
  intros (Hfalse & Hblocked & _).
  destruct (Hblocked (Hfalse Habsent)) as [-> ->]. reflexivity.
Defined.

(** With a confirmation the same request runs the command, once. *)
Example confirmed_request_runs :
  let run : OS := λ _ _, Completed 0 "done" "" in
  let request : gmap string JValue :=
    {[ "command" := JStr "/opt/MigratorXpress -a auth.json";
       "confirmation" := JBool true ]} in
  spawned (handle_execute_command run (λ _, false) 3600 "./logs"
             (λ s, inr (String.words s)) (Some example_builder) request
             initial_world).2
  = [["/opt/MigratorXpress"; "-a"; "auth.json"]].
Proof. reflexivity. Qed.

(** ** The cases of the test suite *)

Example parse_full_version_string :
  Version.parse "migratorxpress 0.6.24" = Some (mkVersion 0 6 24)
  ∧ Version.parse "0.6.24" = Some (mkVersion 0 6 24)
  ∧ Version.parse "  MigratorXpress 0.6.24  " = Some (mkVersion 0 6 24)
  ∧ Version.parse "not a version" = None
  ∧ Version.parse "1.2" = None
  ∧ Version.to_string (mkVersion 0 6 24) = "0.6.24".
Proof. repeat split. Qed.

Example version_ordering :
  Version.lt (mkVersion 0 1 0) (mkVersion 0 6 0) = true
  ∧ Version.lt (mkVersion 0 6 0) (mkVersion 0 6 24) = true
  ∧ Version.lt (mkVersion 0 6 24) (mkVersion 0 7 0) = true
  ∧ Version.lt (mkVersion 0 7 0) (mkVersion 1 0 0) = true
  ∧ Version.le (mkVersion 0 6 24) (mkVersion 0 6 24) = true
  ∧ Version.lt (mkVersion 1 0 0) (mkVersion 0 7 0) = false.
Proof. repeat split. Qed.

(** Detection runs the probe once and keeps its result. *)
Example detect_success_and_caching :
  let run : OS := λ _ _, Completed 0 ("migratorxpress 0.6.24" ++ nl) "" in
  let '(v1, d1, w1) := detect run 10 (new_detector "/fake/binary") initial_world in
  let '(v2, d2, w2) := detect run 10 d1 w1 in
  v1 = Some (mkVersion 0 6 24) ∧ v2 = v1 ∧ d2 = d1
  ∧ spawned w2 = [["/fake/binary"; "--version"; "--no_banner"]].
Proof. repeat split. Qed.

Example detect_failures :
  (detect (λ _ _, Completed 0 "some random output" "") 10
          (new_detector "/fake/binary") initial_world).1.1 = None
  ∧ (detect (λ _ _, Raised (TimeoutExpired "timed out")) 10
            (new_detector "/fake/binary") initial_world).1.1 = None
  ∧ (detect (λ _ _, Raised (FileNotFoundError "No such file")) 10
            (new_detector "/fake/binary") initial_world).1.1 = None.
Proof. repeat split. Qed.

(** A builder cannot be made for a binary that is not there. *)
Example init_with_nonexistent_binary :
  (CommandBuilder_init (λ _ _, Raised (FileNotFoundError "No such file"))
                       (λ p, p) (λ _, mkStatus false false false)
                       "/nonexistent/path/MigratorXpress" initial_world)
  = (inl (mkError "MigratorXpress binary not found at: /nonexistent/path/MigratorXpress"
                  None),
     initial_world).
Proof. reflexivity. Qed.

Example task_list_nargs_plus :
  build_command example_builder
    (with_list_field "task_list" (Some ["translate"; "create"; "transfer"])
                     scenario_params)
  = [ "/opt/MigratorXpress"; "-a"; "auth.json"; "--source_db_auth_id"; "s";
      "--source_db_name"; "d1"; "--target_db_auth_id"; "t";
      "--target_db_name"; "d2"; "--migration_db_auth_id"; "m";
      "--task_list"; "translate"; "create"; "transfer" ].
Proof. reflexivity. Qed.

(** A value that is spelled like the flag makes the flag token occur twice
    in the command of a valid parameter set. *)
Example flag_spelled_value_occurs_twice :
  let p := with_list_field "forced_int_id_prefixes"
                           (Some ["--forced_int_id_prefixes"]) scenario_params in
  passes (Validators.validate p) = true
  ∧ occurrences "--forced_int_id_prefixes" (build_command example_builder p)
    = 2%nat.
Proof. split; reflexivity. Qed.

Example mask_and_display_license :
  let command :=
    build_command example_builder
      (with_str_field "license" (Some "SECRET-KEY-123") scenario_params) in
  mask_tokens command
  = [ "/opt/MigratorXpress"; "-a"; "auth.json"; "--source_db_auth_id"; "s";
      "--source_db_name"; "d1"; "--target_db_auth_id"; "t";
      "--target_db_name"; "d2"; "--migration_db_auth_id"; "m";
      "--license"; "******" ]
  ∧ format_command_display ["mx"; "-a"; "auth file.json"; "-f"; "--license"; "K"]
                           true
    = Some ("mx " ++ backslash ++ nl
            ++ "  -a " ++ dq ++ "auth file.json" ++ dq ++ " " ++ backslash ++ nl
            ++ "  -f " ++ backslash ++ nl
            ++ "  --license ******")%string.
Proof. split; reflexivity. Qed.

(** The text of a few floats. *)
Example float_texts :
  PyFloat.str 0%float = "0.0"
  ∧ PyFloat.str (-0)%float = "-0.0"
  ∧ PyFloat.str 0x1.999999999999ap-4%float = "0.1"
  ∧ PyFloat.str 0x1.1c37937e08p+53%float = "1e+16"
  ∧ PyFloat.str 0x1.4f8b588e368f1p-17%float = "1e-05".
Proof. repeat split; vm_compute; reflexivity. Qed.

(** The check, as rendered from its contract, warns about what the resolved
    capabilities do not list, and the preview is returned all the same. *)
Example check_warns_and_preview_is_returned :
  let request : gmap string JValue :=
    {[ "task_list" := JList [JStr "translate"; JStr "profile"] ]} in
  let caps := (default ("", empty_capabilities) (VERSION_REGISTRY !! 0%nat)).2 in
  check_version_compatibility request caps (Some (mkVersion 0 6 24))
  = ["Task 'profile' is not supported by MigratorXpress 0.6.24"].
Proof. vm_compute. reflexivity. Qed.

(** * Further properties of the code *)

(** ** [src/version.py] *)

(** X1.  The comparisons of [MigratorXpressVersion] form a strict total
    order that agrees with equality of the three fields: [<] is irreflexive
    and transitive, any two versions are equal or ordered one way, [==]
    holds exactly for equal fields, and the [<=] that [total_ordering]
    derives is the negation of the converse [<]. *)
Theorem version_order_total :
  (∀ a, Version.lt a a = false)
  ∧ (∀ a b c, Version.lt a b = true → Version.lt b c = true →
              Version.lt a c = true)
  ∧ (∀ a b, Version.lt a b = true ∨ a = b ∨ Version.lt b a = true)
  ∧ (∀ a b, Version.eq a b = true ↔ a = b)
  ∧ (∀ a b, Version.le a b = negb (Version.lt b a))
  ∧ (∀ a b, Version.le a b = true → Version.le b a = true → a = b).
Proof.
  assert (∀ a b, lex_lt a b → lex_lt b a → False) as Hasym.
  { unfold lex_lt. intros [] []; simpl. lia. }
  assert (∀ a b, lex_lt a b ∨ a = b ∨ lex_lt b a) as Htri.
  { unfold lex_lt. intros [a1 a2 a3] [b1 b2 b3]; simpl.
    destruct (decide (a1 = b1 ∧ a2 = b2 ∧ a3 = b3)) as [(-> & -> & ->)|];
      [by right; left|lia]. }
  repeat split.
  - intros a. apply not_true_is_false. rewrite lt_spec. intros H.
    by apply (Hasym a a).
  - intros a b c. rewrite !lt_spec. unfold lex_lt. lia.
  - intros a b. rewrite !lt_spec. apply Htri.
  - by apply eq_spec.
  - by intros ->%eq_spec.
  - intros a b. destruct (Version.lt b a) eqn:Hba; simpl.
    + apply not_true_is_false. rewrite le_spec.
      apply lt_spec in Hba. intros [Hab| ->]; by eapply Hasym.
    + by apply lt_false_le.
  - intros a b. rewrite !le_spec. intros [Hab| ->] [Hba|Heq]; try done.
    by destruct (Hasym a b).
Qed.

(** X2.  [detect] probes at most once per detector.  After any call the
    detector is marked done and holds the value returned; a second call,
    with any timeout, returns the same value and changes neither the
    detector nor the world.  The only process [detect] ever asks for is the
    binary with [--version --no_banner], it writes no log, and on a detector
    that is already done it asks for nothing. *)
Theorem detect_cached (run : OS) (timeout timeout' : Z)
        (self : VersionDetector) (w : World) :
  let '(v1, d1, w1) := detect run timeout self w in
  _detection_done d1 = true
  ∧ _detected_version d1 = v1
  ∧ _binary_path d1 = _binary_path self
  ∧ detect run timeout' d1 w1 = (v1, d1, w1)
  ∧ log_files w1 = log_files w
  ∧ (if _detection_done self then d1 = self ∧ w1 = w
     else spawned w1
          = spawned w ++ [[_binary_path self; "--version"; "--no_banner"]]).
Proof.
  unfold detect at 1. destruct (_detection_done self) eqn:Hdone.
  - unfold detect. rewrite Hdone. by repeat split.
  - destruct (run _ timeout) as [rc out err|e].
    + destruct (Probe.search _) as [[[a b] c]|]; by repeat split.
    + by repeat split.
Qed.

Lemma best_match_elem detected entries best caps :
  best_match detected entries best = Some caps →
  best = Some caps ∨ ∃ v, (v, caps) ∈ entries.
Proof.
  revert best. induction entries as [|[ver c] rest IH]; intros best; simpl.
  - by left.
  - destruct (Version.le ver detected); [|by left].
    intros [[= <-]|[v Hv]]%IH; right; [exists ver; by left|].
    exists v. by right.
Qed.

(** On a detector that is done, [capabilities] only reads. *)
Lemma capabilities_done run table self w :
  _detection_done self = true →
  ∃ caps, capabilities run table self w = (caps, self, w)
          ∧ (table ≠ [] → ∃ v, (v, caps) ∈ table).
Proof.
  intros Hdone. rewrite capabilities_unfold, Hdone.
  destruct table as [|first rest]; [by eexists|].
  assert (∃ v, (v, (List.last (first :: rest) first).2) ∈ first :: rest)
    as Hlast.
  { exists (List.last (first :: rest) first).1.
    rewrite <- surjective_pairing. apply last_elem_of. }
  destruct (_detected_version self) as [d|]; [|by eexists].
  destruct (best_match d (first :: rest) None) as [best|] eqn:Hbest;
    [|by eexists].
  eexists. split; [done|]. intros _.
  by destruct (best_match_elem _ _ _ _ Hbest).
Qed.

(** X3.  [capabilities] makes sure detection has run and is itself stable:
    after a call the detector is marked done, and a second call returns the
    same capability set without touching the detector or the world.  On a
    detector that is already done the first call already leaves detector and
    world as they are.  When the table is not empty the result is the
    capability set of one of its entries. *)
Theorem capabilities_stable (run : OS) (table : list RegistryEntry)
        (self : VersionDetector) (w : World) :
  let '(c1, d1, w1) := capabilities run table self w in
  _detection_done d1 = true
  ∧ capabilities run table d1 w1 = (c1, d1, w1)
  ∧ (_detection_done self = true → d1 = self ∧ w1 = w)
  ∧ (table ≠ [] → ∃ v, (v, c1) ∈ table).
Proof.
  destruct (_detection_done self) eqn:Hdone.
  - destruct (capabilities_done run table self w Hdone) as (caps & Hcaps & Hin).
    rewrite Hcaps. by repeat split.
  - pose proof (detect_cached run 10 10 self w) as Hdetect.
    assert (capabilities run table self w
            = let '(_, s, w') := detect run 10 self w in
              capabilities run table s w') as ->.
    { rewrite capabilities_unfold, Hdone.
      destruct (detect run 10 self w) as [[v s] w'].
      destruct Hdetect as (Hd & _).
      by rewrite (capabilities_unfold run table s), Hd. }
    destruct (detect run 10 self w) as [[v s] w'].
    destruct Hdetect as (Hd & _).
    destruct (capabilities_done run table s w' Hd) as (caps & Hcaps & Hin).
    rewrite Hcaps. by repeat split.
Qed.

(** ** Versions as text *)

Lemma string_app_assoc (s t u : string) :
  ((s ++ t) ++ u = s ++ (t ++ u))%string.
Proof.
  induction s as [|c s IH]; [done|].
  change (String c ((s ++ t) ++ u) = String c (s ++ (t ++ u)))%string.
  by rewrite IH.
Qed.

Lemma string_app_nil_r (s : string) : (s ++ "")%string = s.
Proof.
  induction s as [|c s IH]; [done|].
  change (String c (s ++ "") = String c s)%string. by rewrite IH.
Qed.

Lemma list_ascii_of_string_app (s t : string) :
  list_ascii_of_string (s ++ t)
  = list_ascii_of_string s ++ list_ascii_of_string t.
Proof.
  induction s as [|c s IH]; [done|].
  change (c :: list_ascii_of_string (s ++ t)
          = c :: (list_ascii_of_string s ++ list_ascii_of_string t)).
  by rewrite IH.
Qed.

Lemma all_chars_app p s t :
  all_chars p (s ++ t) ↔ all_chars p s ∧ all_chars p t.
Proof. unfold all_chars. rewrite list_ascii_of_string_app. apply Forall_app. Qed.

Lemma string_snoc (s : string) :
  s ≠ "" → ∃ p c, s = (p ++ String c "")%string.
Proof.
  induction s as [|a s IH]; [done|]. intros _.
  destruct s as [|b s'].
  - by exists "", a.
  - destruct IH as (p & c & ->); [done|]. by exists (String a p), c.
Qed.

Lemma rev_app_app (s t u : string) :
  String.rev_app (s ++ t) u = String.rev_app t (String.rev_app s u).
Proof.
  revert u. induction s as [|c s IH]; intros u; [done|].
  change (String.rev_app (s ++ t) (String c u)
          = String.rev_app t (String.rev_app s (String c u))).
  apply IH.
Qed.

Lemma rev_app_rev_app (s t u : string) :
  String.rev_app (String.rev_app s t) u = String.rev_app t (s ++ u).
Proof.
  revert t u. induction s as [|c s IH]; intros t u; [done|].
  simpl String.rev_app at 2. by rewrite IH.
Qed.

Lemma rev_involutive (s : string) : String.rev (String.rev s) = s.
Proof.
  unfold String.rev. rewrite rev_app_rev_app. simpl.
  apply string_app_nil_r.
Qed.

Lemma digit_not_space c : Text.is_digit c = true → Text.is_space c = false.
Proof.
  unfold Text.is_digit, Text.is_space. cbv zeta.
  generalize (N_of_ascii c). intros n Hn.
  apply andb_true_iff in Hn as [H1 H2].
  apply N.leb_le in H1. apply N.leb_le in H2.
  apply orb_false_iff. split; apply andb_false_iff.
  - right. apply N.leb_gt. lia.
  - right. apply N.leb_gt. lia.
Qed.

Lemma space_not_digit c : Text.is_space c = true → Text.is_digit c = false.
Proof.
  intros Hs. destruct (Text.is_digit c) eqn:Hd; [|done].
  apply digit_not_space in Hd. congruence.
Qed.

Lemma lstrip_head s : head_not Text.is_space s → Text.lstrip s = s.
Proof. destruct s as [|c s]; [done|]. simpl. by intros ->. Qed.

Lemma lstrip_rev_app_spaces ws s :
  all_chars Text.is_space ws →
  Text.lstrip (String.rev_app ws s) = Text.lstrip s.
Proof.
  revert s. induction ws as [|c ws IH]; intros s Hws; [done|].
  apply Forall_cons in Hws as [Hc Hws].
  simpl String.rev_app. rewrite IH by done. simpl. by rewrite Hc.
Qed.

Lemma rev_snoc body last :
  String.rev (body ++ String last "") = String last (String.rev body).
Proof. unfold String.rev. by rewrite rev_app_app. Qed.

Lemma rev_app_tail s tail :
  String.rev (s ++ tail) = String.rev_app tail (String.rev s).
Proof. unfold String.rev. by rewrite rev_app_app. Qed.

(** [strip] removes the white space after a text that neither starts nor
    ends with white space, and nothing else. *)
Lemma strip_trailing_spaces body last tail :
  head_not Text.is_space (body ++ String last "") →
  Text.is_space last = false →
  all_chars Text.is_space tail →
  Text.strip ((body ++ String last "") ++ tail) = (body ++ String last "")%string.
Proof.
  intros Hhead Hlast Htail. unfold Text.strip.
  rewrite lstrip_head.
  2:{ destruct (body ++ String last "")%string as [|c r] eqn:E; [|done].
      destruct body; discriminate. }
  unfold Text.rstrip.
  rewrite rev_app_tail, lstrip_rev_app_spaces by done.
  rewrite lstrip_head; [apply rev_involutive|].
  rewrite rev_snoc. exact Hlast.
Qed.

Lemma pretty_N_char_digit (n : N) :
  (n < 10)%N →
  Text.is_digit (pretty_N_char n) = true
  ∧ Z.of_N (N_of_ascii (pretty_N_char n)) - 48 = Z.of_N n.
Proof.
  intros Hn.
  assert (n = 0 ∨ n = 1 ∨ n = 2 ∨ n = 3 ∨ n = 4 ∨ n = 5 ∨ n = 6 ∨ n = 7
          ∨ n = 8 ∨ n = 9)%N as Hcases by lia.
  destruct_or!; subst n; by vm_compute.
Qed.

Lemma int_of_digits_snoc d c :
  Text.int_of_digits (d ++ String c "")
  = 10 * Text.int_of_digits d + (Z.of_N (N_of_ascii c) - 48).
Proof.
  unfold Text.int_of_digits.
  by rewrite list_ascii_of_string_app, fold_left_app.
Qed.

(** The decimal digits [pretty] writes in front of [s]: digits only, at
    least one for a positive number, and [int] reads the number back. *)
Lemma pretty_N_go_digits (x : N) (s : string) :
  ∃ d, pretty_N_go x s = (d ++ s)%string
       ∧ all_chars Text.is_digit d
       ∧ Text.int_of_digits d = Z.of_N x
       ∧ ((0 < x)%N → d ≠ "").
Proof.
  revert s. induction (N.lt_wf_0 x) as [x _ IH]. intros s.
  destruct (decide (x = 0%N)) as [->|Hx].
  - exists "". rewrite pretty_N_go_0. repeat split; [constructor|lia].
  - rewrite pretty_N_go_step by lia.
    destruct (IH (x `div` 10)%N) with
      (s := String (pretty_N_char (x `mod` 10)) s) as (d & -> & Hd & Hv & _).
    { apply N.div_lt; lia. }
    destruct (pretty_N_char_digit (x `mod` 10)%N) as [Hdigit Hvalue].
    { apply N.mod_lt. lia. }
    exists (d ++ String (pretty_N_char (x `mod` 10)) "")%string.
    split; [by rewrite string_app_assoc|]. split.
    { apply all_chars_app. split; [done|]. by repeat constructor. }
    split.
    { rewrite int_of_digits_snoc, Hv, Hvalue.
      pose proof (N.div_mod x 10). lia. }
    intros _. by destruct d.
Qed.

Lemma pretty_Z_digits (z : Z) :
  0 ≤ z →
  pretty z ≠ "" ∧ all_chars Text.is_digit (pretty z)
  ∧ Text.int_of_digits (pretty z) = z.
Proof.
  intros Hz. destruct z as [|p|p]; [by repeat constructor| |lia].
  change (pretty (Z.pos p)) with (pretty_N_go (N.pos p) "").
  destruct (pretty_N_go_digits (N.pos p) "") as (d & -> & Hd & Hv & Hne).
  rewrite string_app_nil_r. split; [apply Hne; lia|]. split; [done|].
  by rewrite Hv.
Qed.

Lemma span_all p d r :
  all_chars p d → head_not p r → Text.span p (d ++ r) = (d, r).
Proof.
  intros Hd Hr. induction d as [|c d IH].
  - destruct r as [|c r]; [done|]. simpl in *. by rewrite Hr.
  - apply Forall_cons in Hd as [Hc Hd].
    change (Text.span p (String c (d ++ r)) = (String c d, r)).
    simpl. by rewrite Hc, IH.
Qed.

Lemma search_triple_unfold s :
  Version.search_triple s
  = match Version.match_triple_at s with
    | Some t => Some t
    | None => match s with
              | "" => None
              | String _ s' => Version.search_triple s'
              end
    end.
Proof. by destruct s. Qed.

Lemma probe_search_unfold s :
  Probe.search s
  = match Probe.match_at s with
    | Some t => Some t
    | None => match s with
              | "" => None
              | String _ s' => Probe.search s'
              end
    end.
Proof. by destruct s. Qed.

(** The pattern [(\d+)\.(\d+)\.(\d+)] matches at the head of the text of a
    version, and its groups are the three numbers. *)
Lemma match_triple_at_to_string v r :
  non_negative v → head_not Text.is_digit r →
  Version.match_triple_at (Version.to_string v ++ r)
  = Some (major v, minor v, patch v).
Proof.
  intros (Ha & Hb & Hc) Hr.
  destruct (pretty_Z_digits _ Ha) as (Hane & Had & Hav).
  destruct (pretty_Z_digits _ Hb) as (Hbne & Hbd & Hbv).
  destruct (pretty_Z_digits _ Hc) as (Hcne & Hcd & Hcv).
  unfold Version.to_string, Version.match_triple_at.
  rewrite !string_app_assoc.
  rewrite span_all by done.
  destruct (pretty (major v)) as [|a0 a'] eqn:Ea; [done|].
  change ("." ++ ?x)%string with (String "." x). cbv beta iota.
  rewrite span_all by done.
  destruct (pretty (minor v)) as [|b0 b'] eqn:Eb; [done|].
  change ("." ++ ?x)%string with (String "." x). cbv beta iota.
  rewrite span_all by done.
  destruct (pretty (patch v)) as [|c0 c'] eqn:Ec; [done|].
  by rewrite Hav, Hbv, Hcv.
Qed.

Lemma to_string_ends v :
  non_negative v →
  head_not Text.is_space (Version.to_string v)
  ∧ ∃ body last, Version.to_string v = (body ++ String last "")%string
                 ∧ Text.is_space last = false.
Proof.
  intros (Ha & Hb & Hc).
  destruct (pretty_Z_digits _ Ha) as (Hane & Had & _).
  destruct (pretty_Z_digits _ Hc) as (Hcne & Hcd & _).
  unfold Version.to_string. split.
  - destruct (pretty (major v)) as [|a0 a']; [done|].
    apply Forall_cons in Had as [Ha0 _]. simpl. by apply digit_not_space.
  - destruct (string_snoc _ Hcne) as (p & c & Hp). rewrite Hp in Hcd |- *.
    apply all_chars_app in Hcd as [_ Hlast].
    apply Forall_cons in Hlast as [Hlast _].
    exists (pretty (major v) ++ "." ++ pretty (minor v) ++ "." ++ p)%string, c.
    split; [by rewrite !string_app_assoc|]. by apply digit_not_space.
Qed.

(** The search passes over characters that are not digits. *)
Lemma search_triple_skip pre s :
  all_chars (λ c, negb (Text.is_digit c)) pre →
  Version.search_triple (pre ++ s) = Version.search_triple s.
Proof.
  induction pre as [|c pre IH]; intros Hpre; [done|].
  apply Forall_cons in Hpre as [Hc Hpre].
  change (String c pre ++ s)%string with (String c (pre ++ s)).
  rewrite search_triple_unfold.
  unfold Version.match_triple_at at 1. simpl Text.span.
  apply negb_true_iff in Hc. rewrite Hc. by apply IH.
Qed.

(** X4.  [MigratorXpressVersion.parse] reads back what [__str__] writes:
    for a version of three non-negative numbers, the text of the version
    parses to that version, alone, after the product name, and with white
    space after it. *)
Theorem parse_of_str (v : MigratorXpressVersion) (tail : string) :
  non_negative v →
  all_chars Text.is_space tail →
  Version.parse (Version.to_string v ++ tail) = Some v
  ∧ Version.parse ("migratorxpress " ++ Version.to_string v ++ tail) = Some v.
Proof.
  intros Hv Htail.
  destruct (to_string_ends v Hv) as (Hhead & body & last & Hbody & Hlast).
  assert (Version.search_triple (Version.to_string v)
          = Some (major v, minor v, patch v)) as Hsearch.
  { rewrite search_triple_unfold.
    rewrite <- (string_app_nil_r (Version.to_string v)) at 1.
    by rewrite match_triple_at_to_string. }
  split.
  - unfold Version.parse. rewrite Hbody.
    rewrite strip_trailing_spaces; [|by rewrite <- Hbody|done|done].
    rewrite <- Hbody, Hsearch. by destruct v.
  - unfold Version.parse.
    replace ("migratorxpress " ++ Version.to_string v ++ tail)%string
      with ((("migratorxpress " ++ body) ++ String last "") ++ tail)%string
      by (by rewrite Hbody, !string_app_assoc).
    rewrite strip_trailing_spaces; [|done|done|done].
    rewrite string_app_assoc, <- Hbody.
    rewrite (search_triple_skip "migratorxpress ")
      by (by repeat constructor).
    rewrite Hsearch. by destruct v.
Qed.

Lemma parse_of_str_witness :
  Version.parse ("0.6.24" ++ nl) = Some (mkVersion 0 6 24)
  ∧ Version.parse ("migratorxpress 0.6.24" ++ nl) = Some (mkVersion 0 6 24).
Proof.
  apply (parse_of_str (mkVersion 0 6 24) nl).
  - unfold non_negative. simpl. lia.
  - by repeat constructor.
Defined.

Lemma strip_prefix_ci_app p name r :
  Probe.strip_prefix_ci p name = Some "" →
  Probe.strip_prefix_ci p (name ++ r) = Some r.
Proof.
  revert name. induction p as [|a p IH]; intros name.
  - simpl. by intros [= ->].
  - destruct name as [|b name]; [done|].
    change (String b name ++ r)%string with (String b (name ++ r)). simpl.
    destruct (Ascii.eqb (Text.lower a) (Text.lower b)); [apply IH|done].
Qed.

Lemma name_head name :
  Probe.strip_prefix_ci "migratorxpress" name = Some "" →
  ∃ c name', name = String c name' ∧ Text.is_space c = false.
Proof.
  destruct name as [|c name']; [done|]. intros Hname.
  exists c, name'. split; [done|].
  destruct (Text.is_space c) eqn:Hspace; [exfalso|done].
  destruct c as [[] [] [] [] [] [] [] []]; vm_compute in Hspace;
    try discriminate Hspace; cbn in Hname; discriminate Hname.
Qed.

(** X5.  [detect] finds the version the binary prints.  When the probe
    completes, with whatever return code, and its standard output followed
    by its standard error is the product name in any mix of cases, white
    space, the text of a version of three non-negative numbers, and
    possibly white space after it, then [detect] returns that version and
    keeps it. *)
Theorem detect_reads_printed_version (run : OS) (timeout : Z)
        (self : VersionDetector) (w : World) (v : MigratorXpressVersion)
        (name gap tail stdout stderr : string) (returncode : Z) :
  _detection_done self = false →
  run [_binary_path self; "--version"; "--no_banner"] timeout
  = Completed returncode stdout stderr →
  (stdout ++ stderr)%string
  = (name ++ gap ++ Version.to_string v ++ tail)%string →
  Probe.strip_prefix_ci "migratorxpress" name = Some "" →
  gap ≠ "" → all_chars Text.is_space gap → all_chars Text.is_space tail →
  non_negative v →
  detect run timeout self w
  = (Some v, mkDetector (_binary_path self) (Some v) true,
     spawn [_binary_path self; "--version"; "--no_banner"] w).
Proof.
  intros Hdone Hrun Hout Hname Hgap Hspaces Htail Hv.
  unfold detect. rewrite Hdone, Hrun, Hout. cbv zeta.
  destruct (to_string_ends v Hv) as (Hhead & body & last & Hbody & Hlast).
  destruct (name_head name Hname) as (c & name' & Hc & Hcspace).
  replace (name ++ gap ++ Version.to_string v ++ tail)%string
    with (((name ++ gap ++ body) ++ String last "") ++ tail)%string
    by (by rewrite Hbody, !string_app_assoc).
  rewrite strip_trailing_spaces; [|by rewrite Hc|done|done].
  replace ((name ++ gap ++ body) ++ String last "")%string
    with (name ++ gap ++ Version.to_string v)%string
    by (by rewrite Hbody, !string_app_assoc).
  rewrite probe_search_unfold. unfold Probe.match_at.
  rewrite (strip_prefix_ci_app _ _ _ Hname).
  rewrite span_all; [|done|].
  2:{ destruct (Version.to_string v); [done|]. exact Hhead. }
  destruct gap as [|g gap']; [done|].
  rewrite <- (string_app_nil_r (Version.to_string v)).
  rewrite match_triple_at_to_string by done.
  by destruct v.
Qed.

Lemma detect_reads_printed_version_witness :
  let run : OS :=
    λ _ _, Completed 2 ("MigratorXpress  0.6.24" ++ nl) "" in
  detect run 10 (new_detector "mx") initial_world
  = (Some (mkVersion 0 6 24), mkDetector "mx" (Some (mkVersion 0 6 24)) true,
     spawn ["mx"; "--version"; "--no_banner"] initial_world).
Proof.
  intros run.
  apply (detect_reads_printed_version run 10 (new_detector "mx")
           initial_world (mkVersion 0 6 24) "MigratorXpress" "  " nl
           ("MigratorXpress  0.6.24" ++ nl) "" 2).
  - reflexivity.
  - reflexivity.
  - reflexivity.
  - reflexivity.
  - discriminate.
  - by repeat constructor.
  - by repeat constructor.
  - unfold non_negative. simpl. lia.
Defined.

(** ** [src/validators.py] *)

Lemma valid_tasks_spec t :
  t ∈ Validators.valid_tasks ↔ ∃ task : TaskType.t, t = TaskType.value task.
Proof.
  unfold Validators.valid_tasks.
  rewrite elem_of_list_to_set, list_elem_of_fmap. split.
  - intros (task & -> & _). by exists task.
  - intros (task & ->). exists task. split; [done|].
    unfold TaskType.members. destruct task; set_solver.
Qed.

Lemma first_invalid_task_spec ts :
  match Validators.first_invalid_task ts with
  | None => Forall (λ t, t ∈ Validators.valid_tasks) ts
  | Some bad =>
      ∃ before after, ts = before ++ bad :: after
                      ∧ Forall (λ t, t ∈ Validators.valid_tasks) before
                      ∧ bad ∉ Validators.valid_tasks
  end.
Proof.
  induction ts as [|t ts IH]; simpl; [by constructor|].
  destruct (bool_decide (t ∈ Validators.valid_tasks)) eqn:Ht.
  - apply bool_decide_eq_true in Ht.
    destruct (Validators.first_invalid_task ts) as [bad|].
    + destruct IH as (before & after & -> & Hbefore & Hbad).
      exists (t :: before), after. repeat split; [by constructor|done].
    + by constructor.
  - apply bool_decide_eq_false in Ht. by exists [], ts.
Qed.

(** X6.  The task-list validator passes exactly when the task list is
    absent, or every task is the value of a [TaskType] member and ["all"],
    if it occurs, is the only element.  When some task is not a member
    value, the error names the first such task of the list. *)
Theorem task_list_rule (p : MigrationParams) :
  (passes (Validators.validate_task_list_values p) = true ↔
   match task_list p with
   | None => True
   | Some ts =>
       Forall (λ t, ∃ task : TaskType.t, t = TaskType.value task) ts
       ∧ ("all" ∈ ts → length ts = 1%nat)
   end)
  ∧ (∀ before bad after,
       task_list p = Some (before ++ bad :: after) →
       Forall (λ t, ∃ task : TaskType.t, t = TaskType.value task) before →
       (∀ task : TaskType.t, bad ≠ TaskType.value task) →
       Validators.validate_task_list_values p
       = ValueError ("Invalid task '" ++ bad ++ "'. Valid tasks: "
                     ++ Validators.sorted_valid_tasks_repr)%string).
Proof.
  unfold Validators.validate_task_list_values. split.
  - destruct (task_list p) as [ts|]; [|done].
    pose proof (first_invalid_task_spec ts) as Hfirst.
    destruct (Validators.first_invalid_task ts) as [bad|].
    + destruct Hfirst as (before & after & -> & _ & Hbad). simpl.
      split; [done|]. intros [Hall _].
      apply Forall_app in Hall as [_ Hall].
      apply Forall_cons in Hall as [Hb _]. by apply valid_tasks_spec in Hb.
    + assert (Forall (λ t, ∃ task : TaskType.t, t = TaskType.value task) ts)
        as Hall.
      { eapply Forall_impl; [exact Hfirst|]. intros t. apply valid_tasks_spec. }
      destruct (Validators.contains "all" ts) eqn:Hc; simpl.
      * apply contains_elem_of in Hc.
        destruct (1 <? Z.of_nat (length ts)) eqn:Hlen; simpl.
        -- apply Z.ltb_lt in Hlen. split; [done|].
           intros [_ Hone]. specialize (Hone Hc). lia.
        -- apply Z.ltb_ge in Hlen. split; [|done]. intros _.
           split; [done|]. intros _.
           destruct ts as [|? [|? ?]]; simpl in *; [|done|lia].
           by apply elem_of_nil in Hc.
      * split; [|done]. intros _. split; [done|].
        intros Hin%contains_elem_of. congruence.
  - intros before bad after Hts Hbefore Hbad. rewrite Hts.
    pose proof (first_invalid_task_spec (before ++ bad :: after)) as Hfirst.
    destruct (Validators.first_invalid_task (before ++ bad :: after))
      as [bad'|].
    + destruct Hfirst as (before' & after' & Heq & Hbefore' & Hbad').
      assert (bad' = bad) as ->; [|done].
      assert (Forall (λ t, t ∈ Validators.valid_tasks) before) as Hb.
      { eapply Forall_impl; [exact Hbefore|]. intros t. apply valid_tasks_spec. }
      assert (bad ∉ Validators.valid_tasks) as Hnb.
      { rewrite valid_tasks_spec. intros [task ->]. by apply (Hbad task). }
      clear -Heq Hb Hbefore' Hnb Hbad'.
      revert before' Heq Hbefore'.
      induction Hb as [|t before Ht Hb IH]; intros before' Heq Hbefore'.
      * destruct before' as [|t' before']; simpl in Heq; [congruence|].
        injection Heq as <- _. by apply Forall_cons in Hbefore' as [? _].
      * destruct before' as [|t' before']; simpl in Heq.
        -- injection Heq as -> _. done.
        -- injection Heq as <- Heq. apply Forall_cons in Hbefore' as [_ ?].
           by eapply IH.
    + apply Forall_app in Hfirst as [_ Hfirst].
      apply Forall_cons in Hfirst as [Hb _].
      apply valid_tasks_spec in Hb as [task ->]. by destruct (Hbad task).
Qed.

Lemma task_list_rule_witness :
  let p := with_list_field "task_list" (Some ["translate"; "invalid"; "nope"])
                           scenario_params in
  task_list p = Some (["translate"] ++ "invalid" :: ["nope"])
  ∧ Validators.validate_task_list_values p
    = ValueError ("Invalid task 'invalid'. Valid tasks: "
                  ++ Validators.sorted_valid_tasks_repr)%string.
Proof.
  intros p. split; [reflexivity|].
  apply (proj2 (task_list_rule p) ["translate"] "invalid" ["nope"]).
  - reflexivity.
  - constructor; [by exists TaskType.TRANSLATE|constructor].
  - by intros [].
Defined.

(** X7.  The string-boolean validator passes exactly when each of
    [compute_nbrows] and [drop_tables_if_exists] is absent or one of the two
    literals ["true"] and ["false"]; any other value, the empty string and
    other spellings of a boolean included, is rejected. *)
Theorem string_boolean_rule (p : MigrationParams) :
  passes (Validators.validate_string_booleans p) = true ↔
  (compute_nbrows p = None ∨ compute_nbrows p = Some "true"
   ∨ compute_nbrows p = Some "false")
  ∧ (drop_tables_if_exists p = None ∨ drop_tables_if_exists p = Some "true"
     ∨ drop_tables_if_exists p = Some "false").
Proof.
  assert (∀ name v,
            Validators.check_string_boolean name v = None ↔
            v = None ∨ v = Some "true" ∨ v = Some "false") as Hcheck.
  { intros name [v|]; simpl; [|naive_solver].
    unfold Validators.contains. simpl. rewrite orb_false_r.
    destruct (String.eqb_spec v "true") as [->|Ht]; simpl; [naive_solver|].
    destruct (String.eqb_spec v "false") as [->|Hf]; simpl; [naive_solver|].
    split; [done|]. intros [|[|]]; congruence. }
  unfold Validators.validate_string_booleans.
  rewrite <- (Hcheck "compute_nbrows"), <- (Hcheck "drop_tables_if_exists").
  destruct (Validators.check_string_boolean _ (compute_nbrows p));
    [split; [done|by intros [? _]]|].
  destruct (Validators.check_string_boolean _ (drop_tables_if_exists p));
    [split; [done|by intros [_ ?]]|done].
Qed.

(** X8.  The validation of a parameter set never alters it: when it passes
    it returns the parameter set it was given.  It passes exactly when the
    three validators pass, and when several would fail the error reported is
    that of the first one in the order task list, string-booleans, licence.
    *)
Theorem validate_in_order (p : MigrationParams) :
  (∀ p', Validators.validate p = Valid p' → p' = p)
  ∧ passes (Validators.validate p)
    = passes (Validators.validate_task_list_values p)
      && passes (Validators.validate_string_booleans p)
      && passes (Validators.validate_license_mutual_exclusivity p)
  ∧ (∀ msg, Validators.validate_task_list_values p = ValueError msg →
            Validators.validate p = ValueError msg)
  ∧ (∀ msg, passes (Validators.validate_task_list_values p) = true →
            Validators.validate_string_booleans p = ValueError msg →
            Validators.validate p = ValueError msg)
  ∧ (∀ msg, passes (Validators.validate_task_list_values p) = true →
            passes (Validators.validate_string_booleans p) = true →
            Validators.validate_license_mutual_exclusivity p = ValueError msg →
            Validators.validate p = ValueError msg).
Proof.
  split; [apply validate_valid|]. split; [apply validate_passes|].
  unfold Validators.validate.
  destruct (Validators.validate_task_list_values p) as [p1|m1] eqn:H1.
  - apply validate_task_list_values_valid in H1 as ->.
    destruct (Validators.validate_string_booleans p) as [p2|m2] eqn:H2.
    + apply validate_string_booleans_valid in H2 as ->.
      repeat split; intros; congruence.
    + repeat split; intros; simpl in *; congruence.
  - repeat split; intros; simpl in *; congruence.
Qed.

(** ** [src/migratorxpress.py] *)

(** X9.  A [CommandBuilder] is made exactly when the binary exists, is a
    regular file and is executable.  Otherwise the constructor raises the
    error of the first check that fails, in that order, and asks for no
    process.  When it succeeds it has asked for exactly one process, the
    version probe of the binary, has written no log, and the detector it
    keeps is marked done: no later version query probes again. *)
Theorem init_outcomes (run : OS) (Path_str : string → string)
        (stat : string → FileStatus) (binary_path_arg : string) (w : World) :
  let path := Path_str binary_path_arg in
  let status := stat path in
  match CommandBuilder_init run Path_str stat binary_path_arg w with
  | (inl err, w') =>
      w' = w
      ∧ path_exists status && path_is_file status && path_is_executable status
        = false
      ∧ err = mkError
                (if negb (path_exists status)
                 then "MigratorXpress binary not found at: " ++ path
                 else if negb (path_is_file status)
                      then "MigratorXpress path is not a file: " ++ path
                      else "MigratorXpress binary is not executable: " ++ path)%string
                None
  | (inr builder, w') =>
      path_exists status && path_is_file status && path_is_executable status
      = true
      ∧ binary_path builder = path
      ∧ _binary_path (_version_detector builder) = path
      ∧ _detection_done (_version_detector builder) = true
      ∧ spawned w' = spawned w ++ [[path; "--version"; "--no_banner"]]
      ∧ log_files w' = log_files w
  end.
Proof.
  intros path status. unfold CommandBuilder_init, _validate_binary.
  fold path. fold status.
  destruct (path_exists status); simpl; [|done].
  destruct (path_is_file status); simpl; [|done].
  destruct (path_is_executable status); simpl; [|done].
  pose proof (detect_cached run 10 10 (new_detector path) w) as Hdetect.
  destruct (detect run 10 (new_detector path) w) as [[v d] w'].
  simpl in Hdetect. destruct Hdetect as (Hdone & _ & Hpath & _ & Hlogs & Hspawn).
  by repeat split.
Qed.

(** X10.  Whatever the parameter set, a built command starts with the binary
    path and the six required flag/value pairs in their fixed order; the
    tokens of the optional fields come after these thirteen.  In particular
    position 1 always holds [-a]. *)
Theorem required_prefix (self : CommandBuilder) (p : MigrationParams) :
  take 13 (build_command self p)
  = [ binary_path self; "-a"; auth_file p;
      "--source_db_auth_id"; source_db_auth_id p;
      "--source_db_name"; source_db_name p;
      "--target_db_auth_id"; target_db_auth_id p;
      "--target_db_name"; target_db_name p;
      "--migration_db_auth_id"; migration_db_auth_id p ]
  ∧ build_command self p
    = take 13 (build_command self p) ++ concat (drop 7 (segments self p))
  ∧ (13 ≤ length (build_command self p))%nat.
Proof.
  rewrite build_command_concat.
  rewrite <- (take_drop 7 (segments self p)) at 1 2 4.
  rewrite concat_app.
  change (concat (take 7 (segments self p)))
    with [ binary_path self; "-a"; auth_file p;
           "--source_db_auth_id"; source_db_auth_id p;
           "--source_db_name"; source_db_name p;
           "--target_db_auth_id"; target_db_auth_id p;
           "--target_db_name"; target_db_name p;
           "--migration_db_auth_id"; migration_db_auth_id p ].
  repeat split. simpl. lia.
Qed.

Lemma mask_tokens_idempotent tokens :
  mask_tokens (mask_tokens tokens) = mask_tokens tokens.
Proof.
  induction tokens as [tokens IH] using (induction_ltof1 _ (@length string)).
  unfold ltof in IH.
  destruct tokens as [|token rest]; [done|]. simpl.
  destruct (String.eqb token "--license") eqn:Htok.
  - destruct rest as [|next rest']; simpl; rewrite Htok; [done|].
    rewrite IH; [done|simpl; lia].
  - simpl. rewrite Htok. rewrite IH; [done|simpl; lia].
Qed.

(** X11.  Masking is idempotent: masking the list that [mask_sensitive]
    returned gives a further new list with the same tokens, and the first
    argument still reads as it did. *)
Theorem mask_sensitive_idempotent (h : gmap loc (list string))
        (command : loc) (tokens : list string) :
  h !! command = Some tokens →
  ∃ m1 h1 m2 h2,
    mask_sensitive command h = Some (m1, h1)
    ∧ mask_sensitive m1 h1 = Some (m2, h2)
    ∧ m2 ≠ m1 ∧ m2 ≠ command
    ∧ h2 !! m2 = h1 !! m1
    ∧ h2 !! command = Some tokens.
Proof.
  intros Hc.
  pose proof (mask_sensitive_eq _ _ _ Hc) as H1.
  set (m1 := fresh (dom h)) in *.
  set (h1 := <[m1 := mask_tokens tokens]> h) in *.
  assert (h !! m1 = None) as Hfresh1 by (apply not_elem_of_dom, is_fresh).
  assert (h1 !! m1 = Some (mask_tokens tokens)) as Hm1
    by apply lookup_insert_eq.
  pose proof (mask_sensitive_eq _ _ _ Hm1) as H2.
  set (m2 := fresh (dom h1)) in *.
  assert (h1 !! m2 = None) as Hfresh2 by (apply not_elem_of_dom, is_fresh).
  assert (m1 ≠ command) as Hne1 by congruence.
  assert (h1 !! command = Some tokens) as Hc1
    by (unfold h1; by rewrite lookup_insert_ne).
  exists m1, h1, m2, (<[m2 := mask_tokens (mask_tokens tokens)]> h1).
  split; [done|]. split; [done|].
  split; [congruence|]. split; [congruence|].
  split.
  - by rewrite lookup_insert_eq, mask_tokens_idempotent.
  - rewrite lookup_insert_ne; [done|congruence].
Qed.

Lemma mask_sensitive_idempotent_witness :
  let h : gmap loc (list string) :=
    {[ 1%positive := ["MigratorXpress"; "--license"; "SECRET-KEY-123"] ]} in
  h !! 1%positive = Some ["MigratorXpress"; "--license"; "SECRET-KEY-123"]
  ∧ ∃ m1 h1 m2 h2,
      mask_sensitive 1%positive h = Some (m1, h1)
      ∧ mask_sensitive m1 h1 = Some (m2, h2)
      ∧ h2 !! m2 = h1 !! m1.
Proof.
  intros h. split; [reflexivity|].
  destruct (mask_sensitive_idempotent h 1%positive _ eq_refl)
    as (m1 & h1 & m2 & h2 & H1 & H2 & _ & _ & Hsame & _).
  by exists m1, h1, m2, h2.
Defined.

(** Tokens before the first [--license] are not touched by the mask. *)
Lemma mask_tokens_app_no_license before rest :
  "--license" ∉ before →
  mask_tokens (before ++ rest) = before ++ mask_tokens rest.
Proof.
  induction before as [|t before IH]; [done|].
  intros [Hne Hrest]%not_elem_of_cons.
  change ((t :: before) ++ rest) with (t :: (before ++ rest)).
  cbn [mask_tokens].
  apply not_eq_sym, String.eqb_neq in Hne. rewrite Hne.
  by rewrite IH.
Qed.

(** The licence key is the last thing in the command of a valid parameter
    set. *)
Lemma build_command_license_last self p key :
  passes (Validators.validate p) = true →
  license p = Some key → key ≠ "" →
  build_command self p
  = build_command self (with_str_field "license" None p) ++ ["--license"; key].
Proof.
  intros Hvalid Hkey Hne.
  assert (license_file p = None) as Hfile.
  { rewrite validate_passes, !andb_true_iff in Hvalid.
    destruct Hvalid as [_ Hl].
    unfold Validators.validate_license_mutual_exclusivity in Hl.
    rewrite Hkey in Hl. by destruct (license_file p). }
  rewrite !build_command_concat.
  rewrite <- (take_drop 39 (segments self p)).
  rewrite <- (take_drop 39 (segments self (with_str_field "license" None p))).
  rewrite !concat_app.
  change (take 39 (segments self (with_str_field "license" None p)))
    with (take 39 (segments self p)).
  change (drop 39 (segments self p))
    with [Cmd.extend_if_str [] "--license" (license p);
          Cmd.extend_if_str [] "--license_file" (license_file p)].
  change (drop 39 (segments self (with_str_field "license" None p)))
    with [Cmd.extend_if_str [] "--license" None;
          Cmd.extend_if_str [] "--license_file" (license_file p)].
  generalize (concat (take 39 (segments self p))). intros common.
  rewrite Hkey, Hfile.
  apply String.eqb_neq in Hne.
  unfold Cmd.extend_if_str, str_truthy. rewrite Hne. simpl.
  by rewrite app_nil_r.
Qed.

(** X12.  For a valid parameter set with a licence key, the command is the
    command without the key followed by [--license] and the key.  When no
    token of the command without the key is spelled [--license],
    [mask_sensitive] returns that command followed by [--license] and the
    mask: the key is replaced and nothing else is. *)
Theorem license_key_masked (self : CommandBuilder) (p : MigrationParams)
        (key : string) (h : gmap loc (list string)) (command : loc) :
  passes (Validators.validate p) = true →
  license p = Some key → key ≠ "" →
  h !! command = Some (build_command self p) →
  let without := build_command self (with_str_field "license" None p) in
  build_command self p = without ++ ["--license"; key]
  ∧ ("--license" ∉ without →
     ∃ masked h',
       mask_sensitive command h = Some (masked, h')
       ∧ h' !! masked = Some (without ++ ["--license"; "******"])
       ∧ h' !! command = Some (without ++ ["--license"; key])).
Proof.
  intros Hvalid Hkey Hne Hc without.
  pose proof (build_command_license_last self p key Hvalid Hkey Hne) as Hcmd.
  split; [done|]. intros Hno.
  rewrite (mask_sensitive_eq _ _ _ Hc).
  assert (h !! fresh (dom h) = None) as Hfresh
    by (apply not_elem_of_dom, is_fresh).
  eexists _, _. split; [done|].
  rewrite lookup_insert_eq. rewrite lookup_insert_ne by congruence.
  rewrite Hc, Hcmd. fold without.
  split; [|done]. f_equal.
  by rewrite mask_tokens_app_no_license.
Qed.

Lemma license_key_masked_witness :
  let p := with_str_field "license" (Some "SECRET-KEY-123") scenario_params in
  let h : gmap loc (list string) :=
    {[ 1%positive := build_command example_builder p ]} in
  (passes (Validators.validate p) = true
   ∧ license p = Some "SECRET-KEY-123" ∧ "SECRET-KEY-123" ≠ ""
   ∧ h !! 1%positive = Some (build_command example_builder p)
   ∧ "--license" ∉ build_command example_builder scenario_params)
  ∧ ∃ masked h',
      mask_sensitive 1%positive h = Some (masked, h')
      ∧ h' !! masked
        = Some (build_command example_builder scenario_params
                ++ ["--license"; "******"]).
Proof.
  intros p h.
  assert ("--license" ∉ build_command example_builder scenario_params)
    as Hno.
  { intros Hin. apply list_elem_of_In in Hin. vm_compute in Hin.
    repeat (destruct Hin as [Hin|Hin]; [discriminate Hin|]). done. }
  assert ("SECRET-KEY-123" ≠ "") as Hne by done.
  split; [by repeat split|].
  destruct (license_key_masked example_builder p "SECRET-KEY-123" h 1%positive
              eq_refl eq_refl Hne eq_refl)
    as (_ & Hmask).
  destruct (Hmask Hno) as (masked & h' & Hrun & Hmasked & _).
  by exists masked, h'.
Defined.

Lemma mask_tokens_other token rest :
  token ≠ "--license" →
  mask_tokens (token :: rest) = token :: mask_tokens rest.
Proof. intros Hne%String.eqb_neq. simpl. by rewrite Hne. Qed.

Lemma mask_tokens_license next rest :
  mask_tokens ("--license" :: next :: rest)
  = "--license" :: MASK :: mask_tokens rest.
Proof. done. Qed.

(** Masking goes through a concatenation whose first part does not end
    with [--license]. *)
Lemma mask_tokens_app_last before rest :
  last before ≠ Some "--license" →
  mask_tokens (before ++ rest) = mask_tokens before ++ mask_tokens rest.
Proof.
  induction before as [before IH] using (induction_ltof1 _ (@length string)).
  unfold ltof in IH. intros Hlast.
  destruct before as [|token [|next before']]; [done| |].
  - destruct (String.eqb_spec token "--license") as [->|Hne];
      [by destruct Hlast|].
    change ([token] ++ rest) with (token :: rest).
    by rewrite !mask_tokens_other.
  - destruct (String.eqb_spec token "--license") as [->|Hne].
    + change (("--license" :: next :: before') ++ rest)
        with ("--license" :: next :: (before' ++ rest)).
      rewrite !mask_tokens_license.
      rewrite IH; [done|simpl; lia|].
      destruct before' as [|t before'']; [done|]. exact Hlast.
    + change ((token :: next :: before') ++ rest)
        with (token :: ((next :: before') ++ rest)).
      rewrite !mask_tokens_other by done.
      rewrite IH; [done|simpl; lia|exact Hlast].
Qed.

(** After a run of [n] tokens spelled [--license], the licence flag and the
    key: the masks fall on every second token of the run, so the key is
    masked when [n] is even and kept when [n] is odd. *)
Lemma mask_tokens_license_run n key :
  last (mask_tokens (replicate n "--license" ++ ["--license"; key]))
  = Some (if Nat.even n then MASK else key).
Proof.
  induction n as [n IH] using lt_wf_ind.
  destruct n as [|[|n]].
  - done.
  - simpl. by destruct (String.eqb key "--license").
  - change (replicate (S (S n)) "--license" ++ ["--license"; key])
      with ("--license" :: "--license"
              :: (replicate n "--license" ++ ["--license"; key])).
    cbn [mask_tokens String.eqb Ascii.eqb Bool.eqb].
    change (Nat.even (S (S n))) with (Nat.even n).
    rewrite <- (IH n) by lia.
    destruct (mask_tokens (replicate n "--license" ++ ["--license"; key]))
      as [|t ts] eqn:E; [|done].
    apply (f_equal length) in E. rewrite mask_tokens_length in E.
    rewrite length_app in E. simpl in E. lia.
Qed.

(** X13.  The mask is tied to the token before it, not to the field.
    For a valid parameter set with a licence key, write the command without
    the key as a front part that does not end with a token spelled
    [--license], followed by [n] such tokens ([n] may be 0).  The last token
    of the masked command is the mask when [n] is even and the key, in
    clear, when [n] is odd; the masked command has the length of the
    command.  In particular, when the command without the key ends with one
    token spelled [--license] and holds no other, the masked command is the
    front part followed by [--license], the mask and the key. *)
Theorem license_key_survives (self : CommandBuilder) (p : MigrationParams)
        (key : string) (front : list string) (n : nat)
        (h : gmap loc (list string)) (command : loc) :
  passes (Validators.validate p) = true →
  license p = Some key → key ≠ "" →
  h !! command = Some (build_command self p) →
  build_command self (with_str_field "license" None p)
  = front ++ replicate n "--license" →
  last front ≠ Some "--license" →
  ∃ masked h' out,
    mask_sensitive command h = Some (masked, h')
    ∧ h' !! masked = Some out
    ∧ length out = length (build_command self p)
    ∧ last out = Some (if Nat.even n then MASK else key)
    ∧ ("--license" ∉ front → n = 1%nat →
       out = front ++ ["--license"; MASK; key]).
Proof.
  intros Hvalid Hkey Hne Hc Hwithout Hlast.
  pose proof (build_command_license_last self p key Hvalid Hkey Hne) as Hcmd.
  rewrite Hwithout, <- app_assoc in Hcmd.
  rewrite (mask_sensitive_eq _ _ _ Hc).
  eexists _, _, _. split; [done|].
  split; [by rewrite lookup_insert_eq|].
  split; [apply mask_tokens_length|].
  split.
  - rewrite Hcmd, mask_tokens_app_last by done.
    pose proof (mask_tokens_license_run n key) as Hrun.
    destruct (mask_tokens (replicate n "--license" ++ ["--license"; key]))
      as [|t ts] eqn:E; [done|].
    by rewrite last_app, Hrun.
  - intros Hno ->. rewrite Hcmd.
    rewrite mask_tokens_app_no_license by done. simpl.
    by destruct (String.eqb key "--license").
Qed.

Lemma license_key_survives_witness :
  let p := with_str_field "license" (Some "SECRET-KEY-123")
             (with_str_field "log_dir" (Some "--license") scenario_params) in
  let front := build_command example_builder scenario_params ++ ["--log_dir"] in
  let h : gmap loc (list string) :=
    {[ 1%positive := build_command example_builder p ]} in
  (passes (Validators.validate p) = true
   ∧ license p = Some "SECRET-KEY-123" ∧ "SECRET-KEY-123" ≠ ""
   ∧ h !! 1%positive = Some (build_command example_builder p)
   ∧ build_command example_builder (with_str_field "license" None p)
     = front ++ replicate 1 "--license"
   ∧ last front ≠ Some "--license")
  ∧ ∃ masked h',
      mask_sensitive 1%positive h = Some (masked, h')
      ∧ h' !! masked = Some (front ++ ["--license"; "******"; "SECRET-KEY-123"]).
Proof.
  intros p front h.
  assert ("--license" ∉ front) as Hno.
  { intros Hin. apply list_elem_of_In in Hin. vm_compute in Hin.
    repeat (destruct Hin as [Hin|Hin]; [discriminate Hin|]). done. }
  assert ("SECRET-KEY-123" ≠ "") as Hne by done.
  assert (last front ≠ Some "--license") as Hlast by (by vm_compute).
  split; [by repeat split|].
  destruct (license_key_survives example_builder p "SECRET-KEY-123" front 1 h
              1%positive eq_refl eq_refl Hne eq_refl eq_refl Hlast)
    as (masked & h' & out & Hrun & Hout & _ & _ & Hshape).
  exists masked, h'. split; [exact Hrun|].
  by rewrite Hout, (Hshape Hno eq_refl).
Defined.

(** Two tokens spelled [--license] before the flag: the key is masked. *)
Example license_key_after_two :
  let p := with_str_field "license" (Some "SECRET-KEY-123")
             (with_list_field "forced_int_id_suffixes"
                              (Some ["--license"; "--license"])
                              scenario_params) in
  passes (Validators.validate p) = true
  ∧ mask_tokens (build_command example_builder p)
    = build_command example_builder scenario_params
        ++ ["--forced_int_id_suffixes"; "--license"; "******"; "--license";
            "******"].
Proof. by vm_compute. Qed.

Lemma join_cons_cons sep x y rest :
  Text.join sep (x :: y :: rest) = (x ++ sep ++ Text.join sep (y :: rest))%string.
Proof. done. Qed.

Lemma format_parts_nil tokens : format_parts tokens = [] → tokens = [].
Proof.
  destruct tokens as [|param [|next after]]; simpl; [done|done|].
  destruct (startswith "-" param); [|done].
  by destruct (negb (startswith "-" next)).
Qed.

(** Joined by single spaces, the groups of the display are the tokens
    joined by single spaces, as long as no value needs quoting. *)
Lemma format_parts_join tokens :
  Forall (λ t, has_char " " t = false) tokens →
  Text.join " " (format_parts tokens) = Text.join " " tokens.
Proof.
  induction tokens as [tokens IH] using (induction_ltof1 _ (@length string)).
  unfold ltof in IH. intros Hspace.
  destruct tokens as [|param [|next after]]; [done|done|].
  assert (Text.join " " (param :: format_parts (next :: after))
          = Text.join " " (param :: next :: after)) as Hsingle.
  { destruct (format_parts (next :: after)) as [|g gs] eqn:Hg.
    - by apply format_parts_nil in Hg.
    - rewrite !join_cons_cons, <- Hg.
      rewrite IH; [done|simpl; lia|]. by apply Forall_cons in Hspace as [_ ?]. }
  cbn [format_parts].
  destruct (startswith "-" param); [|exact Hsingle].
  destruct (negb (startswith "-" next)); [|exact Hsingle].
  apply Forall_cons in Hspace as [_ Hspace].
  apply Forall_cons in Hspace as [Hnext Hafter]. rewrite Hnext.
  destruct after as [|a after'].
  - simpl. done.
  - destruct (format_parts (a :: after')) as [|g gs] eqn:Hg;
      [by apply format_parts_nil in Hg|].
    rewrite !join_cons_cons, <- Hg.
    rewrite IH; [|simpl; lia|done].
    by rewrite !string_app_assoc.
Qed.

(** X14.  [format_command_display] fails only on the empty command (the
    [IndexError] of its first line).  Otherwise the display consists of
    lines joined by the continuation separator, the first line is the first
    token, and, when no displayed token contains a space, the lines joined
    by single spaces are exactly the displayed tokens joined by single
    spaces: the layout loses, repeats and reorders nothing.  The tokens
    displayed are the masked ones when masking is asked for. *)
Theorem display_keeps_tokens (command : list string) (mask : bool) :
  let shown := if mask then mask_tokens command else command in
  (format_command_display command mask = None ↔ command = [])
  ∧ (∀ first rest,
       shown = first :: rest →
       ∃ lines,
         format_command_display command mask
         = Some (Text.join (" " ++ backslash ++ nl ++ "  ")%string
                           (first :: lines))
         ∧ (Forall (λ t, has_char " " t = false) rest →
            Text.join " " (first :: lines) = Text.join " " shown)).
Proof.
  intros shown. unfold format_command_display. fold shown. split.
  - split.
    + destruct shown as [|first rest] eqn:Hshown; [|done]. intros _.
      unfold shown in Hshown. destruct mask; [|done].
      apply (f_equal length) in Hshown.
      rewrite mask_tokens_length in Hshown. by destruct command.
    + intros ->. unfold shown. by destruct mask.
  - intros first rest ->. exists (format_parts rest). split; [done|].
    intros Hrest.
    destruct rest as [|r rest']; [done|].
    destruct (format_parts (r :: rest')) as [|g gs] eqn:Hg;
      [by apply format_parts_nil in Hg|].
    rewrite !join_cons_cons, <- Hg. by rewrite format_parts_join.
Qed.

Lemma display_keeps_tokens_witness :
  let command := ["mx"; "-a"; "auth.json"; "-f"; "--license"; "KEY"] in
  mask_tokens command = "mx" :: ["-a"; "auth.json"; "-f"; "--license"; "******"]
  ∧ ∃ lines,
      format_command_display command true
      = Some (Text.join (" " ++ backslash ++ nl ++ "  ")%string ("mx" :: lines))
      ∧ Text.join " " ("mx" :: lines) = "mx -a auth.json -f --license ******".
Proof.
  intros command. split; [reflexivity|].
  destruct (proj2 (display_keeps_tokens command true) "mx"
                  ["-a"; "auth.json"; "-f"; "--license"; "******"] eq_refl)
    as (lines & Hdisplay & Hjoin).
  exists lines. split; [exact Hdisplay|].
  rewrite Hjoin; [reflexivity|]. by repeat constructor.
Defined.

(** X15.  [execute_command] writes a log record exactly when the process
    completed, a log directory was given and the record could be written;
    nothing is logged for a timeout or a failure to run.  The record holds
    the return code and both outputs of the process, and its command line is
    the masked command joined by spaces, never the command as given.  At
    most one record is written, after the records that were there. *)
Theorem execution_log_written (run : OS) (log_writable : string → bool)
        (command : list string) (timeout : Z) (log_dir : option string)
        (w : World) :
  let w' := (execute_command run log_writable command timeout log_dir w).2 in
  match run command timeout, log_dir with
  | Completed returncode stdout stderr, Some d =>
      if log_writable d
      then log_files w'
           = log_files w
             ++ [mkLog d (Text.join " " (mask_tokens command))
                       returncode stdout stderr]
      else log_files w' = log_files w
  | _, _ => log_files w' = log_files w
  end.
Proof.
  unfold execute_command, _save_execution_log.
  destruct (run command timeout) as [rc out err|[msg|msg|msg]]; simpl;
    try done.
  destruct log_dir as [d|]; [|done]. by destruct (log_writable d).
Qed.

(** ** [src/server.py] *)

(** X16.  [handle_execute_command] runs at most one command per request, and
    only the one it was given: either the world is left as it was, or the
    builder is there, the confirmation is true, the [command] argument is a
    non-empty string that [shlex.split] accepts, and the one process asked
    for is the list of tokens [shlex.split] returned, run with the
    configured timeout and log directory.  A missing or empty command and a
    command that [shlex.split] rejects are answered with an error text;
    a command that is not a string makes the handler raise. *)
Theorem execute_handler_runs_given_command
        (run : OS) (log_writable : string → bool) (timeout : Z)
        (log_dir : string) (shlex_split : string → string + list string)
        (command_builder : option CommandBuilder)
        (arguments : gmap string JValue) (w : World) :
  let '(outcome, w') :=
    handle_execute_command run log_writable timeout log_dir shlex_split
                           command_builder arguments w in
  (w' = w
   ∨ ∃ text command,
       is_Some command_builder
       ∧ truthy (get arguments "confirmation" (JBool false)) = true
       ∧ arguments !! "command" = Some (JStr text) ∧ text ≠ ""
       ∧ shlex_split text = inr command
       ∧ w' = (execute_command run log_writable command timeout
                               (Some log_dir) w).2
       ∧ spawned w' = spawned w ++ [command])
  ∧ (is_Some command_builder →
     truthy (get arguments "confirmation" (JBool false)) = true →
     match arguments !! "command" with
     | None | Some JNull | Some (JStr "") =>
         outcome = Returns "Error: No command provided. Please provide the command from preview_command."
         ∧ w' = w
     | Some (JStr text) =>
         ∀ msg, shlex_split text = inl msg →
                outcome = Returns ("Error parsing command: " ++ msg)%string
                ∧ w' = w
     | Some other =>
         truthy other = true → ∃ e, outcome = Raises e ∧ w' = w
     end).
Proof.
  unfold handle_execute_command.
  destruct command_builder as [builder|];
    [|split; [by left|by intros [? [=]]]].
  destruct (truthy (get arguments "confirmation" (JBool false))) eqn:Hconf;
    simpl; [|split; [by left|done]].
  unfold get at 1 2 3. 
  destruct (arguments !! "command") as [v|] eqn:Hcommand;
    [|split; [by left|done]].
  destruct v as [|b|n|x|text|items|items]; simpl.
  - split; [by left|done].
  - destruct b; simpl; (split; [by left|]); intros _ _ ?; [by eexists|done].
  - destruct (negb (n =? 0)) eqn:Hn; simpl; (split; [by left|]);
      intros _ _ ?; [by eexists|done].
  - destruct (negb (PrimFloat.eqb x 0)) eqn:Hx; simpl; (split; [by left|]);
      intros _ _ ?; [by eexists|done].
  - unfold str_truthy. destruct (String.eqb_spec text "") as [->|Hne]; simpl.
    { split; [by left|done]. }
    destruct (shlex_split text) as [msg|command] eqn:Hsplit.
    { split; [by left|]. intros _ _.
      destruct text; [done|]. by intros ? [= <-]. }
    assert (spawned (execute_command run log_writable command timeout
                                     (Some log_dir) w).2
            = spawned w ++ [command]) as Hspawn.
    { unfold execute_command.
      destruct (run command timeout) as [rc out err|[m|m|m]]; simpl;
        try done.
      unfold _save_execution_log. by destruct (log_writable log_dir). }
    destruct (execute_command run log_writable command timeout
                              (Some log_dir) w)
      as [[err|[[rc out] err]] w'] eqn:Hexec; simpl in *.
    + split; [right; exists text, command; repeat split; try done;
               by rewrite Hexec|].
      intros _ _. destruct text; [done|]. intros ? [=].
    + split; [right; exists text, command; repeat split; try done;
               by rewrite Hexec|].
      intros _ _. destruct text; [done|]. intros ? [=].
  - destruct items; simpl; (split; [by left|]); intros _ _ ?;
      [done|by eexists].
  - destruct items; simpl; (split; [by left|]); intros _ _ ?;
      [done|by eexists].
Qed.

(** ** [get_version] *)

Lemma detect_facts run timeout self w :
  let '(v, d, w') := detect run timeout self w in
  _detection_done d = true ∧ _detected_version d = v
  ∧ _binary_path d = _binary_path self
  ∧ log_files w' = log_files w
  ∧ (if _detection_done self then d = self ∧ w' = w
     else spawned w'
          = spawned w ++ [[_binary_path self; "--version"; "--no_banner"]]).
Proof.
  unfold detect. destruct (_detection_done self) eqn:Hdone; [done|].
  destruct (run _ timeout) as [rc out err|e]; [|done].
  by destruct (Probe.search _) as [[[a b] c]|].
Qed.

Lemma leb_is_total : Total (λ a b : string, Is_true (String.leb a b)).
Proof.
  intros a b. destruct (String.leb_total a b) as [H|H]; rewrite H; auto.
Qed.

Lemma py_sorted_spec (s : gset string) :
  Sorted (λ a b, Is_true (String.leb a b)) (py_sorted s)
  ∧ NoDup (py_sorted s)
  ∧ list_to_set (py_sorted s) = s.
Proof.
  unfold py_sorted. split; [apply Sorted_merge_sort, leb_is_total|].
  split.
  - rewrite merge_sort_Permutation. apply NoDup_elements.
  - apply set_eq. intros x. rewrite elem_of_list_to_set.
    rewrite merge_sort_Permutation. apply elem_of_elements.
Qed.

(** X17.  [get_version] reports what [capabilities] resolves, and loses
    nothing of it: the builder and the world after the call are those after
    reading [capabilities]; the version is the text of the detected version
    and [detected] says whether there is one; each list of the report is in
    ascending order without repetition, and read back as sets the lists and
    flags are the capabilities resolved.  The call writes no log and asks
    for the version probe only if detection had not been done. *)
Theorem get_version_report (run : OS) (self : CommandBuilder) (w : World) :
  let '(info, self', w') := get_version run self w in
  let '(caps, detector, wc) :=
    capabilities run _SORTED_VERSIONS (_version_detector self) w in
  self' = mkBuilder (binary_path self) detector ∧ w' = wc
  ∧ _detection_done detector = true
  ∧ VersionInfo.version info = Version.to_string <$> _detected_version detector
  ∧ VersionInfo.detected info = bool_decide (is_Some (_detected_version detector))
  ∧ VersionInfo.binary_path info = binary_path self
  ∧ capabilities_of_report (VersionInfo.capabilities info) = caps
  ∧ Forall (λ l, Sorted (λ a b, Is_true (String.leb a b)) l ∧ NoDup l)
           (report_lists (VersionInfo.capabilities info))
  ∧ log_files w' = log_files w
  ∧ (if _detection_done (_version_detector self) then w' = w
     else spawned w'
          = spawned w ++ [[_binary_path (_version_detector self);
                           "--version"; "--no_banner"]]).
Proof.
  pose proof (detect_facts run 10 (_version_detector self) w) as Hdetect.
  destruct (detect run 10 (_version_detector self) w) as [[v d] w1] eqn:Hd.
  destruct Hdetect as (Hdone & Hversion & Hpath & Hlog & Hspawn).
  destruct (capabilities_done run _SORTED_VERSIONS d w1 Hdone)
    as [caps [Hcaps _]].
  assert (capabilities run _SORTED_VERSIONS (_version_detector self) w
          = (caps, d, w1)) as Hsame.
  { destruct (_detection_done (_version_detector self)) eqn:Hself.
    - by destruct Hspawn as [<- <-].
    - unfold capabilities in Hcaps |- *.
      rewrite Hself. rewrite Hdone in Hcaps. simpl in Hcaps |- *.
      by rewrite Hd. }
  unfold get_version. rewrite Hd, Hcaps, Hsame.
  split; [done|]. split; [done|]. split; [done|].
  split; [by rewrite Hversion; destruct v|].
  split; [by rewrite Hversion; destruct v|].
  split; [done|].
  split.
  { unfold capabilities_of_report. simpl. destruct caps; simpl.
    by rewrite !(proj2 (proj2 (py_sorted_spec _))). }
  split.
  { unfold report_lists. simpl.
    repeat (constructor; [split; apply py_sorted_spec|]). constructor. }
  split; [done|].
  destruct (_detection_done (_version_detector self)); [by destruct Hspawn|done].
Qed.

(** ** [suggest_workflow] *)

(** X18.  Every example [suggest_workflow] gives is a command of this
    program: whatever the arguments, each step names a list of tasks that
    [MigrationParams] accepts, its example is, token for token,
    [build_command] of the six required fields and that task list for a
    binary called [MigratorXpress], and its task is those tasks joined
    by [" + "].  The steps are numbered from 1, the fifth is there exactly
    when [include_constraints] is true, and the last step is the
    alternative marked [alt]. *)
Theorem workflow_examples_are_commands (source_type target_type : JValue)
        (include_constraints : JValue) (detector : VersionDetector) :
  let steps :=
    Workflow.steps
      (suggest_workflow source_type target_type include_constraints) in
  Forall (λ s,
            ∃ tasks,
              Validators.validate (example_params tasks)
              = Valid (example_params tasks)
              ∧ Workflow.example s
                = Text.join " " (build_command
                                   (mkBuilder "MigratorXpress" detector)
                                   (example_params tasks))
              ∧ Workflow.task s = Text.join " + " tasks) steps
  ∧ Workflow.step <$> steps
    = (inl <$> (if truthy include_constraints then [1; 2; 3; 4; 5]
                else [1; 2; 3; 4])) ++ [inr "alt"].
Proof.
  unfold suggest_workflow. cbv zeta.
  destruct (truthy include_constraints); simpl Workflow.steps.
  - split; [|reflexivity].
    repeat apply Forall_cons_2; [..|apply Forall_nil_2].
    + exists ["translate"]. by vm_compute.
    + exists ["create"]. by vm_compute.
    + exists ["transfer"]. by vm_compute.
    + exists ["diff"]. by vm_compute.
    + exists ["copy_pk"; "copy_ak"; "copy_fk"]. by vm_compute.
    + exists ["all"]. by vm_compute.
  - split; [|reflexivity].
    repeat apply Forall_cons_2; [..|apply Forall_nil_2].
    + exists ["translate"]. by vm_compute.
    + exists ["create"]. by vm_compute.
    + exists ["transfer"]. by vm_compute.
    + exists ["diff"]. by vm_compute.
    + exists ["all"]. by vm_compute.
Qed.

(** ** [handle_validate_auth_file] *)

Lemma dict_of_acc (items : list (string * JValue)) (m : gmap string JValue) k :
  is_Some (fold_left (λ m kv, <[kv.1 := kv.2]> m) items m !! k)
  ↔ k ∈ items.*1 ∨ is_Some (m !! k).
Proof.
  revert m. induction items as [|[k' v'] items IH]; intros m; simpl.
  - rewrite elem_of_nil. tauto.
  - rewrite IH, elem_of_cons. destruct (decide (k = k')) as [->|Hne].
    + rewrite lookup_insert_eq. split; [intros _|]; eauto.
    + rewrite lookup_insert_ne by done. tauto.
Qed.

Lemma dict_of_is_Some (items : list (string * JValue)) k :
  is_Some (dict_of items !! k) ↔ k ∈ items.*1.
Proof.
  unfold dict_of. rewrite dict_of_acc, lookup_empty.
  split; [intros [?|[? [=]]]; done|auto].
Qed.

Lemma missing_ids_nil present required :
  missing_ids present required = []
  ↔ ∀ auth_id, auth_id ∈ required → present auth_id = true.
Proof.
  unfold missing_ids. induction required as [|r required IH].
  - split; [intros _ ? []%elem_of_nil|done].
  - rewrite filter_cons. destruct (decide (present r = false)) as [Hr|Hr].
    + split; [done|]. intros H. specialize (H r (list_elem_of_here _ _)).
      congruence.
    + rewrite IH. split.
      * intros H id [->|?]%elem_of_cons; [by destruct (present r)|auto].
      * intros H id Hid. apply H. by apply list_elem_of_further.
Qed.

Lemma id_found_spec auth_id found :
  id_found auth_id found = true ↔ JStr auth_id ∈ found.
Proof.
  unfold id_found. rewrite existsb_exists. split.
  - intros (v & Hv%list_elem_of_In & Heq). destruct v; try done.
    by apply String.eqb_eq in Heq as ->.
  - intros H. exists (JStr auth_id). split; [by apply list_elem_of_In|].
    apply String.eqb_refl.
Qed.

Lemma entry_id_cons entry rest v :
  entry_id (entry :: rest) v
  ↔ (∃ items, entry = JDict items ∧ dict_of items !! "id" = Some v)
    ∨ entry_id rest v.
Proof.
  unfold entry_id. split.
  - intros (items & [<-|Hin]%elem_of_cons & Hid); eauto.
  - intros [(items & -> & Hid)|(items & Hin & Hid)].
    + exists items. split; [apply list_elem_of_here|done].
    + exists items. split; [by apply list_elem_of_further|done].
Qed.

(** The loop over the entries stops at the first identifier that cannot be
    in a set; otherwise it adds the identifiers of the entries. *)
Lemma collect_ids_spec entries found :
  match collect_ids entries found with
  | inl _ => ∃ v, entry_id entries v ∧ hashable v = false
  | inr found' =>
      (∀ v, entry_id entries v → hashable v = true)
      ∧ ∀ v, v ∈ found' ↔ v ∈ found ∨ entry_id entries v
  end.
Proof.
  revert found. induction entries as [|entry rest IH]; intros found.
  - simpl. split.
    + by intros v (items & []%elem_of_nil & _).
    + intros v. split; [auto|]. by intros [?|(items & []%elem_of_nil & _)].
  - assert (∀ found,
              (∀ items, entry = JDict items → dict_of items !! "id" = None) →
              match collect_ids rest found with
              | inl _ => ∃ v, entry_id (entry :: rest) v ∧ hashable v = false
              | inr found' =>
                  (∀ v, entry_id (entry :: rest) v → hashable v = true)
                  ∧ ∀ v, v ∈ found' ↔ v ∈ found ∨ entry_id (entry :: rest) v
              end) as Hskip.
    { intros found0 Hnone. specialize (IH found0).
      destruct (collect_ids rest found0) as [e|found'].
      - destruct IH as (v & Hv & Hh). exists v. split; [|done].
        apply entry_id_cons. by right.
      - destruct IH as [Hh Hmem]. split.
        + intros v [(items & -> & Hid)|Hv]%entry_id_cons; [|by apply Hh].
          rewrite (Hnone items eq_refl) in Hid. done.
        + intros v. rewrite Hmem. split; intros [?|Hv]; auto.
          * right. apply entry_id_cons. by right.
          * apply entry_id_cons in Hv as [(items & -> & Hid)|Hv]; [|auto].
            rewrite (Hnone items eq_refl) in Hid. done. }
    destruct entry as [|b|n|x|s|l|items]; simpl;
      try (apply Hskip; intros ? [=]).
    destruct (dict_of items !! "id") as [id|] eqn:Hid;
      [|apply Hskip; by intros ? [= <-]].
    destruct (hashable id) eqn:Hhash.
    + specialize (IH (found ++ [id])).
      destruct (collect_ids rest (found ++ [id])) as [e|found'].
      * destruct IH as (v & Hv & Hh). exists v. split; [|done].
        apply entry_id_cons. by right.
      * destruct IH as [Hh Hmem]. split.
        -- intros v [(items' & [= <-] & Hid')|Hv]%entry_id_cons;
             [congruence|by apply Hh].
        -- intros v. rewrite Hmem, elem_of_app, list_elem_of_singleton.
           rewrite entry_id_cons. split.
           ++ intros [[?| ->]|?]; eauto.
           ++ intros [?|[(items' & [= <-] & Hid')|?]]; eauto.
              left. right. congruence.
    + exists id. split; [|done]. apply entry_id_cons. left. eauto.
Qed.

Lemma check_required_ids_none auth_data required_auth_ids :
  check_required_ids auth_data required_auth_ids = inr []
  ↔ match auth_data with
    | JDict items =>
        ∀ auth_id, auth_id ∈ required_auth_ids → auth_id ∈ items.*1
    | JList entries =>
        required_auth_ids = []
        ∨ ((∀ v, entry_id entries v → hashable v = true)
           ∧ ∀ auth_id, auth_id ∈ required_auth_ids →
                        entry_id entries (JStr auth_id))
    | _ => True
    end.
Proof.
  unfold check_required_ids.
  destruct auth_data as [|b|n|x|s|entries|items]; try done;
    try (by destruct (list_truthy required_auth_ids)).
  - destruct required_auth_ids as [|r required]; [by split; [left|]|].
    cbn [list_truthy].
    pose proof (collect_ids_spec entries []) as Hcollect.
    destruct (collect_ids entries []) as [e|found].
    + destruct Hcollect as (v & Hv & Hh). split; [done|].
      intros [[=]|[Hall _]]. apply Hall in Hv. congruence.
    + destruct Hcollect as [Hall Hmem]. split.
      * intros [= Hmissing]. right. split; [done|].
        intros auth_id Hin.
        apply (proj1 (missing_ids_nil _ _) Hmissing) in Hin.
        apply id_found_spec, Hmem in Hin as [[]%elem_of_nil|?]. done.
      * intros [[=]|[_ Hids]]. f_equal. apply missing_ids_nil.
        intros auth_id Hin. apply id_found_spec, Hmem. right. by apply Hids.
  - destruct required_auth_ids as [|r required].
    { cbn [list_truthy]. split; [|done]. by intros _ ? []%elem_of_nil. }
    cbn [list_truthy]. split.
    + intros [= Hmissing] auth_id Hin.
      apply (proj1 (missing_ids_nil _ _) Hmissing) in Hin.
      apply bool_decide_eq_true in Hin. by apply dict_of_is_Some.
    + intros Hkeys. f_equal. apply missing_ids_nil. intros auth_id Hin.
      apply bool_decide_eq_true, dict_of_is_Some. by apply Hkeys.
Qed.

Lemma join_head_prefix sep x rest :
  String.prefix x (Text.join sep (x :: rest)) = true.
Proof.
  assert (∀ tail, String.prefix x (x ++ tail) = true) as Hprefix.
  { intros tail. induction x as [|c x IH]; simpl; [by destruct tail|].
    change (String c x ++ tail)%string with (String c (x ++ tail)).
    simpl. destruct (ascii_dec c c); [apply IH|done]. }
  destruct rest as [|y rest]; [|apply Hprefix].
  simpl. rewrite <- (string_app_nil_r x) at 2. apply Hprefix.
Qed.

(** X19.  When [validate_auth_file] reports no issue.  For a path and a list
    of required identifiers, the answer is the OK report exactly when the
    path exists, is a file, is read and decoded without error, and
    - the file holds an object: every required identifier is one of its
      keys;
    - the file holds a list: no identifier is required, or every ["id"] of
      an object of the list can be put in a set and every required
      identifier is the ["id"] of one of them;
    - the file holds anything else ([null], a number, a string, a
      boolean): always, whatever identifiers are required. *)
Theorem auth_file_verdict (Path_str : string → string)
        (stat : string → FileStatus) (read_json : string → ReadOutcome)
        (file_path : string) (required_auth_ids : list string) :
  let path := Path_str file_path in
  auth_ok (handle_validate_auth_file Path_str stat read_json file_path
                                     required_auth_ids)
  ↔ path_exists (stat path) = true ∧ path_is_file (stat path) = true
    ∧ ∃ auth_data,
        read_json path = Parsed auth_data
        ∧ match auth_data with
          | JDict items =>
              ∀ auth_id, auth_id ∈ required_auth_ids → auth_id ∈ items.*1
          | JList entries =>
              required_auth_ids = []
              ∨ ((∀ v, entry_id entries v → hashable v = true)
                 ∧ ∀ auth_id, auth_id ∈ required_auth_ids →
                              entry_id entries (JStr auth_id))
          | _ => True
          end.
Proof.
  intros path. unfold handle_validate_auth_file. fold path.
  assert (∀ text issues,
            ¬ auth_ok (Returns (Text.join nl
                ("# Auth File Validation - Issues Found" :: ""
                 :: text :: "" :: issues)))) as Hissues.
  { intros text issues. simpl. by vm_compute. }
  assert (∀ lines, auth_ok (Returns (Text.join nl
            ("# Auth File Validation - OK" :: lines)))) as Hok.
  { intros lines. apply join_head_prefix. }
  destruct (path_exists (stat path)); simpl.
  2:{ split; [by intros ?%Hissues|by intros ([=] & _)]. }
  destruct (path_is_file (stat path)); simpl.
  2:{ split; [by intros ?%Hissues|by intros (_ & [=] & _)]. }
  destruct (read_json path) as [auth_data|msg| |e]; simpl.
  2:{ split; [by intros ?%Hissues|by intros (_ & _ & ? & [=] & _)]. }
  2:{ split; [by intros ?%Hissues|by intros (_ & _ & ? & [=] & _)]. }
  2:{ split; [done|by intros (_ & _ & ? & [=] & _)]. }
  pose proof (check_required_ids_none auth_data required_auth_ids) as Hnone.
  destruct (check_required_ids auth_data required_auth_ids)
    as [e|[|issue issues]]; simpl.
  - split; [done|]. intros (_ & _ & ? & [= <-] & H).
    by apply Hnone in H.
  - split.
    + intros _. split; [done|]. split; [done|].
      exists auth_data. split; [done|]. by apply Hnone.
    + intros _. destruct (list_truthy required_auth_ids); apply Hok.
  - split; [by intros ?%Hissues|].
    intros (_ & _ & ? & [= <-] & H). by apply Hnone in H.
Qed.

(** ** The tools and the world *)

Lemma capabilities_effects run table self w :
  let '(caps, d, w') := capabilities run table self w in
  _detection_done d = true
  ∧ _binary_path d = _binary_path self
  ∧ log_files w' = log_files w
  ∧ (if _detection_done self then d = self ∧ w' = w
     else spawned w'
          = spawned w ++ [[_binary_path self; "--version"; "--no_banner"]]).
Proof.
  destruct (_detection_done self) eqn:Hdone.
  - destruct (capabilities_done run table self w Hdone) as [caps [-> _]].
    by rewrite Hdone.
  - pose proof (detect_facts run 10 self w) as Hdetect.
    destruct (detect run 10 self w) as [[v d] w1] eqn:Hd.
    destruct Hdetect as (Hd1 & _ & Hpath & Hlog & Hspawn).
    rewrite Hdone in Hspawn.
    destruct (capabilities_done run table d w1 Hd1) as [caps [Hcaps _]].
    assert (capabilities run table self w = (caps, d, w1)) as ->; [|done].
    unfold capabilities in Hcaps |- *. rewrite Hdone. rewrite Hd1 in Hcaps.
    simpl in Hcaps |- *. by rewrite Hd.
Qed.

(** What a call of [handle_preview_command] does to builder and world. *)
Lemma preview_world run path parse_fields check command_builder arguments w :
  let '(_, command_builder', w') :=
    handle_preview_command run path parse_fields check command_builder
                           arguments w in
  match command_builder with
  | None => command_builder' = None ∧ w' = w
  | Some builder =>
      if _detection_done (_version_detector builder)
      then command_builder' = command_builder ∧ w' = w
      else log_files w' = log_files w
           ∧ (w' = w
              ∨ spawned w'
                = spawned w ++ [[_binary_path (_version_detector builder);
                                 "--version"; "--no_banner"]])
  end.
Proof.
  unfold handle_preview_command.
  destruct command_builder as [builder|]; [|done].
  destruct (MigrationParams_new parse_fields arguments) as [errors|params].
  { by destruct (_detection_done (_version_detector builder)); auto. }
  pose proof (capabilities_effects run _SORTED_VERSIONS
                (_version_detector builder) w) as Heffects.
  destruct (capabilities run _SORTED_VERSIONS (_version_detector builder) w)
    as [[caps detector] w'].
  destruct Heffects as (_ & _ & Hlog & Hspawn).
  destruct (format_command_display_built
              (mkBuilder (binary_path builder) detector) params true)
    as [display ->].
  destruct (_detection_done (_version_detector builder)); [|by auto].
  destruct Hspawn as [-> ->]. by destruct builder.
Qed.

(** X20.  [handle_preview_command] runs nothing and writes nothing.  It
    always returns a text, never an exception; no log is written; the only
    process it can ask for is the version probe of the binary, and only
    when the builder's detection has not been done, which is never the case
    for a builder made by the constructor.  With detection done, builder
    and world are after the call what they were before. *)
Theorem preview_runs_nothing (run : OS) (path : string)
        (parse_fields : gmap string JValue → ValidationErrors + MigrationParams)
        (check : gmap string JValue → VersionCapabilities →
                 option MigratorXpressVersion → list string)
        (command_builder : option CommandBuilder)
        (arguments : gmap string JValue) (w : World) :
  let '(outcome, command_builder', w') :=
    handle_preview_command run path parse_fields check command_builder
                           arguments w in
  (∃ text, outcome = Returns text)
  ∧ log_files w' = log_files w
  ∧ match command_builder with
    | None => command_builder' = None ∧ w' = w
    | Some builder =>
        if _detection_done (_version_detector builder)
        then command_builder' = command_builder ∧ w' = w
        else w' = w
             ∨ spawned w'
               = spawned w ++ [[_binary_path (_version_detector builder);
                                "--version"; "--no_banner"]]
    end.
Proof.
  unfold handle_preview_command.
  destruct command_builder as [builder|]; [|by eauto].
  destruct (MigrationParams_new parse_fields arguments) as [errors|params].
  { split; [by eauto|]. split; [done|].
    by destruct (_detection_done (_version_detector builder)); auto. }
  pose proof (capabilities_effects run _SORTED_VERSIONS
                (_version_detector builder) w) as Heffects.
  destruct (capabilities run _SORTED_VERSIONS (_version_detector builder) w)
    as [[caps detector] w'].
  destruct Heffects as (_ & _ & Hlog & Hspawn).
  destruct (format_command_display_built
              (mkBuilder (binary_path builder) detector) params true)
    as [display ->].
  split; [by eauto|]. split; [done|].
  destruct (_detection_done (_version_detector builder)); [|by right].
  destruct Hspawn as [-> ->]. by destruct builder.
Qed.

(** X21.  The explanation of a preview tells that a licence key was given and
    nothing about the key: two parameter sets that differ only in the key,
    both keys being non-empty, have the same explanation. *)
Theorem explanation_hides_license_key (p : MigrationParams)
        (key key' : string) :
  key ≠ "" → key' ≠ "" →
  _build_command_explanation (with_str_field "license" (Some key) p)
  = _build_command_explanation (with_str_field "license" (Some key') p).
Proof.
  intros Hkey Hkey'. unfold _build_command_explanation.
  cbn [with_str_field String.eqb Ascii.eqb Bool.eqb
       source_db_name target_db_name source_schema_name target_schema_name
       task_list fasttransfer_dir_path fasttransfer_p include_tables
       exclude_tables min_rows max_rows resume force license].
  assert (∀ k, k ≠ "" → str_truthy k = true) as Htruthy.
  { intros k Hk. unfold str_truthy. by destruct (String.eqb_spec k ""). }
  by rewrite !(Htruthy key), !(Htruthy key').
Qed.

Lemma explanation_hides_license_key_witness :
  _build_command_explanation
    (with_str_field "license" (Some "KEY-1") scenario_params)
  = _build_command_explanation
      (with_str_field "license" (Some "another key") scenario_params).
Proof. by apply explanation_hides_license_key. Defined.

Lemma execute_command_spawned run log_writable command timeout log_dir w :
  spawned (execute_command run log_writable command timeout log_dir w).2
  = spawned w ++ [command].
Proof.
  unfold execute_command.
  destruct (run command timeout) as [rc out err|[m|m|m]]; simpl; try done.
  destruct log_dir as [d|]; [|done].
  unfold _save_execution_log. by destruct (log_writable d).
Qed.

(** What a call of [handle_execute_command] does to the world. *)
Lemma handle_execute_command_world run log_writable timeout log_dir
      shlex_split command_builder arguments w :
  let '(_, w') :=
    handle_execute_command run log_writable timeout log_dir shlex_split
                           command_builder arguments w in
  w' = w
  ∨ ∃ line command,
      is_Some command_builder
      ∧ truthy (get arguments "confirmation" (JBool false)) = true
      ∧ arguments !! "command" = Some (JStr line)
      ∧ shlex_split line = inr command
      ∧ spawned w' = spawned w ++ [command].
Proof.
  unfold handle_execute_command.
  destruct command_builder as [builder|]; [|by left].
  destruct (truthy (get arguments "confirmation" (JBool false))) eqn:Hconf;
    cbn [negb]; [|by left].
  unfold get at 1 2.
  destruct (arguments !! "command") as [v|] eqn:Hcommand; [|by left].
  destruct (negb (truthy v)); [by left|].
  destruct v as [|b|n|x|line|items|items]; try (by left).
  destruct (shlex_split line) as [msg|command] eqn:Hsplit; [by left|].
  pose proof (execute_command_spawned run log_writable command timeout
                (Some log_dir) w) as Hspawn.
  destruct (execute_command run log_writable command timeout (Some log_dir) w)
    as [[err|[[rc out] err]] w']; cbn [snd] in Hspawn;
    right; exists line, command;
    (split; [by eexists|]); repeat (split; [done|]); exact Hspawn.
Qed.

Lemma get_version_done run builder w :
  _detection_done (_version_detector builder) = true →
  ∃ info, get_version run builder w = (info, builder, w).
Proof.
  intros Hdone. unfold get_version.
  pose proof (detect_facts run 10 (_version_detector builder) w) as Hdetect.
  destruct (detect run 10 (_version_detector builder) w) as [[v d] w1].
  rewrite Hdone in Hdetect. destruct Hdetect as (_ & _ & _ & _ & -> & ->).
  destruct (capabilities_done run _SORTED_VERSIONS _ w Hdone)
    as [caps [-> _]].
  destruct builder. by eexists.
Qed.

(** After the start-up block the builder, if there is one, has its
    detection done, and at most the version probe has been asked for. *)
Lemma startup_ready run Path_str stat binary_path w :
  let '(command_builder, w') := startup run Path_str stat binary_path w in
  log_files w' = log_files w
  ∧ match command_builder with
    | None => w' = w
    | Some builder =>
        _detection_done (_version_detector builder) = true
        ∧ spawned w'
          = spawned w ++ [[Path_str binary_path; "--version"; "--no_banner"]]
    end.
Proof.
  unfold startup, CommandBuilder_init.
  destruct (_validate_binary stat (Path_str binary_path)); [done|].
  pose proof (detect_facts run 10 (new_detector (Path_str binary_path)) w)
    as Hdetect.
  destruct (detect run 10 (new_detector (Path_str binary_path)) w)
    as [[v d] w1].
  destruct Hdetect as (Hdone & _ & _ & Hlog & Hspawn). simpl in Hspawn.
  destruct (get_version_done run (mkBuilder (Path_str binary_path) d) w1 Hdone)
    as [info ->].
  done.
Qed.

(** X22.  Only a confirmed [execute_command] runs anything.  Once the server
    has started (which asks for one version probe at most and writes no
    log), every call of a tool leaves the builder as it was, and either
    leaves the world as it was, or the tool is [execute_command], the
    builder is there, the confirmation is true, the command is a string
    that [shlex.split] accepts, and exactly the command it splits into has
    been asked for.  So no preview, validation, listing, suggestion or
    version query, no unknown tool and no call that fails spawns a process
    or writes a log. *)
Theorem only_confirmed_execution_runs
        (run : OS) (log_writable : string → bool)
        (Path_str : string → string) (stat : string → FileStatus)
        (read_json : string → ReadOutcome)
        (MIGRATORXPRESS_PATH : string) (MIGRATORXPRESS_TIMEOUT : Z)
        (MIGRATORXPRESS_LOG_DIR : string)
        (shlex_split : string → string + list string)
        (parse_fields : gmap string JValue → ValidationErrors + MigrationParams)
        (check : gmap string JValue → VersionCapabilities →
                 option MigratorXpressVersion → list string)
        (container_repr : JValue → string)
        (validate_auth_file_untyped : gmap string JValue → Outcome)
        (w0 : World) (name : string) (arguments : gmap string JValue)
        (w : World) :
  let '(command_builder, w1) :=
    startup run Path_str stat MIGRATORXPRESS_PATH w0 in
  let '(_, command_builder', w') :=
    call_tool run log_writable Path_str stat read_json MIGRATORXPRESS_PATH
              MIGRATORXPRESS_TIMEOUT MIGRATORXPRESS_LOG_DIR shlex_split
              parse_fields check container_repr validate_auth_file_untyped
              name arguments command_builder w in
  log_files w1 = log_files w0
  ∧ (spawned w1 = spawned w0
     ∨ spawned w1
       = spawned w0 ++ [[Path_str MIGRATORXPRESS_PATH; "--version";
                         "--no_banner"]])
  ∧ command_builder' = command_builder
  ∧ (w' = w
     ∨ name = "execute_command"
       ∧ is_Some command_builder
       ∧ truthy (get arguments "confirmation" (JBool false)) = true
       ∧ ∃ line command,
           arguments !! "command" = Some (JStr line)
           ∧ shlex_split line = inr command
           ∧ spawned w' = spawned w ++ [command]).
Proof.
  pose proof (startup_ready run Path_str stat MIGRATORXPRESS_PATH w0)
    as Hstart.
  destruct (startup run Path_str stat MIGRATORXPRESS_PATH w0)
    as [command_builder w1].
  destruct Hstart as [Hlog Hready].
  assert (∀ builder, command_builder = Some builder →
                     _detection_done (_version_detector builder) = true)
    as Hdone.
  { intros builder ->. by destruct Hready. }
  assert (spawned w1 = spawned w0
          ∨ spawned w1
            = spawned w0 ++ [[Path_str MIGRATORXPRESS_PATH; "--version";
                              "--no_banner"]]) as Hprobe.
  { destruct command_builder; [right; by destruct Hready|left; by subst]. }
  clear Hready. unfold call_tool.
  destruct (String.eqb_spec name "preview_command") as [->|_].
  { pose proof (preview_world run MIGRATORXPRESS_PATH parse_fields check
                  command_builder arguments w) as Hpreview.
    destruct (handle_preview_command run MIGRATORXPRESS_PATH parse_fields
                check command_builder arguments w) as [[outcome cb'] w'].
    destruct command_builder as [builder|].
    - rewrite (Hdone builder eq_refl) in Hpreview.
      destruct Hpreview as [-> ->].
      by destruct outcome; auto.
    - destruct Hpreview as [-> ->]. by destruct outcome; auto. }
  destruct (String.eqb_spec name "execute_command") as [->|_].
  { pose proof (handle_execute_command_world run log_writable
                  MIGRATORXPRESS_TIMEOUT MIGRATORXPRESS_LOG_DIR shlex_split
                  command_builder arguments w) as Hexecute.
    destruct (handle_execute_command run log_writable MIGRATORXPRESS_TIMEOUT
                MIGRATORXPRESS_LOG_DIR shlex_split command_builder
                arguments w) as [outcome w'].
    assert (w' = w
            ∨ "execute_command" = "execute_command"
              ∧ is_Some command_builder
              ∧ truthy (get arguments "confirmation" (JBool false)) = true
              ∧ ∃ line command,
                  arguments !! "command" = Some (JStr line)
                  ∧ shlex_split line = inr command
                  ∧ spawned w' = spawned w ++ [command]) as Hworld.
    { destruct Hexecute as [?|(line & command & ? & ? & ? & ? & ?)];
        [by left|right; by eauto 10]. }
    by destruct outcome. }
  assert (∀ (outcome : Outcome),
            let '(_, command_builder', w') :=
              match outcome with
              | Returns text => (text, command_builder, w)
              | Raises e =>
                  (("Error: " ++ exception_message e)%string,
                   command_builder, w)
              end in
            log_files w1 = log_files w0
            ∧ (spawned w1 = spawned w0
               ∨ spawned w1
                 = spawned w0 ++ [[Path_str MIGRATORXPRESS_PATH; "--version";
                                   "--no_banner"]])
            ∧ command_builder' = command_builder
            ∧ (w' = w
               ∨ name = "execute_command"
                 ∧ is_Some command_builder
                 ∧ truthy (get arguments "confirmation" (JBool false)) = true
                 ∧ ∃ line command,
                     arguments !! "command" = Some (JStr line)
                     ∧ shlex_split line = inr command
                     ∧ spawned w' = spawned w ++ [command])) as Hquiet.
  { intros [text|e]; repeat (split; [done|]); by left. }
  destruct (String.eqb_spec name "validate_auth_file") as [_|_];
    [cbv beta iota zeta; first [apply Hquiet|exact (Hquiet (Returns ""))]|].
  destruct (String.eqb_spec name "list_capabilities") as [_|_];
    [cbv beta iota zeta; first [apply Hquiet|exact (Hquiet (Returns ""))]|].
  destruct (String.eqb_spec name "suggest_workflow") as [_|_];
    [cbv beta iota zeta; first [apply Hquiet|exact (Hquiet (Returns ""))]|].
  destruct (String.eqb_spec name "get_version") as [_|_];
    [|cbv beta iota zeta; first [apply Hquiet|exact (Hquiet (Returns ""))]].
  unfold handle_get_version.
  destruct command_builder as [builder|];
    [|cbv beta iota zeta; first [apply Hquiet|exact (Hquiet (Returns ""))]].
  destruct (get_version_done run builder w (Hdone builder eq_refl))
    as [info ->].
  cbv beta iota zeta. exact (Hquiet (Returns "")).
Qed.

(** ** The tables of known values *)

(** X23.  The three tables of known values agree.  Whatever the binary
    answers to the probe and whatever was detected before, the capabilities
    resolved from the registry of the program are those of its one entry;
    the tasks, migration database modes, load modes and foreign key modes of
    that entry are exactly the values of the enumerations the validation
    accepts, and exactly the keys [get_supported_capabilities] lists, which
    come in the order of the enumerations. *)
Theorem known_values_agree (run : OS) (self : VersionDetector) (w : World) :
  let caps := (capabilities run _SORTED_VERSIONS self w).1.1 in
  let listed := get_supported_capabilities in
  Some caps = snd <$> VERSION_REGISTRY !! 0%nat
  ∧ tasks caps = Validators.valid_tasks
  ∧ (Supported.tasks listed).*1 = TaskType.value <$> TaskType.members
  ∧ migration_db_modes caps = list_to_set (Supported.migration_db_modes listed).*1
  ∧ (Supported.migration_db_modes listed).*1
    = MigrationDbMode.value
        <$> [MigrationDbMode.PRESERVE; MigrationDbMode.TRUNCATE;
             MigrationDbMode.DROP]
  ∧ load_modes caps = list_to_set (Supported.load_modes listed).*1
  ∧ (Supported.load_modes listed).*1
    = LoadMode.value <$> [LoadMode.TRUNCATE; LoadMode.APPEND]
  ∧ fk_modes caps = list_to_set (Supported.fk_modes listed).*1
  ∧ (Supported.fk_modes listed).*1
    = FkMode.value <$> [FkMode.TRUSTED; FkMode.UNTRUSTED; FkMode.DISABLED].
Proof.
  intros caps listed.
  assert (Some caps = snd <$> VERSION_REGISTRY !! 0%nat) as Hcaps.
  { unfold caps.
    by rewrite (capabilities_fixed_registry run self w _ eq_refl). }
  split; [exact Hcaps|].
  injection Hcaps as ->.
  repeat split; try reflexivity;
    apply (bool_decide_eq_true_1 _); by vm_compute.
Qed.
